(** * AlphaCalc 2.2: value store, formula evaluator, group aggregator and
      recompute pass

    A shallow embedding of [dist/alphacalc.js].  Numbers are IEEE-754
    binary64 values ([spec_float] at precision 53), strings are byte
    strings, the value store ([InputManager.inputValues], a JS [Map]) is a
    finite map from cell ids to values, and the page elements the managers
    hold references to live in one shared list addressed by index.

    What the host language supplies and the library only calls (running
    the text handed to [new Function], [Number::toString],
    [StringToNumber]) is an interface, [Host]; every general theorem holds
    for every host. *)

From Stdlib Require Import ZArith Bool String Ascii List Lia DecimalString.
From Stdlib Require Import Floats.SpecFloat.
From stdpp Require Import base option gmap strings list fin_maps.

Open Scope Z_scope.

(* ===================================================================== *)
(** * Numbers: the [Number] type *)
(* ===================================================================== *)

Module Num.

Definition prec : Z := 53.
Definition emax : Z := 1024.

Definition num : Type := spec_float.

Definition zero : num := S754_zero false.
Definition NaN : num := S754_nan.
Definition Infinity : num := S754_infinity false.

Definition add : num -> num -> num := SFadd prec emax.
Definition sub : num -> num -> num := SFsub prec emax.
Definition mul : num -> num -> num := SFmul prec emax.
Definition div : num -> num -> num := SFdiv prec emax.
Definition neg : num -> num := SFopp.
Definition abs : num -> num := SFabs.
Definition ltb : num -> num -> bool := SFltb.
(** [===] on two numbers. *)
Definition eqb : num -> num -> bool := SFeqb.

(** The integer [z] as a number (correctly rounded). *)
Definition of_Z (z : Z) : num := binary_normalize prec emax z 0 false.

Definition one : num := of_Z 1.

(** The number nearest to [(-1)^neg * n * 10^k], ties to even, as
    [StringToNumber] and [parseFloat] produce it from decimal digits. *)
Definition of_decimal (neg : bool) (n : Z) (k : Z) : num :=
  match n with
  | Zpos p =>
      if 0 <? k then binary_round prec emax neg (Z.to_pos (Zpos p * 10 ^ k)) 0
      else SFdiv prec emax (S754_finite neg p 0)
                           (S754_finite false (Z.to_pos (10 ^ (- k))) 0)
  | _ => S754_zero neg
  end.

(** [Number.isFinite] / the test the global [isFinite] applies after
    conversion. *)
Definition isFinite (x : num) : bool :=
  match x with
  | S754_zero _ | S754_finite _ _ _ => true
  | S754_infinity _ | S754_nan => false
  end.

Definition isNaN (x : num) : bool :=
  match x with S754_nan => true | _ => false end.

Definition isZero (x : num) : bool :=
  match x with S754_zero _ => true | _ => false end.

(** [Math.max(a, b)]: NaN if either is NaN, and [+0] above [-0]. *)
Definition max (a b : num) : num :=
  match SFcompare a b with
  | None => NaN
  | Some Lt => b
  | Some Gt => a
  | Some Eq =>
      match a, b with
      | S754_zero sa, S754_zero sb => S754_zero (sa && sb)
      | _, _ => a
      end
  end.

(** [Math.min(a, b)]: NaN if either is NaN, and [-0] below [+0]. *)
Definition min (a b : num) : num :=
  match SFcompare a b with
  | None => NaN
  | Some Lt => a
  | Some Gt => b
  | Some Eq =>
      match a, b with
      | S754_zero sa, S754_zero sb => S754_zero (sa || sb)
      | _, _ => a
      end
  end.

(** [Number.MAX_VALUE], 1.7976931348623157e308. *)
Definition MAX_VALUE : num := S754_finite false 9007199254740991 971.

End Num.

Export Num(num).

(* ===================================================================== *)
(** * Values and completions *)
(* ===================================================================== *)

(** The primitive values a cell can hold or a formula can produce. *)
Inductive value : Type :=
  | VUndefined
  | VNull
  | VBool (b : bool)
  | VNum (x : num)
  | VStr (s : string).

(** The outcome of running host code: it throws, or it returns. *)
Inductive completion (A : Type) : Type :=
  | Throw
  | Return (a : A).
Arguments Throw {A}.
Arguments Return {A} a.

(** What the library calls but does not define. *)
Class Host : Type := {
  (** [new Function(...Object.keys(context), body)(...Object.values(context))],
      including a [SyntaxError] from the constructor. *)
  runFunction : gmap string value -> string -> completion value;
  (** [Number::toString]. *)
  numberToString : num -> string;
  (** [StringToNumber]. *)
  stringToNumber : string -> num;
}.

(* ===================================================================== *)
(** * Strings: character classes and [parseFloat] *)
(* ===================================================================== *)

Definition code (c : ascii) : Z := Z.of_N (N_of_ascii c).

Definition is_digit (c : ascii) : bool := (48 <=? code c) && (code c <=? 57).

(** [\w]: letters, digits and the underscore. *)
Definition is_word (c : ascii) : bool :=
  is_digit c
  || ((65 <=? code c) && (code c <=? 90))
  || ((97 <=? code c) && (code c <=? 122))
  || (code c =? 95).

(** [\s], on byte strings: space, tab, line feed, vertical tab, form feed,
    carriage return. *)
Definition is_space (c : ascii) : bool :=
  (code c =? 32) || ((9 <=? code c) && (code c <=? 13)).

Fixpoint mem_char (c : ascii) (s : string) : bool :=
  match s with
  | EmptyString => false
  | String d s' => Ascii.eqb c d || mem_char c s'
  end.

(** [s.replace(/[^...]/g, '')]: keep the characters [keep] accepts. *)
Fixpoint keep_chars (keep : ascii -> bool) (s : string) : string :=
  match s with
  | EmptyString => EmptyString
  | String c s' =>
      if keep c then String c (keep_chars keep s') else keep_chars keep s'
  end.

Fixpoint skip_spaces (s : string) : string :=
  match s with
  | String c s' => if is_space c then skip_spaces s' else s
  | EmptyString => s
  end.

(** Reads a run of decimal digits: the number read so far, how many digits
    were read, and the rest of the string. *)
Fixpoint read_digits (s : string) (acc : Z) (count : Z) : Z * Z * string :=
  match s with
  | String c s' =>
      if is_digit c then read_digits s' (10 * acc + (code c - 48)) (count + 1)
      else (acc, count, s)
  | EmptyString => (acc, count, s)
  end.

(** The exponent part [e+ddd] or [e-ddd] of a decimal literal and what
    follows it; exponent 0 and the string itself when there is none. *)
Definition read_exponent (s : string) : Z * string :=
  match s with
  | String c s' =>
      if mem_char c "eE" then
        let '(sign, s'') :=
          match s' with
          | String "-" t => (-1, t)
          | String "+" t => (1, t)
          | _ => (1, s')
          end in
        let '(e, n, r) := read_digits s'' 0 0 in
        if 0 <? n then (sign * e, r) else (0, s)
      else (0, s)
  | EmptyString => (0, s)
  end.

(** The longest prefix of [s] that is an unsigned decimal literal
    ([12], [12.5], [.5], [12.], each with an optional exponent), as digits
    [m] and a power of ten [k] standing for [m * 10^k], and the rest. *)
Definition read_decimal (s : string) : option (Z * Z * string) :=
  let '(ip, ni, s2) := read_digits s 0 0 in
  let '(m, nf, s3) :=
    match s2 with
    | String "." t => read_digits t ip 0
    | _ => (ip, 0, s2)
    end in
  if (ni =? 0) && (nf =? 0) then None
  else let '(e, r) := read_exponent s3 in Some (m, e - nf, r).

(** [parseFloat(s)]: leading white space is skipped, then the longest
    prefix that is a decimal literal is converted; [NaN] when there is no
    such prefix. *)
Definition parseFloat (s : string) : num :=
  let s0 := skip_spaces s in
  let '(neg, s1) :=
    match s0 with
    | String "-" t => (true, t)
    | String "+" t => (false, t)
    | _ => (false, s0)
    end in
  if String.prefix "Infinity" s1 then S754_infinity neg
  else
    match read_decimal s1 with
    | Some (m, k, _) => Num.of_decimal neg m k
    | None => Num.NaN
    end.

(* ===================================================================== *)
(** * Conversions between values and numbers *)
(* ===================================================================== *)

(** [ToNumber] on primitive values. *)
Definition toNumber `{Host} (v : value) : num :=
  match v with
  | VUndefined => Num.NaN
  | VNull => Num.zero
  | VBool b => if b then Num.one else Num.zero
  | VNum x => x
  | VStr s => stringToNumber s
  end.

(** [ToBoolean]: the falsy values are [undefined], [null], [false], [NaN],
    [+0], [-0] and the empty string. *)
Definition toBoolean (v : value) : bool :=
  match v with
  | VUndefined | VNull => false
  | VBool b => b
  | VNum x => negb (Num.isNaN x || Num.isZero x)
  | VStr s => negb (String.eqb s "")
  end.

(** The global [isFinite(v)]. *)
Definition isFinite `{Host} (v : value) : bool := Num.isFinite (toNumber v).

(** [parseFloat(x)] for a number [x], i.e. [parseFloat(ToString(x))]: the
    digits [Number::toString] prints identify [x], so a finite [x] is read
    back as itself; [-0] prints as ["0"]. *)
Definition parseFloat_number (x : num) : num :=
  if Num.isZero x then Num.zero else x.

(** [Util.parseNumeric] (lines 122-138). *)
Definition parseNumeric (value : value) : num :=
  match value with
  | VUndefined | VNull => Num.zero
  | VBool true => Num.one
  | VBool false => Num.zero
  | VStr s =>
      if String.eqb s "" then Num.zero
      else
        (* Remove currency symbols, commas, etc. *)
        let cleanValue := keep_chars (fun c => is_digit c || mem_char c ".-") s in
        let num := parseFloat cleanValue in
        if Num.isFinite num then num else Num.zero
  | VNum x =>
      (* Direct numeric values *)
      let num := parseFloat_number x in
      if Num.isFinite num then num else Num.zero
  end.

(* ===================================================================== *)
(** * [Number.prototype.toFixed] *)
(* ===================================================================== *)

(** The strings [toFixed] returns, kept structured: the decimal numeral of
    [n] with the point [f] digits from the right, signed; or
    [ToString(x)]. *)
Inductive fixed_string : Type :=
  | FixedDigits (neg : bool) (n : Z) (f : Z)
  | NumberString (x : num).

(** [10^21 <= m * 2^e]. *)
Definition at_least_1e21 (m : positive) (e : Z) : bool :=
  if 0 <=? e then 10 ^ 21 <=? Zpos m * 2 ^ e
  else 10 ^ 21 * 2 ^ (- e) <=? Zpos m.

(** The integer [n] for which [n / 10^f - m * 2^e] is closest to zero, the
    larger one of two. *)
Definition scaled_round (m : positive) (e : Z) (f : Z) : Z :=
  if 0 <=? e then Zpos m * 2 ^ e * 10 ^ f
  else (2 * Zpos m * 10 ^ f + 2 ^ (- e)) / 2 ^ (1 - e).

(** [x.toFixed(fractionDigits)]; a [RangeError] outside 0..100. *)
Definition toFixed (x : num) (fractionDigits : Z) : completion fixed_string :=
  if (fractionDigits <? 0) || (100 <? fractionDigits) then Throw
  else
    match x with
    | S754_finite s m e =>
        if at_least_1e21 m e then Return (NumberString x)
        else Return (FixedDigits s (scaled_round m e fractionDigits) fractionDigits)
    | S754_zero _ => Return (FixedDigits false 0 fractionDigits)
    | S754_infinity _ | S754_nan => Return (NumberString x)
    end.

(** [parseFloat] of a string [toFixed] returned. *)
Definition parseFloat_fixed (s : fixed_string) : num :=
  match s with
  | FixedDigits neg n f => Num.of_decimal neg n (- f)
  | NumberString x => parseFloat_number x
  end.

(** [parseFloat(x.toFixed(d))], the rounding the evaluator applies; [None]
    when [toFixed] throws. *)
Definition roundToPrecision (d : Z) (x : num) : option num :=
  match toFixed x d with
  | Return s => Some (parseFloat_fixed s)
  | Throw => None
  end.

(* ===================================================================== *)
(** * Configuration *)
(* ===================================================================== *)

Record Config : Type := {
  decimal_input : Z;
  decimal_display : Z;
  autoCalculate : bool;
  debounceTime : Z;
  allowLegacyAttributes : bool;
}.

(** [DEFAULT_CONFIG] (lines 41-69): the decimal precisions and the
    features the managers consult. *)
Definition DEFAULT_CONFIG : Config := {|
  decimal_input := 4;
  decimal_display := 2;
  autoCalculate := true;
  debounceTime := 50;
  allowLegacyAttributes := true;
|}.

(* ===================================================================== *)
(** * Formula engine *)
(* ===================================================================== *)

(** The allow-list [/[^\w\s+\-*/.()%,]/g] keeps. *)
Definition formula_char (c : ascii) : bool :=
  is_word c || is_space c || mem_char c "+-*/.()%,".

(** [FormulaEngine.evaluate] (lines 217-250).  Everything after the
    sanitization runs inside [try]; any throw is answered with 0. *)
Definition evaluate `{Host} (config : Config) (formula : string)
    (context : gmap string value) : num :=
  (* Basic sanitization - only allow safe characters *)
  let sanitizedFormula := keep_chars formula_char formula in
  (* Create function with context variables as parameters, execute it *)
  match runFunction context ("return " +:+ sanitizedFormula +:+ ";") with
  | Throw => Num.zero
  | Return result =>
      (* Check for valid numeric result *)
      if negb (isFinite result) then Num.zero
      else
        (* Round to configured precision *)
        match result with
        | VNum x =>
            match toFixed x (decimal_input config) with
            | Return s => parseFloat_fixed s
            | Throw => Num.zero
            end
        | _ => Num.zero (* [result.toFixed] is not a function *)
        end
  end.

(* ===================================================================== *)
(** * Page elements *)
(* ===================================================================== *)

(** What the managers read and write of a page element.  An element is
    referred to by its index in the container's list of elements
    ([container]), so that every holder of a reference sees the same
    state. *)
Record Element : Type := {
  el_tagName : string;                     (* lower case *)
  el_attributes : list (string * string);
  el_type : string;                        (* the [type] property *)
  el_value : string;                       (* the [value] property *)
  el_checked : bool;
  el_initialized : bool;                   (* [_alphaCalcInitialized] *)
  el_options : list string;                (* the option values of a select *)
}.

Definition set_value (v : string) (el : Element) : Element :=
  {| el_tagName := el_tagName el; el_attributes := el_attributes el;
     el_type := el_type el; el_value := v; el_checked := el_checked el;
     el_initialized := el_initialized el; el_options := el_options el |}.

Definition set_checked (b : bool) (el : Element) : Element :=
  {| el_tagName := el_tagName el; el_attributes := el_attributes el;
     el_type := el_type el; el_value := el_value el; el_checked := b;
     el_initialized := el_initialized el; el_options := el_options el |}.

Definition set_initialized (b : bool) (el : Element) : Element :=
  {| el_tagName := el_tagName el; el_attributes := el_attributes el;
     el_type := el_type el; el_value := el_value el; el_checked := el_checked el;
     el_initialized := b; el_options := el_options el |}.

Fixpoint assoc (name : string) (l : list (string * string)) : option string :=
  match l with
  | [] => None
  | (k, v) :: l' => if String.eqb k name then Some v else assoc name l'
  end.

Definition getAttribute (el : Element) (name : string) : option string :=
  assoc name (el_attributes el).

Definition hasAttribute (el : Element) (name : string) : bool :=
  bool_decide (is_Some (getAttribute el name)).

(** [getAttribute] where the source has just tested [hasAttribute]. *)
Definition attribute (el : Element) (name : string) : string :=
  default "" (getAttribute el name).

(** The [name] property reflects the attribute. *)
Definition el_name (el : Element) : string := attribute el "name".

Inductive ElementType : Type := ETinput | ETselect | ETradio | ETcheckbox.

Definition ElementType_eqb (a b : ElementType) : bool :=
  match a, b with
  | ETinput, ETinput | ETselect, ETselect
  | ETradio, ETradio | ETcheckbox, ETcheckbox => true
  | _, _ => false
  end.

Definition is_toggle (t : ElementType) : bool :=
  match t with ETradio | ETcheckbox => true | _ => false end.

(** Truthiness of a string or [null]: [if (!cellId)]. *)
Definition truthy_string (o : option string) : option string :=
  match o with
  | Some s => if String.eqb s "" then None else Some s
  | None => None
  end.


(** [InputManager.getCellId] (lines 345-371). *)
Definition getCellId (config : Config) (element : Element) : option string :=
  if hasAttribute element "data-alphacalc-input"
     && negb (String.eqb (attribute element "data-alphacalc-input") "")
  then getAttribute element "data-alphacalc-input"
  else if allowLegacyAttributes config
          && hasAttribute element "data-alphacalc-cell"
  then getAttribute element "data-alphacalc-cell"
  else None.

(** [InputManager.getElementType] (lines 376-399). *)
Definition getElementType (element : Element) : ElementType :=
  let explicitType := default "" (getAttribute element "data-alphacalc-element") in
  if String.eqb explicitType "input" then ETinput
  else if String.eqb explicitType "select" then ETselect
  else if String.eqb explicitType "radio" then ETradio
  else if String.eqb explicitType "checkbox" then ETcheckbox
  else
    let tagName := el_tagName element in
    if String.eqb tagName "select" then ETselect
    else if String.eqb tagName "input" then
      let inputType := default "" (getAttribute element "type") in
      if String.eqb inputType "radio" then ETradio
      else if String.eqb inputType "checkbox" then ETcheckbox
      else ETinput
    else ETinput.

(** [InputManager.getSelectValue] (lines 437-461). *)
Definition getSelectValue (element : Element) : num :=
  if String.eqb (el_value element) "" then
    if hasAttribute element "data-alphacalc-default" then
      parseNumeric (VStr (attribute element "data-alphacalc-default"))
    else
      match List.find (fun opt => negb (String.eqb opt "")) (el_options element) with
      | Some firstValidOption => parseNumeric (VStr firstValidOption)
      | None => Num.zero
      end
  else parseNumeric (VStr (el_value element)).

(** [InputManager.getToggleValue] (lines 466-475). *)
Definition getToggleValue (element : Element) : num :=
  if negb (el_checked element) then Num.zero
  else
    let valueToUse :=
      if hasAttribute element "data-alphacalc-value"
      then attribute element "data-alphacalc-value"
      else el_value element in
    parseNumeric (VStr valueToUse).

(** [InputManager.clampValue] (lines 480-504). *)
Definition clampValue (value : num) (element : Element) : num :=
  let result := value in
  let result :=
    if hasAttribute element "data-alphacalc-min" then
      let min := parseFloat (attribute element "data-alphacalc-min") in
      if negb (Num.isNaN min) then Num.max result min else result
    else result in
  let result :=
    if hasAttribute element "data-alphacalc-max" then
      let max := parseFloat (attribute element "data-alphacalc-max") in
      if negb (Num.isNaN max) then Num.min result max else result
    else result in
  result.

(** [InputManager.getElementValue] (lines 404-432). *)
Definition getElementValue (element : Element) : num :=
  let elementType := getElementType element in
  let value :=
    match elementType with
    | ETselect => getSelectValue element
    | ETradio | ETcheckbox => getToggleValue element
    | ETinput =>
        let useDataValue :=
          hasAttribute element "data-alphacalc-value"
          && (negb (el_initialized element)
              || negb (String.eqb (el_type element) "text"
                       || String.eqb (el_type element) "number")) in
        let rawValue :=
          if useDataValue then attribute element "data-alphacalc-value"
          else el_value element in
        parseNumeric (VStr rawValue)
    end in
  (* Apply min/max constraints *)
  clampValue value element.


(* ===================================================================== *)
(** * The calculator instance *)
(* ===================================================================== *)

(** An entry of [GroupManager.groups]. *)
Record Group : Type := {
  g_name : string;
  g_elements : list nat;
  g_isRadioGroup : bool;
  g_value : num;
}.

Inductive DomEvent : Type := EvInput | EvChange.

Definition DomEvent_eqb (a b : DomEvent) : bool :=
  match a, b with
  | EvInput, EvInput | EvChange, EvChange => true
  | _, _ => false
  end.

(** A callback subscribed to ['value:changed'] on the event bus: the
    closure [GroupManager.createGroup] registers per member, with the two
    variables it captures. *)
Inductive Subscriber : Type :=
  | GroupMember (cellId : string) (groupName : string).

(** The state of an [AlphaCalc] instance: the container's elements, the
    input manager's maps, the group manager's map, the subscribers of the
    event bus and the custom calculation functions.  A custom calculation
    is kept as what it does to the value store.  Output getters, setters,
    submit buttons and loading indicators are adapters outside this
    model, and so is the timer behind [debouncedCalculate]. *)
Record Calc : Type := {
  calc_config : Config;
  container : list Element;
  inputValues : gmap string value;
  inputElements : gmap string nat;
  formulaInputs : list nat;
  listeners : gmap nat (DomEvent * string);
  groups : gmap string Group;
  events : list Subscriber;
  calculations : list (gmap string value -> gmap string value);
}.

Definition with_container (c : list Element) (st : Calc) : Calc :=
  {| calc_config := calc_config st; container := c;
     inputValues := inputValues st; inputElements := inputElements st;
     formulaInputs := formulaInputs st; listeners := listeners st;
     groups := groups st; events := events st;
     calculations := calculations st |}.

Definition with_inputValues (m : gmap string value) (st : Calc) : Calc :=
  {| calc_config := calc_config st; container := container st;
     inputValues := m; inputElements := inputElements st;
     formulaInputs := formulaInputs st; listeners := listeners st;
     groups := groups st; events := events st;
     calculations := calculations st |}.

Definition with_groups (g : gmap string Group) (st : Calc) : Calc :=
  {| calc_config := calc_config st; container := container st;
     inputValues := inputValues st; inputElements := inputElements st;
     formulaInputs := formulaInputs st; listeners := listeners st;
     groups := g; events := events st;
     calculations := calculations st |}.

Definition with_inputElements (m : gmap string nat) (st : Calc) : Calc :=
  {| calc_config := calc_config st; container := container st;
     inputValues := inputValues st; inputElements := m;
     formulaInputs := formulaInputs st; listeners := listeners st;
     groups := groups st; events := events st;
     calculations := calculations st |}.

Definition with_formulaInputs (l : list nat) (st : Calc) : Calc :=
  {| calc_config := calc_config st; container := container st;
     inputValues := inputValues st; inputElements := inputElements st;
     formulaInputs := l; listeners := listeners st;
     groups := groups st; events := events st;
     calculations := calculations st |}.

Definition with_listeners (m : gmap nat (DomEvent * string)) (st : Calc) : Calc :=
  {| calc_config := calc_config st; container := container st;
     inputValues := inputValues st; inputElements := inputElements st;
     formulaInputs := formulaInputs st; listeners := m;
     groups := groups st; events := events st;
     calculations := calculations st |}.

Definition with_events (l : list Subscriber) (st : Calc) : Calc :=
  {| calc_config := calc_config st; container := container st;
     inputValues := inputValues st; inputElements := inputElements st;
     formulaInputs := formulaInputs st; listeners := listeners st;
     groups := groups st; events := l;
     calculations := calculations st |}.

Definition with_calculations
    (l : list (gmap string value -> gmap string value)) (st : Calc) : Calc :=
  {| calc_config := calc_config st; container := container st;
     inputValues := inputValues st; inputElements := inputElements st;
     formulaInputs := formulaInputs st; listeners := listeners st;
     groups := groups st; events := events st;
     calculations := l |}.

(** [this.inputValues.set(cellId, value)]. *)
Definition store_set (cellId : string) (v : value) (st : Calc) : Calc :=
  with_inputValues (<[cellId := v]> (inputValues st)) st.

(** Runs [f] over the list, threading the state, as [forEach] does; stops
    when a step has no result. *)
Fixpoint for_each {A S : Type} (f : A -> S -> option S) (l : list A) (s : S)
    : option S :=
  match l with
  | [] => Some s
  | a :: l' => match f a s with Some s' => for_each f l' s' | None => None end
  end.

(** Whether an element is matched by [input[type="radio"][name="..."]]. *)
Definition is_radio_named (name : string) (el : Element) : bool :=
  String.eqb (el_tagName el) "input"
  && bool_decide (getAttribute el "type" = Some "radio")
  && bool_decide (getAttribute el "name" = Some name).

(** Assigning [element.checked]: checking a radio button unchecks the other
    buttons of its group. *)
Definition write_checked (i : nat) (b : bool) (c : list Element) : list Element :=
  match c !! i with
  | None => c
  | Some el =>
      let c' :=
        if b && is_radio_named (el_name el) el && negb (String.eqb (el_name el) "")
        then map (fun other =>
                    if is_radio_named (el_name el) other
                    then set_checked false other else other) c
        else c in
      <[i := set_checked b el]> c'
  end.

(** The instance before its managers are initialized. *)
Definition blank (config : Config) (elements : list Element) : Calc :=
  {| calc_config := config; container := elements;
     inputValues := ∅; inputElements := ∅; formulaInputs := [];
     listeners := ∅; groups := ∅; events := [];
     calculations := [] |}.

Section Managers.
Context `{Host}.

(** [ToString] of a value assigned to the [value] property of an
    element ([null] becomes the empty string there). *)
Definition toDomString (v : value) : string :=
  match v with
  | VUndefined => "undefined"
  | VNull => ""
  | VBool b => if b then "true" else "false"
  | VNum x => numberToString x
  | VStr s => s
  end.

(** [a === v] for a number [a]. *)
Definition strict_eq_num (a : num) (v : value) : bool :=
  match v with VNum b => Num.eqb a b | _ => false end.

(** The elements a group holds references to, in their current state. *)
Definition group_elements (st : Calc) (group : Group) : list Element :=
  omap (fun i => container st !! i) (g_elements group).

(** The value [GroupManager.updateGroupValue] computes (lines
    1047-1083). *)
Definition computeGroupValue (st : Calc) (group : Group) : num :=
  let elements := group_elements st group in
  if g_isRadioGroup group then
    (* For radio groups, use value of checked radio *)
    match List.find el_checked elements with
    | Some checkedRadio => getElementValue checkedRadio
    | None => Num.zero
    end
  else
    (* For other groups, sum all values *)
    fold_left
      (fun sum element =>
         let elementType := getElementType element in
         if is_toggle elementType then
           (* Only add if checked *)
           if el_checked element
           then Num.add sum (getElementValue element)
           else sum
         else
           (* Always add for regular inputs *)
           Num.add sum (getElementValue element))
      elements Num.zero.

(** [GroupManager.updateGroupValue] (lines 1040-1100); [emit] is the
    event bus. *)
Definition updateGroupValue (emit : string -> Calc -> option Calc)
    (groupName : string) (st : Calc) : option Calc :=
  match groups st !! groupName with
  | None => Some st
  | Some group =>
      let groupValue := computeGroupValue st group in
      (* Store the group value *)
      let group' := {| g_name := g_name group; g_elements := g_elements group;
                       g_isRadioGroup := g_isRadioGroup group;
                       g_value := groupValue |} in
      let st := with_groups (<[groupName := group']> (groups st)) st in
      (* Also store in inputValues so formulas can reference it *)
      let st := store_set groupName (VNum groupValue) st in
      (* Emit event *)
      emit groupName st
  end.

(** [EventBus.emit('value:changed', {cellId, value})] (lines 193-197):
    every subscriber is called in registration order.  A subscriber that
    updates a group emits again, from inside the call; [fuel] bounds the
    depth of that nesting, and [None] stands for a nesting deeper than
    [fuel]. *)
Fixpoint emit (fuel : nat) (changedCellId : string) (st : Calc) : option Calc :=
  match fuel with
  | O => None
  | S fuel' =>
      for_each
        (fun callback st =>
           match callback with
           | GroupMember cellId groupName =>
               if String.eqb cellId changedCellId
               then updateGroupValue (emit fuel') groupName st
               else Some st
           end)
        (events st) st
  end.

(** [InputManager.handleRadioChange] (lines 554-574). *)
Definition handleRadioChange (i : nat) (element : Element) (st : Calc) : Calc :=
  if negb (String.eqb (el_name element) "") then
    fold_left
      (fun st '(j, radio) =>
         if is_radio_named (el_name element) radio && negb (Nat.eqb j i) then
           match truthy_string (getCellId (calc_config st) radio) with
           | Some radioCellId => store_set radioCellId (VNum Num.zero) st
           | None => st
           end
         else st)
      (imap (fun j radio => (j, radio)) (container st)) st
  else st.

(** The listener [InputManager.attachListener] creates (lines 519-542)
    for element [i] and [cellId]. *)
Definition inputListener (fuel : nat) (i : nat) (cellId : string) (st : Calc)
    : option Calc :=
  match container st !! i with
  | None => Some st
  | Some element =>
      let elementType := getElementType element in
      (* Special handling for radio buttons *)
      let st :=
        if ElementType_eqb elementType ETradio && el_checked element
           && negb (String.eqb (el_name element) "")
        then handleRadioChange i element st else st in
      (* Get and store new value *)
      let newValue := getElementValue element in
      let st := store_set cellId (VNum newValue) st in
      (* Update UI and trigger calculation *)
      emit fuel cellId st
  end.

(** [element.dispatchEvent(new Event(type))]: the listener the input
    manager attached to the element, if it is for this type of event. *)
Definition dispatchEvent (fuel : nat) (type : DomEvent) (i : nat) (st : Calc)
    : option Calc :=
  match listeners st !! i with
  | Some (t, cellId) =>
      if DomEvent_eqb t type then inputListener fuel i cellId st else Some st
  | None => Some st
  end.

(** [InputManager.setValue] (lines 579-620). *)
Definition setValue (fuel : nat) (cellId : string) (value : value) (st : Calc)
    : option Calc :=
  (* Update internal value *)
  let st := store_set cellId value st in
  (* Update the UI element if found *)
  let updated :=
    match inputElements st !! cellId with
    | None => Some st
    | Some i =>
        match container st !! i with
        | None => Some st
        | Some element =>
            let c :=
              match getElementType element with
              | ETselect =>
                  (* For select, find and select matching option *)
                  match List.find (fun opt => strict_eq_num (parseNumeric (VStr opt)) value)
                                  (el_options element) with
                  | Some option => <[i := set_value option element]> (container st)
                  | None => container st
                  end
              | ETradio | ETcheckbox =>
                  (* For toggle elements, set checked property *)
                  let elementRawValue :=
                    if hasAttribute element "data-alphacalc-value"
                    then attribute element "data-alphacalc-value"
                    else el_value element in
                  let elementValue := parseNumeric (VStr elementRawValue) in
                  write_checked i
                    (Num.ltb (Num.abs (Num.sub elementValue (toNumber value)))
                             (Num.of_decimal false 1 (-3)))
                    (container st)
              | ETinput =>
                  (* Regular input *)
                  <[i := set_value (toDomString value) element]> (container st)
              end in
            (* Trigger change event *)
            dispatchEvent fuel EvChange i (with_container c st)
        end
    end in
  (* Emit event *)
  match updated with
  | Some st => emit fuel cellId st
  | None => None
  end.

(** [SetterManager.setGroupValue] (lines 1235-1275). *)
Definition setGroupValue (fuel : nat) (groupName : string) (setValue : string)
    (st : Calc) : option Calc :=
  match groups st !! groupName with
  | None => Some st
  | Some group =>
      (* Handle radio groups specially *)
      if g_isRadioGroup group then
        (* Find the radio with matching value *)
        let matches (j : nat) : bool :=
          match container st !! j with
          | None => false
          | Some element =>
              let elementValue :=
                if hasAttribute element "data-alphacalc-value"
                then attribute element "data-alphacalc-value"
                else el_value element in
              (* Match by value or numeric equivalent *)
              String.eqb elementValue setValue
              || Num.ltb (Num.abs (Num.sub (parseNumeric (VStr elementValue))
                                           (parseNumeric (VStr setValue))))
                         (Num.of_decimal false 1 (-3))
          end in
        match List.find matches (g_elements group) with
        | Some targetRadio =>
            (* Select this radio *)
            dispatchEvent fuel EvChange targetRadio
              (with_container (write_checked targetRadio true (container st)) st)
        | None => Some st
        end
      else
        (* Setting values for non-radio groups not fully implemented *)
        Some st
  end.

(** [SetterManager.setValue] (lines 1220-1230), what a click on a setter
    element does. *)
Definition SetterManager_setValue (fuel : nat) (targetId : string)
    (setValue' : string) (st : Calc) : option Calc :=
  (* Check if target is a group *)
  if bool_decide (is_Some (groups st !! targetId)) then
    setGroupValue fuel targetId setValue' st
  else
    (* Normal case: set cell value *)
    let numericValue := parseNumeric (VStr setValue') in
    setValue fuel targetId (VNum numericValue) st.

(** The formula of a formula input, as [AlphaCalc.calculate] finds it
    (lines 1723-1788); [None] where the source returns early. *)
Definition formulaOf (input : Element) : option string :=
  if hasAttribute input "data-alphacalc-formula" then
    Some (attribute input "data-alphacalc-formula")
  else if hasAttribute input "data-alphacalc-output"
          || hasAttribute input "data-alphacalc-from" then
    let attrName :=
      if hasAttribute input "data-alphacalc-output"
      then "data-alphacalc-output" else "data-alphacalc-from" in
    let attrValue := attribute input attrName in
    if String.eqb attrValue "" then None
    else if String.prefix "=" attrValue then
      Some (String.substring 1 (String.length attrValue - 1) attrValue)
    else if negb (String.eqb (keep_chars (fun c => mem_char c "+-*/()%") attrValue) "")
    then Some attrValue
    else None
  else None.

(** The body of the loop over [formulaInputs] in [AlphaCalc.calculate]
    (lines 1697-1828). *)
Definition calculateInput (fuel : nat) (i : nat) (st : Calc) : option Calc :=
  match container st !! i with
  | None => Some st
  | Some input =>
      match truthy_string (getCellId (calc_config st) input) with
      | None => Some st
      | Some cellId =>
          match formulaOf input with
          | None => Some st
          | Some formula =>
              (* If we found a formula, evaluate it *)
              if String.eqb formula "" then Some st
              else
                (* Get all current values *)
                let inputValues := inputValues st in
                (* Evaluate the formula *)
                let computedValue := evaluate (calc_config st) formula inputValues in
                (* Update the element value *)
                setValue fuel cellId (VNum computedValue) st
          end
      end
  end.

(** [AlphaCalc.calculate] (lines 1681-1851). *)
Definition calculate (fuel : nat) (st : Calc) : option Calc :=
  (* Process all formula inputs *)
  match for_each (calculateInput fuel) (formulaInputs st) st with
  | None => None
  | Some st =>
      (* Run any custom calculations *)
      Some (fold_left (fun st fn => with_inputValues (fn (inputValues st)) st)
                      (calculations st) st)
  end.

(** [InputManager.registerInput] (lines 292-340) for element [i]. *)
Definition registerInput (i : nat) (st : Calc) : Calc :=
  match container st !! i with
  | None => st
  | Some input =>
      match truthy_string (getCellId (calc_config st) input) with
      | None => st
      | Some cellId =>
          (* Store reference to element *)
          let st := with_inputElements (<[cellId := i]> (inputElements st)) st in
          (* Get element type and initial value *)
          let elementType := getElementType input in
          let value := getElementValue input in
          (* Store the value *)
          let st := store_set cellId (VNum value) st in
          (* For text/number inputs with data-alphacalc-value, update the
             visible value *)
          let st :=
            if ElementType_eqb elementType ETinput
               && hasAttribute input "data-alphacalc-value"
               && (String.eqb (el_type input) "text"
                   || String.eqb (el_type input) "number")
            then with_container
                   (<[i := set_initialized true
                             (set_value (numberToString value) input)]>
                      (container st)) st
            else st in
          (* Check if this is a formula input *)
          if hasAttribute input "data-alphacalc-formula" then
            with_formulaInputs (formulaInputs st ++ [i]) st
          else
            (* Add event listener for value changes *)
            let eventType :=
              match elementType with
              | ETselect | ETradio | ETcheckbox => EvChange
              | ETinput => EvInput
              end in
            with_listeners (<[i := (eventType, cellId)]> (listeners st)) st
      end
  end.

(** The indices of the elements of the container that [p] accepts, in
    document order: [container.querySelectorAll]. *)
Definition querySelectorAll (p : Element -> bool) (st : Calc) : list nat :=
  omap (fun '(j, el) => if p el then Some j else None)
       (imap (fun j el => (j, el)) (container st)).

(** [InputManager.init] (lines 276-287). *)
Definition InputManager_init (st : Calc) : Calc :=
  let inputs :=
    querySelectorAll
      (fun el => hasAttribute el "data-alphacalc-input"
                 && negb (bool_decide (getAttribute el "type" = Some "submit")))
      st in
  fold_left (fun st input => registerInput input st) inputs st.

(** [GroupManager.createGroup] (lines 994-1035). *)
Definition createGroup (fuel : nat) (groupName : string) (elements : list nat)
    (st : Calc) : option Calc :=
  let els := omap (fun i => container st !! i) elements in
  (* Check if it's a radio-only group *)
  let allRadios :=
    forallb (fun el => ElementType_eqb (getElementType el) ETradio) els in
  let sameName :=
    allRadios
    && forallb (fun el => String.eqb (el_name el)
                                     (default "" (el_name <$> head els))) els in
  let isRadioGroup := allRadios && sameName in
  (* Create group object *)
  let st :=
    with_groups
      (<[groupName := {| g_name := groupName; g_elements := elements;
                         g_isRadioGroup := isRadioGroup;
                         g_value := Num.zero |}]> (groups st)) st in
  (* Calculate initial value *)
  match updateGroupValue (emit fuel) groupName st with
  | None => None
  | Some st =>
      (* Listen for value changes in group members *)
      Some (fold_left
              (fun st el =>
                 with_events
                   (events st
                    ++ [GroupMember (default "" (getCellId (calc_config st) el))
                                    groupName]) st)
              els st)
  end.

(** Adds [i] to the members listed under [groupName], keeping the order
    in which group names were first seen. *)
Fixpoint groupMap_add (groupName : string) (i : nat)
    (groupMap : list (string * list nat)) : list (string * list nat) :=
  match groupMap with
  | [] => [(groupName, [i])]
  | (g, members) :: rest =>
      if String.eqb g groupName then (g, members ++ [i]) :: rest
      else (g, members) :: groupMap_add groupName i rest
  end.

(** [GroupManager.init] (lines 952-989). *)
Definition GroupManager_init (fuel : nat) (st : Calc) : option Calc :=
  (* Find all elements with group attribute *)
  let groupElements :=
    querySelectorAll (fun el => hasAttribute el "data-alphacalc-group") st in
  (* Process elements by group *)
  let groupMap :=
    fold_left
      (fun groupMap i =>
         match container st !! i with
         | None => groupMap
         | Some element =>
             match truthy_string (getAttribute element "data-alphacalc-group"),
                   truthy_string (getCellId (calc_config st) element) with
             | Some groupName, Some _ => groupMap_add groupName i groupMap
             | _, _ => groupMap
             end
         end)
      groupElements [] in
  (* Create group objects *)
  for_each (fun '(groupName, elements) st => createGroup fuel groupName elements st)
           groupMap st.

(** [new AlphaCalc(container, options)] as far as the modelled managers
    go (lines 1554-1665): the managers are initialized and the first
    calculation runs. *)
Definition AlphaCalc_new (fuel : nat) (config : Config) (elements : list Element)
    : option Calc :=
  let st := blank config elements in
  match GroupManager_init fuel (InputManager_init st) with
  | None => None
  | Some st => calculate fuel st
  end.

(** The user ticks the checkbox or radio button [i]: the browser checks
    it and fires [change]. *)
Definition userTicks (fuel : nat) (i : nat) (st : Calc) : option Calc :=
  dispatchEvent fuel EvChange i
    (with_container (write_checked i true (container st)) st).

(** The user types [text] into the input [i]: the browser sets its value
    and fires [input]. *)
Definition userTypes (fuel : nat) (i : nat) (text : string) (st : Calc)
    : option Calc :=
  match container st !! i with
  | None => Some st
  | Some el =>
      dispatchEvent fuel EvInput i
        (with_container (<[i := set_value text el]> (container st)) st)
  end.

(** [AlphaCalc.addCalculation] (lines 2030-2036). *)
Definition addCalculation (fn : gmap string value -> gmap string value)
    (st : Calc) : Calc :=
  with_calculations (calculations st ++ [fn]) st.

(** [AlphaCalc.setValue] (lines 2071-2074). *)
Definition AlphaCalc_setValue (fuel : nat) (cellId : string) (value : value)
    (st : Calc) : option Calc :=
  setValue fuel cellId value st.
End Managers.

(** [AlphaCalc.getValue] (lines 2079-2081):
    [this.inputManager.inputValues.get(cellId) || 0]. *)
Definition getValue (st : Calc) (cellId : string) : value :=
  match inputValues st !! cellId with
  | Some v => if toBoolean v then v else VNum Num.zero
  | None => VNum Num.zero
  end.


(* ===================================================================== *)
(** * A host for arithmetic formulas *)
(* ===================================================================== *)

(** An instance of [Host] to run examples with.  It runs function bodies
    of the form [return e;] where [e] is built from identifiers, decimal
    literals, the unary and binary [+] and [-], [*], [/] and parentheses,
    with the usual precedences; that is the fragment the formulas of the
    examples are written in.  Any other text ([%], [**], [++], comments,
    the comma operator, calls, member access, reserved words) is answered
    with [Throw], also where the language gives it a value; the general
    theorems therefore quantify over every host and never rely on this
    one. *)
Module ArithHost.

Inductive token : Type :=
  | TNum (x : num)
  | TId (s : string)
  | TSym (c : ascii).

Inductive expr : Type :=
  | ENum (x : num)
  | EId (s : string)
  | ENeg (e : expr)
  | EPos (e : expr)
  | EBin (op : ascii) (a b : expr).

Definition is_id_start (c : ascii) : bool :=
  (is_word c && negb (is_digit c)) || (code c =? 36).

Definition is_id_part (c : ascii) : bool := is_word c || (code c =? 36).

Fixpoint read_ident (s : string) : string * string :=
  match s with
  | String c s' =>
      if is_id_part c
      then let '(id, r) := read_ident s' in (String c id, r)
      else (EmptyString, s)
  | EmptyString => (EmptyString, s)
  end.

(** Words that cannot name a variable or a parameter. *)
Definition reserved : list string :=
  ["break"; "case"; "catch"; "class"; "const"; "continue"; "debugger";
   "default"; "delete"; "do"; "else"; "enum"; "export"; "extends";
   "false"; "finally"; "for"; "function"; "if"; "import"; "in";
   "instanceof"; "new"; "null"; "return"; "super"; "switch"; "this";
   "throw"; "true"; "try"; "typeof"; "var"; "void"; "while"; "with";
   "let"; "static"; "yield"; "await"; "implements"; "interface";
   "package"; "private"; "protected"; "public"].

Definition is_reserved (s : string) : bool := existsb (String.eqb s) reserved.

(** An identifier that can be a parameter of the function. *)
Definition valid_identifier (s : string) : bool :=
  match s with
  | String c _ =>
      is_id_start c
      && String.eqb (keep_chars is_id_part s) s
      && negb (is_reserved s)
  | EmptyString => false
  end.

Definition valid_parameters (context : gmap string value) : bool :=
  forallb (fun kv => valid_identifier kv.1) (map_to_list context).

Definition starts_number (s : string) : bool :=
  match s with
  | String c (String d _) => is_digit c || (Ascii.eqb c "." && is_digit d)
  | String c EmptyString => is_digit c
  | EmptyString => false
  end.

(** [++], [--], [**], [//] and [/*] are tokens of their own (increment,
    decrement, exponentiation, comments), outside the fragment. *)
Definition starts_compound (s : string) : bool :=
  match s with
  | String c (String d _) =>
      (mem_char c "+-*/" && Ascii.eqb c d) || (Ascii.eqb c "/" && Ascii.eqb d "*")
  | _ => false
  end.

(** A literal with a leading zero before another digit is an octal
    literal or an error; it is not read. *)
Definition leading_zero (s : string) : bool :=
  match s with
  | String c (String d _) => Ascii.eqb c "0" && is_digit d
  | _ => false
  end.

Fixpoint lex (fuel : nat) (s : string) : option (list token) :=
  match fuel with
  | O => None
  | S fuel' =>
      match s with
      | EmptyString => Some []
      | String c s' =>
          if is_space c then lex fuel' s'
          else if starts_compound s then None
          else if starts_number s then
            if leading_zero s then None
            else
              match read_decimal s with
              | Some (m, k, r) =>
                  cons (TNum (Num.of_decimal false m k)) <$> lex fuel' r
              | None => None
              end
          else if is_id_start c then
            let '(id, r) := read_ident s in
            if is_reserved id then None
            else cons (TId id) <$> lex fuel' r
          else cons (TSym c) <$> lex fuel' s'
      end
  end.

Inductive level : Type := Sum | Product | Unary.

Definition binary_at (l : level) (c : ascii) : bool :=
  match l with
  | Sum => mem_char c "+-"
  | Product => mem_char c "*/"
  | Unary => false
  end.

Definition tighter (l : level) : level :=
  match l with Sum => Product | _ => Unary end.

(** Recursive descent; [parse_at] reads one operand at a level,
    [parse_tail] the operators and operands that follow it. *)
Fixpoint parse_at (fuel : nat) (l : level) (ts : list token)
    : option (expr * list token) :=
  match fuel with
  | O => None
  | S fuel' =>
      match l with
      | Sum | Product =>
          match parse_at fuel' (tighter l) ts with
          | Some (e, r) => parse_tail fuel' l e r
          | None => None
          end
      | Unary =>
          match ts with
          | TNum x :: r => Some (ENum x, r)
          | TId s :: r => Some (EId s, r)
          | TSym c :: r =>
              if Ascii.eqb c "-" then
                match parse_at fuel' Unary r with
                | Some (e, r') => Some (ENeg e, r')
                | None => None
                end
              else if Ascii.eqb c "+" then
                match parse_at fuel' Unary r with
                | Some (e, r') => Some (EPos e, r')
                | None => None
                end
              else if Ascii.eqb c "(" then
                match parse_at fuel' Sum r with
                | Some (e, TSym d :: r') =>
                    if Ascii.eqb d ")" then Some (e, r') else None
                | _ => None
                end
              else None
          | [] => None
          end
      end
  end
with parse_tail (fuel : nat) (l : level) (lhs : expr) (ts : list token)
    : option (expr * list token) :=
  match fuel with
  | O => None
  | S fuel' =>
      match ts with
      | TSym c :: r =>
          if binary_at l c then
            match parse_at fuel' (tighter l) r with
            | Some (rhs, r') => parse_tail fuel' l (EBin c lhs rhs) r'
            | None => None
            end
          else Some (lhs, ts)
      | _ => Some (lhs, ts)
      end
  end.

(** A line terminator between [return] and the expression, or no
    expression at all, makes the body [return;]. *)
Fixpoint returns_nothing (s : string) : bool :=
  match s with
  | String c s' =>
      if (code c =? 10) || (code c =? 13) then true
      else if is_space c then returns_nothing s'
      else Ascii.eqb c ";"
  | EmptyString => true
  end.

(** The expression of a body [return e;], if it is in the fragment. *)
Definition parse_body (body : string) : option expr :=
  if String.prefix "return " body then
    let rest := String.substring 7 (String.length body - 7) body in
    if returns_nothing rest then None
    else
      match lex (S (String.length rest)) rest with
      | Some ts =>
          match parse_at (4 * List.length ts + 4) Sum ts with
          | Some (e, [TSym c]) => if Ascii.eqb c ";" then Some e else None
          | _ => None
          end
      | None => None
      end
  else None.

(** ** Printing and reading numbers *)

Definition digits_of (n : Z) : string :=
  DecimalString.NilZero.string_of_uint (N.to_uint (Z.to_N n)).

Fixpoint zeros (n : nat) : string :=
  match n with O => EmptyString | S n' => String "0" (zeros n') end.

(** For a positive rational [a/b]: the least [n] with [a/b < 10^n]. *)
Fixpoint decimal_exponent (fuel : nat) (a b : Z) (n : Z) : Z :=
  match fuel with
  | O => n
  | S fuel' =>
      if 10 ^ (Z.max 0 n) * b <=? a * 10 ^ (Z.max 0 (- n))
      then decimal_exponent fuel' a b (n + 1)
      else n
  end.

(** The [k]-digit decimals next to [a/b * 10^(k-n)], the nearer first. *)
Definition candidates (a b n k : Z) : list Z :=
  let p := k - n in
  let a' := a * 10 ^ (Z.max 0 p) in
  let b' := b * 10 ^ (Z.max 0 (- p)) in
  let lo := a' / b' in
  if 2 * (a' - lo * b') <=? b' then [lo; lo + 1] else [lo + 1; lo].

(** The fewest digits [c] (there are [k] of them) that read back as
    [x], with the position [n] of the decimal point; rounding up to
    [10^k] is one digit at the next position. *)
Fixpoint shortest (fuel : nat) (x : num) (a b n k : Z) : Z * Z * Z :=
  match fuel with
  | O => (a * 10 ^ (Z.max 0 (17 - n)) / (b * 10 ^ (Z.max 0 (n - 17))), 17, n)
  | S fuel' =>
      match List.find (fun c => Num.eqb (Num.of_decimal false c (n - k)) x
                                && (10 ^ (k - 1) <=? c) && (c <=? 10 ^ k))
                      (candidates a b n k) with
      | Some c => if c =? 10 ^ k then (10 ^ (k - 1), k, n + 1) else (c, k, n)
      | None => shortest fuel' x a b n (k + 1)
      end
  end.

(** [Number::toString] in radix 10. *)
Definition numberToString (x : num) : string :=
  match x with
  | S754_nan => "NaN"
  | S754_zero _ => "0"
  | S754_infinity s => if s then "-Infinity" else "Infinity"
  | S754_finite s m e =>
      let a := if 0 <=? e then Zpos m * 2 ^ e else Zpos m in
      let b := if 0 <=? e then 1 else 2 ^ (- e) in
      let n0 := (Z.log2 a - Z.log2 b - 1) * 30103 / 100000 - 1 in
      let '(c, k, n) :=
        shortest 17 (S754_finite false m e) a b (decimal_exponent 8 a b n0) 1 in
      let ds := digits_of c in
      let body :=
        if (k <=? n) && (n <=? 21) then ds +:+ zeros (Z.to_nat (n - k))
        else if (0 <? n) && (n <=? 21) then
          String.substring 0 (Z.to_nat n) ds +:+ "." +:+
          String.substring (Z.to_nat n) (Z.to_nat (k - n)) ds
        else if (-6 <? n) && (n <=? 0) then
          "0." +:+ zeros (Z.to_nat (- n)) +:+ ds
        else
          let ex := (if 0 <=? n - 1 then "+" else "-") +:+ digits_of (Z.abs (n - 1)) in
          if k =? 1 then ds +:+ "e" +:+ ex
          else String.substring 0 1 ds +:+ "." +:+
               String.substring 1 (Z.to_nat (k - 1)) ds +:+ "e" +:+ ex
      in
      if s then "-" +:+ body else body
  end.

(** [StringToNumber] for decimal literals and [Infinity]; the whole
    string, white space apart, has to be the literal.  Hexadecimal,
    octal and binary literals are answered with [NaN]. *)
Definition stringToNumber (s : string) : num :=
  let s0 := skip_spaces s in
  if String.eqb s0 "" then Num.zero
  else
    let '(neg, s1) :=
      match s0 with
      | String "-" t => (true, t)
      | String "+" t => (false, t)
      | _ => (false, s0)
      end in
    if String.prefix "Infinity" s1 then
      if String.eqb (skip_spaces (String.substring 8 (String.length s1 - 8) s1)) ""
      then S754_infinity neg else Num.NaN
    else
      match read_decimal s1 with
      | Some (m, k, r) =>
          if String.eqb (skip_spaces r) "" then Num.of_decimal neg m k else Num.NaN
      | None => Num.NaN
      end.

Definition toNumber (v : value) : num :=
  match v with
  | VUndefined => Num.NaN
  | VNull => Num.zero
  | VBool b => if b then Num.one else Num.zero
  | VNum x => x
  | VStr s => stringToNumber s
  end.

Definition toString (v : value) : string :=
  match v with
  | VUndefined => "undefined"
  | VNull => "null"
  | VBool b => if b then "true" else "false"
  | VNum x => numberToString x
  | VStr s => s
  end.

Definition is_string (v : value) : bool :=
  match v with VStr _ => true | _ => false end.

(** ** Evaluation *)

Fixpoint eval (context : gmap string value) (e : expr) : completion value :=
  match e with
  | ENum x => Return (VNum x)
  | EId s =>
      match context !! s with
      | Some v => Return v
      | None =>
          if String.eqb s "Infinity" then Return (VNum Num.Infinity)
          else if String.eqb s "NaN" then Return (VNum Num.NaN)
          else if String.eqb s "undefined" then Return VUndefined
          else Throw
      end
  | ENeg a =>
      match eval context a with
      | Return v => Return (VNum (Num.neg (toNumber v)))
      | Throw => Throw
      end
  | EPos a =>
      match eval context a with
      | Return v => Return (VNum (toNumber v))
      | Throw => Throw
      end
  | EBin op a b =>
      match eval context a, eval context b with
      | Return va, Return vb =>
          if Ascii.eqb op "+" then
            if is_string va || is_string vb
            then Return (VStr (toString va +:+ toString vb))
            else Return (VNum (Num.add (toNumber va) (toNumber vb)))
          else if Ascii.eqb op "-" then
            Return (VNum (Num.sub (toNumber va) (toNumber vb)))
          else if Ascii.eqb op "*" then
            Return (VNum (Num.mul (toNumber va) (toNumber vb)))
          else if Ascii.eqb op "/" then
            Return (VNum (Num.div (toNumber va) (toNumber vb)))
          else Throw
      | _, _ => Throw
      end
  end.

(** Every identifier of [e] is bound to a number in [context]. *)
Fixpoint numeric_identifiers (context : gmap string value) (e : expr) : bool :=
  match e with
  | ENum _ => true
  | EId s => match context !! s with Some (VNum _) => true | _ => false end
  | ENeg a | EPos a => numeric_identifiers context a
  | EBin _ a b => numeric_identifiers context a && numeric_identifiers context b
  end.

Definition runFunction (context : gmap string value) (body : string)
    : completion value :=
  if valid_parameters context then
    match parse_body body with
    | Some e => eval context e
    | None =>
        if String.prefix "return" body
           && returns_nothing (String.substring 6 (String.length body - 6) body)
        then Return VUndefined
        else Throw
    end
  else Throw.

End ArithHost.

Definition arith_host : Host := {|
  runFunction := ArithHost.runFunction;
  numberToString := ArithHost.numberToString;
  stringToNumber := ArithHost.stringToNumber;
|}.

(** A host that runs the arithmetic fragment as the language defines it:
    a body [return e;] of the fragment, in a context whose keys can be
    parameters and that binds the identifiers of [e] to numbers, returns
    the value of [e] in binary64 arithmetic. *)
Definition Arithmetic (H : Host) : Prop :=
  forall (context : gmap string value) (body : string) (e : ArithHost.expr),
    ArithHost.parse_body body = Some e ->
    ArithHost.valid_parameters context = true ->
    ArithHost.numeric_identifiers context e = true ->
    runFunction context body = ArithHost.eval context e.

(* ===================================================================== *)
(** * Pages used in the examples *)
(* ===================================================================== *)

Module Page.

(** [<input type="number" data-alphacalc-input=id value=value ...>] *)
Definition number_input (id value : string) (more : list (string * string))
    : Element :=
  {| el_tagName := "input";
     el_attributes :=
       [("data-alphacalc-input", id); ("type", "number"); ("value", value)]
       ++ more;
     el_type := "number"; el_value := value; el_checked := false;
     el_initialized := false; el_options := [] |}.

(** [<input type="number" data-alphacalc-input=id
            data-alphacalc-formula=formula>] *)
Definition formula_input (id formula : string) : Element :=
  {| el_tagName := "input";
     el_attributes :=
       [("data-alphacalc-input", id); ("type", "number");
        ("data-alphacalc-formula", formula)];
     el_type := "number"; el_value := ""; el_checked := false;
     el_initialized := false; el_options := [] |}.

(** [<input type="checkbox" data-alphacalc-input=id
            data-alphacalc-group=group data-alphacalc-value=value>],
    checked or not. *)
Definition checkbox (id group value : string) (checked : bool) : Element :=
  {| el_tagName := "input";
     el_attributes :=
       [("data-alphacalc-input", id); ("data-alphacalc-group", group);
        ("type", "checkbox"); ("data-alphacalc-value", value)];
     el_type := "checkbox"; el_value := "on"; el_checked := checked;
     el_initialized := false; el_options := [] |}.

(** A quantity between 0 and 10. *)
Definition bounded_quantity : list Element :=
  [number_input "qty" "5" [("data-alphacalc-min", "0"); ("data-alphacalc-max", "10")]].

(** An input [x] and the formula cells [F1 = x+1] and [F2 = F1*2], in
    this order. *)
Definition chained (x : string) : list Element :=
  [number_input "x" x []; formula_input "F1" "x+1"; formula_input "F2" "F1*2"].



(** Two extras worth 5 and 10 in an additive group, the first one
    ticked. *)
Definition extras : list Element :=
  [checkbox "gift" "extras" "5" true; checkbox "express" "extras" "10" false].

End Page.

(* ===================================================================== *)
(** * Vocabulary of the statements *)
(* ===================================================================== *)

(** The text [FormulaEngine.evaluate] hands to [new Function]. *)
Definition functionBody (formula : string) : string :=
  "return " +:+ keep_chars formula_char formula +:+ ";".

(** The context [{a, b}]. *)
Definition context_ab (a b : num) : gmap string value :=
  <["a" := VNum a]> (<["b" := VNum b]> ∅).

(** What a formula cell receives when its expression has the value [y]:
    [y] rounded to the configured precision, or 0 when [y] is not finite
    or the precision is out of range. *)
Definition formulaResult (config : Config) (y : num) : num :=
  if Num.isFinite y then default Num.zero (roundToPrecision (decimal_input config) y)
  else Num.zero.

(** No member of a group has a group's name as its cell id: updating a
    group does not set off another update. *)
Definition flat_groups (st : Calc) : Prop :=
  forall cellId groupName,
    GroupMember cellId groupName ∈ events st -> groups st !! cellId = None.



(** The calculator of a page once constructed, with the default
    configuration and the arithmetic host. *)
Definition started (elements : list Element) : Calc :=
  default (blank DEFAULT_CONFIG elements)
          (@AlphaCalc_new arith_host 2 DEFAULT_CONFIG elements).

(** The states of the page [Page.chained]: [x] holds the number [xv], the
    two formula cells hold [old1] and [old2], and the three elements show
    [s0], [s1] and [s2]. *)
Definition chainedState (config : Config) (xv : num) (old1 old2 : value)
    (s0 s1 s2 : string) : Calc :=
  {| calc_config := config;
     container := [set_value s0 (Page.number_input "x" "3" []);
                   set_value s1 (Page.formula_input "F1" "x+1");
                   set_value s2 (Page.formula_input "F2" "F1*2")];
     inputValues := <["x" := VNum xv]> (<["F1" := old1]> (<["F2" := old2]> ∅));
     inputElements := <["x" := 0%nat]> (<["F1" := 1%nat]> (<["F2" := 2%nat]> ∅));
     formulaInputs := [1%nat; 2%nat];
     listeners := <[0%nat := (EvInput, "x")]> ∅;
     groups := ∅; events := []; calculations := [] |}.

(** The cell id and the formula [calculate] finds for the formula input
    [i], when it evaluates one. *)
Definition formulaCell (st : Calc) (i : nat) : option (string * string) :=
  match container st !! i with
  | None => None
  | Some input =>
      match truthy_string (getCellId (calc_config st) input), formulaOf input with
      | Some cellId, Some formula =>
          if String.eqb formula "" then None else Some (cellId, formula)
      | _, _ => None
      end
  end.






(* ===================================================================== *)
(** * Invariants and auxiliary notions of the proofs *)
(* ===================================================================== *)

(** What an update of groups may change: the values of the groups, and the
    store under the names of groups. *)
Record group_step (st st' : Calc) : Prop := {
  gs_config : calc_config st' = calc_config st;
  gs_container : container st' = container st;
  gs_inputElements : inputElements st' = inputElements st;
  gs_formulaInputs : formulaInputs st' = formulaInputs st;
  gs_listeners : listeners st' = listeners st;
  gs_events : events st' = events st;
  gs_calculations : calculations st' = calculations st;
  gs_groups : forall k, groups st' !! k = None <-> groups st !! k = None;
  gs_values : forall k, groups st !! k = None ->
                        inputValues st' !! k = inputValues st !! k;
}.

(** The state [updateGroupValue] emits from. *)
Definition groupUpdated (groupName : string) (group : Group) (st : Calc) : Calc :=
  store_set groupName (VNum (computeGroupValue st group))
    (with_groups
       (<[groupName := {| g_name := g_name group; g_elements := g_elements group;
                          g_isRadioGroup := g_isRadioGroup group;
                          g_value := computeGroupValue st group |}]> (groups st))
       st).





(* ===================================================================== *)
(** * The rest of the library: listeners, groups, setters, life cycle and
      the event bus *)
(* ===================================================================== *)

(** [a <= b] on numbers; false when either is [NaN]. *)
Definition num_leb (a b : num) : bool := SFleb a b.

(** A number that is not [NaN] as a triple of integers whose
    lexicographic order is the order of the numbers. *)
Definition key (x : num) : Z * Z * Z :=
  match x with
  | S754_zero _ => (0, 0, 0)
  | S754_infinity s => if s then (-2, 0, 0) else (2, 0, 0)
  | S754_nan => (0, 0, 0)
  | S754_finite s m e => if s then (-1, - e, - Zpos m) else (1, e, Zpos m)
  end.

(** The lexicographic comparison of two triples. *)
Definition key_compare (a b : Z * Z * Z) : comparison :=
  match a.1.1 ?= b.1.1 with
  | Eq => match a.1.2 ?= b.1.2 with
          | Eq => a.2 ?= b.2
          | c => c
          end
  | c => c
  end.

(** The bound a [data-alphacalc-min] or [data-alphacalc-max] attribute
    gives: the number it parses as, when it parses as one. *)
Definition bound (element : Element) (name : string) : option num :=
  match getAttribute element name with
  | Some s => if Num.isNaN (parseFloat s) then None else Some (parseFloat s)
  | None => None
  end.

(** The characters [Util.parseNumeric] keeps of a string. *)
Definition numeric_char (c : ascii) : bool := is_digit c || mem_char c ".-".

(** What the library never changes of an element: its tag, its
    attributes, its type and its options. *)
Definition shape (element : Element)
    : string * list (string * string) * string * list string :=
  (el_tagName element, el_attributes element, el_type element, el_options element).

(** What handling an event may change: the values in the store, the
    values of the groups, and the value, the checked state and the
    initialization mark of elements. *)
Record event_step (st st' : Calc) : Prop := {
  es_config : calc_config st' = calc_config st;
  es_shape : shape <$> container st' = shape <$> container st;
  es_inputElements : inputElements st' = inputElements st;
  es_formulaInputs : formulaInputs st' = formulaInputs st;
  es_listeners : listeners st' = listeners st;
  es_events : events st' = events st;
  es_calculations : calculations st' = calculations st;
  es_groups : forall k, groups st' !! k = None <-> groups st !! k = None;
}.

(** The elements [p] accepts among [c], numbered from [k]. *)
Definition selected (p : Element -> bool) (k : nat) (c : list Element) : list nat :=
  omap (fun '(j, el) => if p el then Some j else None)
       (imap (fun j el => ((k + j)%nat, el)) c).

(** The selector of the input manager,
    [[data-alphacalc-input]:not([type="submit"])]. *)
Definition inputSelector (el : Element) : bool :=
  hasAttribute el "data-alphacalc-input"
  && negb (bool_decide (getAttribute el "type" = Some "submit")).

(** The cell id under which [registerInput] registers an element. *)
Definition cellOf (config : Config) (element : Element) : option string :=
  truthy_string (getCellId config element).

(** The type of event the input manager listens to on an element. *)
Definition eventTypeOf (element : Element) : DomEvent :=
  match getElementType element with
  | ETselect | ETradio | ETcheckbox => EvChange
  | ETinput => EvInput
  end.

(** The listener [registerInput] attaches to an element, if it attaches
    one. *)
Definition listenerOf (config : Config) (element : Element)
    : option (DomEvent * string) :=
  match cellOf config element with
  | Some cellId =>
      if hasAttribute element "data-alphacalc-formula" then None
      else Some (eventTypeOf element, cellId)
  | None => None
  end.

(** Whether [registerInput] lists an element among the formula inputs. *)
Definition formulaRegistered (config : Config) (element : Element) : bool :=
  bool_decide (is_Some (cellOf config element))
  && hasAttribute element "data-alphacalc-formula".

(** What [registerInput] writes to the element itself. *)
Definition registeredElement `{Host} (input : Element) : Element :=
  if ElementType_eqb (getElementType input) ETinput
     && hasAttribute input "data-alphacalc-value"
     && (String.eqb (el_type input) "text" || String.eqb (el_type input) "number")
  then set_initialized true (set_value (numberToString (getElementValue input)) input)
  else input.

(** Pages with radio buttons and with a group that names itself. *)
Module Forms.

(** [<input type="radio" name=name data-alphacalc-input=id
            data-alphacalc-group=group value=value>], checked or not. *)
Definition radio (id name group value : string) (checked : bool) : Element :=
  {| el_tagName := "input";
     el_attributes :=
       [("data-alphacalc-input", id); ("data-alphacalc-group", group);
        ("type", "radio"); ("name", name); ("value", value)];
     el_type := "radio"; el_value := value; el_checked := checked;
     el_initialized := false; el_options := [] |}.

(** Two ways of shipping, the standard one chosen. *)
Definition shipping : list Element :=
  [radio "standard" "ship" "shipping" "5" true;
   radio "express" "ship" "shipping" "9" false].

(** A checkbox whose cell id is the name of its own group. *)
Definition self_group : list Element :=
  [Page.checkbox "total" "total" "5" true].

End Forms.

(** [GroupManager.getGroupValue] (lines 1105-1109). *)
Definition getGroupValue (st : Calc) (groupName : string) : num :=
  match groups st !! groupName with
  | Some group => g_value group
  | None => Num.zero
  end.

(** [GroupManager.getGroupElements] (lines 1114-1118). *)
Definition getGroupElements (st : Calc) (groupName : string) : list nat :=
  match groups st !! groupName with
  | Some group => g_elements group
  | None => []
  end.

(** [GroupManager.getGroupActiveElements] (lines 1123-1135). *)
Definition getGroupActiveElements (st : Calc) (groupName : string) : list nat :=
  match groups st !! groupName with
  | None => []
  | Some group =>
      List.filter
        (fun i =>
           match container st !! i with
           | Some element =>
               let elementType := getElementType element in
               if is_toggle elementType then el_checked element else true
           | None => false
           end)
        (g_elements group)
  end.

(** [GroupManager.isRadioGroup] (lines 1140-1144). *)
Definition isRadioGroup (st : Calc) (groupName : string) : bool :=
  match groups st !! groupName with
  | Some group => g_isRadioGroup group
  | None => false
  end.

(** The test [SetterManager.setGroupValue] applies to the members of a
    radio group (lines 1241-1257): the member's value is the setter's
    value, as a string or within 0.001 as a number. *)
Definition setterMatches (st : Calc) (setValue : string) (j : nat) : bool :=
  match container st !! j with
  | None => false
  | Some element =>
      let elementValue :=
        if hasAttribute element "data-alphacalc-value"
        then attribute element "data-alphacalc-value"
        else el_value element in
      String.eqb elementValue setValue
      || Num.ltb (Num.abs (Num.sub (parseNumeric (VStr elementValue))
                                   (parseNumeric (VStr setValue))))
                 (Num.of_decimal false 1 (-3))
  end.

(** The group an element asks to join and its cell id, as
    [GroupManager.init] reads them (lines 963-981); [None] for an element
    the loop skips. *)
Definition membership (config : Config) (element : Element)
    : option (string * string) :=
  match truthy_string (getAttribute element "data-alphacalc-group"),
        truthy_string (getCellId config element) with
  | Some groupName, Some cellId => Some (groupName, cellId)
  | _, _ => None
  end.

(** Whether an element joins the group [groupName]. *)
Definition joins (config : Config) (groupName : string) (element : Element) : bool :=
  match membership config element with
  | Some (g, _) => String.eqb g groupName
  | None => false
  end.

(** The members of [groupName] on a page, in document order. *)
Definition membersOf (config : Config) (groupName : string)
    (elements : list Element) : list nat :=
  selected (joins config groupName) 0 elements.

(** The cell ids of the members of groups, and the names of groups, on a
    page. *)
Definition memberId (config : Config) (elements : list Element) (c : string) : Prop :=
  exists el g, el ∈ elements /\ membership config el = Some (g, c).

Definition groupNameOf (config : Config) (elements : list Element) (g : string)
    : Prop :=
  exists el c, el ∈ elements /\ membership config el = Some (g, c).

(** No member of a group has the name of a group as its cell id. *)
Definition flat_page (config : Config) (elements : list Element) : Prop :=
  forall k, memberId config elements k -> ~ groupNameOf config elements k.

(** The subscribers and the groups of a calculator are those of the
    page. *)
Definition tame (config : Config) (elements : list Element) (st : Calc) : Prop :=
  (forall c g, GroupMember c g ∈ events st -> memberId config elements c)
  /\ (forall k, is_Some (groups st !! k) -> groupNameOf config elements k).

(** The table [GroupManager.init] builds (lines 961-981): the members per
    group, the groups in the order in which their first member appears. *)
Definition groupMapOf (config : Config) (elements : list Element)
    : list (string * list nat) :=
  fold_left
    (fun groupMap i =>
       match elements !! i with
       | None => groupMap
       | Some element =>
           match truthy_string (getAttribute element "data-alphacalc-group"),
                 truthy_string (getCellId config element) with
           | Some groupName, Some _ => groupMap_add groupName i groupMap
           | _, _ => groupMap
           end
       end)
    (selected (fun el => hasAttribute el "data-alphacalc-group") 0 elements) [].

(** The subscribers [createGroup] registers for a group (lines
    1019-1030). *)
Definition subscribersOf (config : Config) (elements : list Element)
    (groupName : string) (members : list nat) : list Subscriber :=
  map (fun el => GroupMember (default "" (getCellId config el)) groupName)
      (omap (fun i => elements !! i) members).

(** The kind [createGroup] gives a group (lines 996-1005). *)
Definition radioOnly (elements : list Element) (members : list nat) : bool :=
  let els := omap (fun i => elements !! i) members in
  let allRadios :=
    forallb (fun el => ElementType_eqb (getElementType el) ETradio) els in
  let sameName :=
    allRadios
    && forallb (fun el => String.eqb (el_name el)
                                     (default "" (el_name <$> head els))) els in
  allRadios && sameName.

(** [AlphaCalc.initialize] (lines 1647-1665), as far as the modelled
    managers go. *)
Definition initialize `{Host} (fuel : nat) (st : Calc) : option Calc :=
  (* Initialize all managers *)
  match GroupManager_init fuel (InputManager_init st) with
  | None => None
  | Some st =>
      (* Initial calculation *)
      calculate fuel st
  end.

(** [InputManager.destroy] (lines 625-636). *)
Definition InputManager_destroy (st : Calc) : Calc :=
  let st := with_listeners ∅ st in
  let st := with_inputValues ∅ st in
  let st := with_inputElements ∅ st in
  with_formulaInputs [] st.

(** [AlphaCalc.destroy] (lines 2052-2066); the group manager and the
    event bus have nothing that is cleaned up. *)
Definition AlphaCalc_destroy (st : Calc) : Calc :=
  (* Clean up all managers *)
  let st := InputManager_destroy st in
  (* Clear calculations *)
  with_calculations [] st.

(** [AlphaCalc.reinit] (lines 2041-2047). *)
Definition reinit `{Host} (fuel : nat) (st : Calc) : option Calc :=
  initialize fuel (AlphaCalc_destroy st).

(** The event bus as the class is written (lines 170-198), for any
    callbacks.  A callback is compared by identity, as [cb !== callback]
    does. *)
Module Bus.
Section EventBus.
Context {C : Type} `{EqDecision C}.

(** [new EventBus()]: [this.events], the callbacks registered per event
    in the order of registration, is empty. *)
Definition empty : gmap string (list C) := ∅.

(** [this.events] is a plain object: under a name it inherits from
    [Object.prototype] it holds a value that is not empty and is not an
    array, so [push], [filter] and [forEach] on it raise a [TypeError]. *)
Definition inherited (event : string) : bool :=
  existsb (String.eqb event)
    ["constructor"; "__defineGetter__"; "__defineSetter__"; "hasOwnProperty";
     "__lookupGetter__"; "__lookupSetter__"; "isPrototypeOf";
     "propertyIsEnumerable"; "toString"; "valueOf"; "__proto__";
     "toLocaleString"].

(** [on(event, callback)]. *)
Definition on (event : string) (callback : C) (bus : gmap string (list C))
    : completion (gmap string (list C)) :=
  if inherited event then Throw
  else
    let callbacks := default [] (bus !! event) in
    Return (<[event := callbacks ++ [callback]]> bus).

(** [off(event, callback)]; [callback] is [None] when it is left out. *)
Definition off (event : string) (callback : option C) (bus : gmap string (list C))
    : completion (gmap string (list C)) :=
  if inherited event then
    match callback with
    | None => Return bus
    | Some _ => Throw
    end
  else
    match bus !! event with
    | None => Return bus
    | Some callbacks =>
        match callback with
        | None => Return (delete event bus)
        | Some callback =>
            Return (<[event := List.filter
                                 (fun cb => negb (bool_decide (cb = callback)))
                                 callbacks]> bus)
        end
    end.

(** [emit(event, data)]: the callbacks it calls with [data], in the order
    of the calls. *)
Definition emit (event : string) (bus : gmap string (list C)) : completion (list C) :=
  if inherited event then Throw
  else
    match bus !! event with
    | None => Return []
    | Some callbacks => Return callbacks
    end.

End EventBus.
End Bus.

(* ===================================================================== *)
(** * Rounding to binary64 does not overflow below [2^1023] *)
(* ===================================================================== *)

Section RoundingBounds.
Import Num.













End RoundingBounds.

(* ===================================================================== *)
(** * The formula evaluator *)
(* ===================================================================== *)




Lemma arith_host_Arithmetic : Arithmetic arith_host.
Proof.
  intros context body e Hparse Hvalid Hnum. cbn.
  unfold ArithHost.runFunction. rewrite Hvalid, Hparse. reflexivity.
Qed.


(** C1, amended.  With a precision between 0 and 100 and finite [a] and
    [b] whose sum is finite, evaluating ["a+b"] in the context [{a, b}]
    returns the sum rounded to the configured precision, which is 4
    decimal places by default. *)
Theorem evaluate_sum (H : Host) (config : Config) (a b : num) :
  Arithmetic H ->
  0 <= decimal_input config <= 100 ->
  Num.isFinite a = true -> Num.isFinite b = true ->
  Num.isFinite (Num.add a b) = true ->
  roundToPrecision (decimal_input config) (Num.add a b)
  = Some (evaluate config "a+b" (context_ab a b))
  /\ decimal_input DEFAULT_CONFIG = 4.
Proof.
  intros HA Hd _ _ Hsum. split; [|reflexivity]. unfold evaluate.
  change (keep_chars formula_char "a+b") with "a+b".
  change ("return " +:+ "a+b" +:+ ";") with "return a+b;".
  rewrite (HA (context_ab a b) "return a+b;"
              (ArithHost.EBin "+" (ArithHost.EId "a") (ArithHost.EId "b")));
    [| reflexivity | reflexivity | reflexivity].
  change (ArithHost.eval _ _) with (Return (VNum (Num.add a b))).
  cbv beta iota. change (isFinite (VNum (Num.add a b))) with (Num.isFinite (Num.add a b)).
  rewrite Hsum. cbn [negb]. unfold roundToPrecision.
  destruct (toFixed (Num.add a b) (decimal_input config)) as [| s] eqn:Hfix; [|reflexivity].
  unfold toFixed in Hfix.
  replace ((decimal_input config <? 0) || (100 <? decimal_input config)) with false in Hfix
    by (symmetry; apply orb_false_iff; split; [apply Z.ltb_ge | apply Z.ltb_ge]; lia).
  destruct (Num.add a b) as [| | | s m e]; try discriminate.
  destruct (at_least_1e21 m e); discriminate.
Qed.

Lemma evaluate_sum_witness :
  let a := Num.of_decimal false 15 (-1) in
  let b := Num.of_decimal false 225 (-2) in
  Arithmetic arith_host
  /\ 0 <= decimal_input DEFAULT_CONFIG <= 100
  /\ Num.isFinite (Num.add a b) = true
  /\ roundToPrecision (decimal_input DEFAULT_CONFIG) (Num.add a b)
     = Some (@evaluate arith_host DEFAULT_CONFIG "a+b" (context_ab a b)).
Proof.
  intros a b. split; [exact arith_host_Arithmetic|]. split; [cbn; lia|].
  split; [reflexivity|].
  apply (evaluate_sum arith_host DEFAULT_CONFIG a b arith_host_Arithmetic);
    [cbn; lia | reflexivity | reflexivity | reflexivity].
Defined.

(** C1 as stated fails where the sum overflows: both operands are
    [Number.MAX_VALUE], the sum is [Infinity] and the evaluator answers 0. *)
Lemma evaluate_sum_overflow :
  Num.isFinite Num.MAX_VALUE = true
  /\ @evaluate arith_host DEFAULT_CONFIG "a+b"
       (context_ab Num.MAX_VALUE Num.MAX_VALUE) = Num.zero
  /\ roundToPrecision (decimal_input DEFAULT_CONFIG)
       (Num.add Num.MAX_VALUE Num.MAX_VALUE) = Some Num.Infinity
  /\ roundToPrecision (decimal_input DEFAULT_CONFIG)
       (Num.add Num.MAX_VALUE Num.MAX_VALUE)
     <> Some (@evaluate arith_host DEFAULT_CONFIG "a+b"
                (context_ab Num.MAX_VALUE Num.MAX_VALUE)).
Proof. repeat split; try reflexivity. vm_compute. discriminate. Qed.

(* ===================================================================== *)
(** * Reading the store *)
(* ===================================================================== *)

Lemma toBoolean_false_iff (v : value) :
  toBoolean v = false <->
  v = VUndefined \/ v = VNull \/ v = VBool false \/ v = VNum Num.NaN
  \/ (exists s, v = VNum (S754_zero s)) \/ v = VStr "".
Proof.
  split.
  - destruct v as [| | [] | [s | s | | s m e] | s]; cbn; try discriminate; eauto 10.
    destruct (String.eqb_spec s ""); [subst; eauto 10 | discriminate].
  - intros [-> | [-> | [-> | [-> | [[s ->] | ->]]]]]; reflexivity.
Qed.

(** C10, amended.  [getValue] never returns [NaN]; it returns 0 when the
    id is absent and when the stored value is falsy, that is [NaN],
    [undefined], [null], [false], the empty string, [+0] or [-0]; it
    returns the stored value otherwise. *)
Theorem getValue_or_zero (st : Calc) (cellId : string) :
  getValue st cellId <> VNum Num.NaN
  /\ (inputValues st !! cellId = None -> getValue st cellId = VNum Num.zero)
  /\ (forall v, inputValues st !! cellId = Some v ->
        (v = VUndefined \/ v = VNull \/ v = VBool false \/ v = VNum Num.NaN
         \/ (exists s, v = VNum (S754_zero s)) \/ v = VStr "") ->
        getValue st cellId = VNum Num.zero)
  /\ (forall v, inputValues st !! cellId = Some v ->
        ~ (v = VUndefined \/ v = VNull \/ v = VBool false \/ v = VNum Num.NaN
           \/ (exists s, v = VNum (S754_zero s)) \/ v = VStr "") ->
        getValue st cellId = v).
Proof.
  unfold getValue. repeat split.
  - destruct (inputValues st !! cellId) as [v|]; [|discriminate].
    destruct (toBoolean v) eqn:Hb; [|discriminate].
    intros ->. discriminate.
  - intros ->. reflexivity.
  - intros v -> Hv. apply toBoolean_false_iff in Hv. rewrite Hv. reflexivity.
  - intros v -> Hv. rewrite <- toBoolean_false_iff in Hv.
    destruct (toBoolean v); [reflexivity | done].
Qed.

(* ===================================================================== *)
(** * The event bus and the groups *)
(* ===================================================================== *)

Lemma for_each_invariant {A S : Type} (I : S -> Prop) (f : A -> S -> option S)
    (l : list A) (s : S) :
  (forall a s, a ∈ l -> I s -> exists s', f a s = Some s' /\ I s') ->
  I s -> exists s', for_each f l s = Some s' /\ I s'.
Proof.
  revert s. induction l as [| a l IH]; intros s Hstep Hs; cbn.
  - eauto.
  - destruct (Hstep a s) as (s1 & -> & Hs1); [left | done |].
    apply IH; [|done]. intros b s2 Hb. apply Hstep. by right.
Qed.

Lemma for_each_unchanged {A S : Type} (f : A -> S -> option S) (l : list A) (s : S) :
  (forall a, a ∈ l -> f a s = Some s) -> for_each f l s = Some s.
Proof.
  intros Hl.
  destruct (for_each_invariant (fun s' => s' = s) f l s) as (s' & Hs' & ->); [|done|done].
  intros a s1 Ha ->. eauto.
Qed.

Lemma emit_S (fuel : nat) (cellId : string) (st : Calc) :
  emit (S fuel) cellId st
  = for_each
      (fun callback st =>
         match callback with
         | GroupMember c groupName =>
             if String.eqb c cellId
             then updateGroupValue (emit fuel) groupName st
             else Some st
         end)
      (events st) st.
Proof. reflexivity. Qed.

(** Emitting for an id no subscriber listens to changes nothing. *)
Lemma emit_no_subscriber (fuel : nat) (cellId : string) (st : Calc) :
  (forall groupName, GroupMember cellId groupName ∉ events st) ->
  emit (S fuel) cellId st = Some st.
Proof.
  intros Hno. rewrite emit_S. apply for_each_unchanged.
  intros [c g] Hin. destruct (String.eqb_spec c cellId) as [-> | _]; [|done].
  by destruct (Hno g).
Qed.

Lemma group_step_refl (st : Calc) : group_step st st.
Proof. by split. Qed.

Lemma group_step_trans (st1 st2 st3 : Calc) :
  group_step st1 st2 -> group_step st2 st3 -> group_step st1 st3.
Proof.
  intros [] []. split; try congruence.
  - intros k. etrans; eauto.
  - intros k Hk. etrans; [apply gs_values1; by apply gs_groups0 | by apply gs_values0].
Qed.

Lemma flat_groups_step (st st' : Calc) :
  group_step st st' -> flat_groups st -> flat_groups st'.
Proof.
  intros Hs Hflat c g Hin. rewrite (gs_events _ _ Hs) in Hin.
  apply (gs_groups _ _ Hs). by eapply Hflat.
Qed.

Lemma groupUpdated_step (groupName : string) (group : Group) (st : Calc) :
  groups st !! groupName = Some group ->
  group_step st (groupUpdated groupName group st).
Proof.
  intros Hg. split; try reflexivity.
  - intros k. cbn. destruct (decide (groupName = k)) as [<- | Hne].
    + rewrite lookup_insert_eq, Hg. done.
    + by rewrite lookup_insert_ne.
  - intros k Hk. cbn. rewrite lookup_insert_ne; [done|]. congruence.
Qed.

(** With flat groups an update of a group is over after one step. *)
Lemma updateGroupValue_flat (fuel : nat) (groupName : string) (group : Group)
    (st : Calc) :
  flat_groups st -> groups st !! groupName = Some group ->
  updateGroupValue (emit (S fuel)) groupName st
  = Some (groupUpdated groupName group st).
Proof.
  intros Hflat Hg. unfold updateGroupValue. rewrite Hg.
  fold (groupUpdated groupName group st).
  apply emit_no_subscriber. intros g Hin.
  pose proof (flat_groups_step _ _ (groupUpdated_step _ _ _ Hg) Hflat _ _ Hin) as Hnone.
  cbn in Hnone. rewrite lookup_insert_eq in Hnone. discriminate.
Qed.

(** With flat groups every emission returns, and it is a [group_step]. *)
Lemma emit_flat (fuel : nat) (cellId : string) (st : Calc) :
  flat_groups st ->
  exists st', emit (S (S fuel)) cellId st = Some st' /\ group_step st st'.
Proof.
  intros Hflat. rewrite emit_S.
  apply (for_each_invariant (group_step st)); [|apply group_step_refl].
  intros [c g] s _ Hs. destruct (String.eqb c cellId); [|eauto].
  destruct (groups s !! g) as [group|] eqn:Hg.
  - rewrite (updateGroupValue_flat fuel g group s); [|by eapply flat_groups_step|done].
    eexists. split; [done|]. eapply group_step_trans; [done|]. by apply groupUpdated_step.
  - unfold updateGroupValue. rewrite Hg. eauto.
Qed.



Lemma flat_groups_extras : flat_groups (started Page.extras).
Proof.
  intros c g Hin. vm_compute in Hin.
  apply elem_of_cons in Hin as [[= -> ->] | Hin]; [reflexivity|].
  apply elem_of_cons in Hin as [[= -> ->] | Hin]; [reflexivity|].
  by apply elem_of_nil in Hin.
Qed.


(* ===================================================================== *)
(** * Setting a value *)
(* ===================================================================== *)

(** What [setValue] leaves in the store when nothing reacts to the change
    event it dispatches: the value as supplied, under the id supplied. *)
Lemma setValue_stores (H : Host) (fuel : nat) (cellId : string) (v : value)
    (st : Calc) :
  flat_groups st ->
  groups st !! cellId = None ->
  (forall i c, inputElements st !! cellId = Some i ->
               listeners st !! i <> Some (EvChange, c)) ->
  exists st',
    setValue (S (S fuel)) cellId v st = Some st'
    /\ inputValues st' !! cellId = Some v
    /\ (forall k, k <> cellId -> groups st !! k = None ->
                  inputValues st' !! k = inputValues st !! k).
Proof.
  intros Hflat Hgroup Hlisten. unfold setValue.
  set (st1 := store_set cellId v st).
  match goal with |- context [match ?u with Some _ => _ | None => None end] =>
    assert (Hupd : exists st2, u = Some st2 /\ events st2 = events st
                               /\ groups st2 = groups st
                               /\ inputValues st2 = inputValues st1)
  end.
  { change (inputElements st1) with (inputElements st).
    destruct (inputElements st !! cellId) as [i|] eqn:Hi; [|by exists st1].
    destruct (container st1 !! i) as [element|]; [|by exists st1].
    unfold dispatchEvent. cbn [listeners with_container].
    change (listeners st1) with (listeners st).
    destruct (listeners st !! i) as [[t c]|] eqn:Hl.
    - destruct t; cbn [DomEvent_eqb]; [eauto | by destruct (Hlisten i c)].
    - eauto. }
  destruct Hupd as (st2 & -> & Hev & Hgr & Hval).
  assert (Hflat2 : flat_groups st2).
  { intros c g. rewrite Hev, Hgr. apply Hflat. }
  destruct (emit_flat fuel cellId st2 Hflat2) as (st' & -> & Hstep).
  exists st'. split; [done|]. split.
  - rewrite (gs_values _ _ Hstep) by (by rewrite Hgr).
    rewrite Hval. cbn. apply lookup_insert_eq.
  - intros k Hk Hgk.
    rewrite (gs_values _ _ Hstep) by (by rewrite Hgr).
    rewrite Hval. cbn. by apply lookup_insert_ne.
Qed.


Lemma flat_groups_no_events (st : Calc) : events st = [] -> flat_groups st.
Proof. intros He c g Hin. rewrite He in Hin. by apply elem_of_nil in Hin. Qed.



(** C10 as stated fails for a stored value that is falsy but neither [NaN]
    nor [undefined]: after [setValue("x", "")] the stored value is the
    empty string and [getValue] returns 0. *)
Lemma getValue_empty_string :
  exists st,
    @AlphaCalc_setValue arith_host 2 "x" (VStr "") (started []) = Some st
    /\ inputValues st !! "x" = Some (VStr "")
    /\ getValue st "x" = VNum Num.zero
    /\ getValue st "x" <> VStr "".
Proof. eexists. repeat split; try reflexivity. vm_compute. discriminate. Qed.

Lemma getValue_or_zero_witness :
  getValue (started (Page.chained "3")) "F1" = VNum (Num.of_Z 4)
  /\ getValue (started (Page.chained "3")) "nowhere" = VNum Num.zero.
Proof.
  destruct (getValue_or_zero (started (Page.chained "3")) "F1") as (_ & _ & _ & Hkeep).
  destruct (getValue_or_zero (started (Page.chained "3")) "nowhere") as (_ & Habsent & _).
  split.
  - apply Hkeep; [reflexivity|].
    intros [Hv | [Hv | [Hv | [Hv | [[s Hv] | Hv]]]]]; vm_compute in Hv; discriminate.
  - apply Habsent. reflexivity.
Defined.

(** C3, the failing input.  On the page [Page.bounded_quantity] the input
    [qty] has the constraints min 0 and max 10.  [setValue("qty", 50)]
    leaves 50 in the store, where clamping gives 10 and where typing 50
    into the input stores 10. *)
Theorem setValue_does_not_clamp :
  (fun st' => getValue st' "qty")
    <$> @AlphaCalc_setValue arith_host 2 "qty" (VNum (Num.of_Z 50))
          (started Page.bounded_quantity)
  = Some (VNum (Num.of_Z 50))
  /\ clampValue (Num.of_Z 50) <$> (Page.bounded_quantity !! 0%nat)
     = Some (Num.of_Z 10)
  /\ (fun st' => getValue st' "qty")
       <$> userTypes 2 0 "50" (started Page.bounded_quantity)
     = Some (VNum (Num.of_Z 10)).
Proof. repeat split; reflexivity. Qed.

(** C5, the failing input.  On the page [Page.extras] the aggregate of the
    group [extras] is 5.  [setValue("extras", 99)] leaves 99 in the store
    under the group's name while the members still aggregate to 5 and the
    group itself still holds 5; a setter element aimed at the group leaves
    5 in the store. *)
Theorem setValue_overwrites_aggregate :
  (fun st' => (getValue st' "extras",
               computeGroupValue st' <$> groups st' !! "extras",
               g_value <$> groups st' !! "extras"))
    <$> @AlphaCalc_setValue arith_host 2 "extras" (VNum (Num.of_Z 99))
          (started Page.extras)
  = Some (VNum (Num.of_Z 99), Some (Num.of_Z 5), Some (Num.of_Z 5))
  /\ (fun st' => getValue st' "extras")
       <$> @SetterManager_setValue arith_host 2 "extras" "99" (started Page.extras)
     = Some (VNum (Num.of_Z 5)).
Proof. split; reflexivity. Qed.

(** C6, the failing input.  [setValue("qty", NaN)] leaves [NaN] in the
    store, [setValue("qty", Infinity)] leaves [Infinity] and
    [setValue("qty", undefined)] leaves [undefined]; a setter element with
    the value ["NaN"] stores 0. *)
Theorem setValue_stores_non_finite :
  (fun st' => inputValues st' !! "qty")
    <$> @AlphaCalc_setValue arith_host 2 "qty" (VNum Num.NaN)
          (started Page.bounded_quantity)
  = Some (Some (VNum Num.NaN))
  /\ (fun st' => inputValues st' !! "qty")
       <$> @AlphaCalc_setValue arith_host 2 "qty" (VNum Num.Infinity)
             (started Page.bounded_quantity)
     = Some (Some (VNum Num.Infinity))
  /\ (fun st' => inputValues st' !! "qty")
       <$> @AlphaCalc_setValue arith_host 2 "qty" VUndefined
             (started Page.bounded_quantity)
     = Some (Some VUndefined)
  /\ (fun st' => inputValues st' !! "qty")
       <$> @SetterManager_setValue arith_host 2 "qty" "NaN"
             (started Page.bounded_quantity)
     = Some (Some (VNum Num.zero)).
Proof. repeat split; reflexivity. Qed.

(* ===================================================================== *)
(** * The recompute pass *)
(* ===================================================================== *)

(** On the arithmetic fragment the evaluator returns the value of the
    expression, rounded, or 0 when it is not finite. *)
Lemma evaluate_arithmetic (H : Host) (config : Config) (formula : string)
    (context : gmap string value) (e : ArithHost.expr) (y : num) :
  Arithmetic H ->
  ArithHost.parse_body (functionBody formula) = Some e ->
  ArithHost.valid_parameters context = true ->
  ArithHost.numeric_identifiers context e = true ->
  ArithHost.eval context e = Return (VNum y) ->
  evaluate config formula context = formulaResult config y.
Proof.
  intros HA Hparse Hvalid Hnum Heval. unfold evaluate.
  fold (functionBody formula).
  rewrite (HA context (functionBody formula) e Hparse Hvalid Hnum), Heval.
  cbv beta iota. change (isFinite (VNum y)) with (Num.isFinite y).
  unfold formulaResult, roundToPrecision.
  destruct (Num.isFinite y); cbn [negb]; [|reflexivity].
  destruct (toFixed y (decimal_input config)); reflexivity.
Qed.

Lemma setValue_chained_F1 (H : Host) (config : Config) (fuel : nat) (xv : num)
    (old1 old2 : value) (s0 s1 s2 : string) (v : num) :
  setValue (S fuel) "F1" (VNum v) (chainedState config xv old1 old2 s0 s1 s2)
  = Some (chainedState config xv (VNum v) old2 s0 (numberToString v) s2).
Proof. reflexivity. Qed.

Lemma setValue_chained_F2 (H : Host) (config : Config) (fuel : nat) (xv : num)
    (old1 old2 : value) (s0 s1 s2 : string) (v : num) :
  setValue (S fuel) "F2" (VNum v) (chainedState config xv old1 old2 s0 s1 s2)
  = Some (chainedState config xv old1 (VNum v) s0 s1 (numberToString v)).
Proof. reflexivity. Qed.

Lemma calculateInput_chained_F1 (H : Host) (config : Config) (fuel : nat)
    (xv : num) (old1 old2 : value) (s0 s1 s2 : string) :
  Arithmetic H ->
  let v1 := formulaResult config (Num.add xv (Num.of_Z 1)) in
  calculateInput (S fuel) 1 (chainedState config xv old1 old2 s0 s1 s2)
  = Some (chainedState config xv (VNum v1) old2 s0 (numberToString v1) s2).
Proof.
  intros HA v1. unfold calculateInput.
  cbn [container chainedState lookup list_lookup].
  change (truthy_string _) with (Some "F1").
  change (formulaOf _) with (Some "x+1").
  cbv beta iota. change ("x+1" =? "")%string with false. cbv iota.
  rewrite (evaluate_arithmetic H _ "x+1" _
             (ArithHost.EBin "+" (ArithHost.EId "x")
                             (ArithHost.ENum (Num.of_Z 1)))
             (Num.add xv (Num.of_Z 1)) HA);
    [apply setValue_chained_F1 | reflexivity ..].
Qed.

Lemma calculateInput_chained_F2 (H : Host) (config : Config) (fuel : nat)
    (xv v1 : num) (old2 : value) (s0 s1 s2 : string) :
  Arithmetic H ->
  let v2 := formulaResult config (Num.mul v1 (Num.of_Z 2)) in
  calculateInput (S fuel) 2 (chainedState config xv (VNum v1) old2 s0 s1 s2)
  = Some (chainedState config xv (VNum v1) (VNum v2) s0 s1 (numberToString v2)).
Proof.
  intros HA v2. unfold calculateInput.
  cbn [container chainedState lookup list_lookup].
  change (truthy_string _) with (Some "F2").
  change (formulaOf _) with (Some "F1*2").
  cbv beta iota. change ("F1*2" =? "")%string with false. cbv iota.
  rewrite (evaluate_arithmetic H _ "F1*2" _
             (ArithHost.EBin "*" (ArithHost.EId "F1")
                             (ArithHost.ENum (Num.of_Z 2)))
             (Num.mul v1 (Num.of_Z 2)) HA);
    [apply setValue_chained_F2 | reflexivity ..].
Qed.

(** C8.  On the page with the input [x] and the formula cells [F1 = x+1]
    and [F2 = F1*2], registered in this order, one pass first evaluates
    [F1] from the current [x] and writes it to the store, then evaluates
    [F2] from the value of [F1] just written, whatever the two cells held
    before. *)
Theorem calculate_in_registration_order (H : Host) (config : Config) (fuel : nat)
    (xv : num) (old1 old2 : value) (s0 s1 s2 : string) :
  Arithmetic H ->
  let st := chainedState config xv old1 old2 s0 s1 s2 in
  let v1 := formulaResult config (Num.add xv (Num.of_Z 1)) in
  let v2 := formulaResult config (Num.mul v1 (Num.of_Z 2)) in
  let st1 := chainedState config xv (VNum v1) old2 s0 (numberToString v1) s2 in
  let st2 := chainedState config xv (VNum v1) (VNum v2) s0 (numberToString v1)
                          (numberToString v2) in
  formulaInputs st = [1; 2]%nat
  /\ calculateInput (S fuel) 1 st = Some st1
  /\ calculateInput (S fuel) 2 st1 = Some st2
  /\ calculate (S fuel) st = Some st2
  /\ inputValues st2 !! "F1" = Some (VNum v1)
  /\ inputValues st2 !! "F2" = Some (VNum v2).
Proof.
  intros HA st v1 v2 st1 st2.
  assert (H1 : calculateInput (S fuel) 1 st = Some st1)
    by (by apply calculateInput_chained_F1).
  assert (H2 : calculateInput (S fuel) 2 st1 = Some st2)
    by (by apply calculateInput_chained_F2).
  split; [reflexivity|]. split; [exact H1|]. split; [exact H2|].
  split; [|split].
  - unfold calculate. change (formulaInputs st) with [1; 2]%nat.
    cbn [for_each]. rewrite H1, H2. reflexivity.
  - reflexivity.
  - reflexivity.
Qed.

Lemma calculate_in_registration_order_witness :
  Arithmetic arith_host
  /\ started (Page.chained "3")
     = chainedState DEFAULT_CONFIG (Num.of_Z 3) (VNum (Num.of_Z 4))
                    (VNum (Num.of_Z 8)) "3" "4" "8"
  /\ @calculate arith_host 1
       (chainedState DEFAULT_CONFIG (Num.of_Z 3) (VNum (Num.of_Z 0))
                     (VNum (Num.of_Z 0)) "3" "" "")
     = Some (chainedState DEFAULT_CONFIG (Num.of_Z 3) (VNum (Num.of_Z 4))
                          (VNum (Num.of_Z 8)) "3" "4" "8").
Proof.
  split; [exact arith_host_Arithmetic|]. split; [reflexivity|].
  exact (proj1 (proj2 (proj2 (proj2
           (calculate_in_registration_order arith_host DEFAULT_CONFIG 0
              (Num.of_Z 3) (VNum (Num.of_Z 0)) (VNum (Num.of_Z 0)) "3" "" ""
              arith_host_Arithmetic))))).
Defined.


(* ===================================================================== *)
(** * Two passes in a row *)
(* ===================================================================== *)

Lemma getCellId_attributes (config : Config) (e e' : Element) :
  el_attributes e = el_attributes e' -> getCellId config e = getCellId config e'.
Proof.
  intros Ha. unfold getCellId, hasAttribute, attribute, getAttribute.
  by rewrite Ha.
Qed.


Lemma calculateInput_formulaCell (H : Host) (fuel : nat) (i : nat) (s : Calc) :
  calculateInput fuel i s
  = match formulaCell s i with
    | Some (cellId, formula) =>
        setValue fuel cellId
          (VNum (evaluate (calc_config s) formula (inputValues s))) s
    | None => Some s
    end.
Proof.
  unfold calculateInput, formulaCell.
  destruct (container s !! i) as [input|]; [|reflexivity].
  destruct (truthy_string _) as [cellId|]; [|reflexivity].
  destruct (formulaOf input) as [formula|]; [|reflexivity].
  destruct (String.eqb formula ""); reflexivity.
Qed.


















(* ===================================================================== *)
(** * Order on numbers *)
(* ===================================================================== *)

Lemma SFcompare_antisym (x y : num) :
  SFcompare y x = CompOpp <$> SFcompare x y.
Proof.
  destruct x as [sx | sx | | sx mx ex], y as [sy | sy | | sy my ey]; cbn;
    try reflexivity;
    try (destruct sx; reflexivity); try (destruct sy; reflexivity);
    try (destruct sx, sy; reflexivity).
  destruct sx, sy; cbn; try reflexivity.
  - rewrite (Z.compare_antisym ey ex).
    destruct (ey ?= ex); cbn; try reflexivity.
    change (Pos.compare_cont Eq my mx) with (Pos.compare my mx).
    change (Pos.compare_cont Eq mx my) with (Pos.compare mx my).
    rewrite (Pos.compare_antisym mx my). by destruct (mx ?= my)%positive.
  - rewrite (Z.compare_antisym ey ex).
    destruct (ey ?= ex); cbn; try reflexivity.
    change (Pos.compare_cont Eq my mx) with (Pos.compare my mx).
    change (Pos.compare_cont Eq mx my) with (Pos.compare mx my).
    rewrite (Pos.compare_antisym mx my). by destruct (mx ?= my)%positive.
Qed.

Lemma SFcompare_refl (x : num) : Num.isNaN x = false -> SFcompare x x = Some Eq.
Proof.
  destruct x as [s | s | | s m e]; cbn; try done.
  - by destruct s.
  - intros _. rewrite Z.compare_refl.
    change (Pos.compare_cont Eq m m) with (Pos.compare m m).
    rewrite Pos.compare_refl. by destruct s.
Qed.

Lemma SFcompare_total (x y : num) :
  Num.isNaN x = false -> Num.isNaN y = false -> is_Some (SFcompare x y).
Proof. destruct x, y; cbn; try done; eauto. Qed.

Lemma SFcompare_zero_r (x : num) (s s' : bool) :
  SFcompare x (S754_zero s) = SFcompare x (S754_zero s').
Proof. by destruct x. Qed.

Lemma SFcompare_zero_l (x : num) (s s' : bool) :
  SFcompare (S754_zero s) x = SFcompare (S754_zero s') x.
Proof. by destruct x. Qed.

Lemma SFcompare_key (x y : num) :
  Num.isNaN x = false -> Num.isNaN y = false ->
  SFcompare x y = Some (key_compare (key x) (key y)).
Proof.
  destruct x as [sx | sx | | sx mx ex], y as [sy | sy | | sy my ey]; cbn; try done;
    intros _ _; try (by destruct sx); try (by destruct sy); try (by destruct sx, sy).
  destruct sx, sy; cbn; try reflexivity; unfold key_compare; cbn.
  - rewrite (Z.compare_opp ex ey), (Z.compare_opp (Zpos mx) (Zpos my)).
    rewrite (Z.compare_antisym ex ey).
    destruct (ex ?= ey) eqn:He; cbn; try reflexivity.
    change (Pos.compare_cont Eq mx my) with (Pos.compare mx my).
    rewrite (Pos.compare_antisym mx my). reflexivity.
Qed.

Lemma key_compare_le_trans (a b c : Z * Z * Z) :
  key_compare a b <> Gt -> key_compare b c <> Gt -> key_compare a c <> Gt.
Proof.
  destruct a as [[a1 a2] a3], b as [[b1 b2] b3], c as [[c1 c2] c3].
  unfold key_compare; cbn.
  destruct (Z.compare_spec a1 b1), (Z.compare_spec b1 c1), (Z.compare_spec a1 c1);
    try lia; try done;
  destruct (Z.compare_spec a2 b2), (Z.compare_spec b2 c2), (Z.compare_spec a2 c2);
    try lia; try done;
  destruct (Z.compare_spec a3 b3), (Z.compare_spec b3 c3), (Z.compare_spec a3 c3);
    try lia; try done.
Qed.

Lemma num_leb_key (x y : num) :
  Num.isNaN x = false -> Num.isNaN y = false ->
  num_leb x y = true <-> key_compare (key x) (key y) <> Gt.
Proof.
  intros Hx Hy. unfold num_leb, SFleb. rewrite (SFcompare_key x y Hx Hy).
  destruct (key_compare (key x) (key y)); split; done.
Qed.

Lemma num_leb_trans (x y z : num) :
  Num.isNaN y = false ->
  num_leb x y = true -> num_leb y z = true -> num_leb x z = true.
Proof.
  intros Hy Hxy Hyz.
  assert (Hx : Num.isNaN x = false)
    by (unfold num_leb, SFleb in Hxy; destruct x; done).
  assert (Hz : Num.isNaN z = false)
    by (unfold num_leb, SFleb in Hyz; destruct z; try done; destruct y; done).
  apply num_leb_key; [done | done |].
  apply (key_compare_le_trans _ (key y));
    [apply (proj1 (num_leb_key x y Hx Hy) Hxy) | apply (proj1 (num_leb_key y z Hy Hz) Hyz)].
Qed.

Lemma num_leb_refl (x : num) : Num.isNaN x = false -> num_leb x x = true.
Proof. intros Hx. unfold num_leb, SFleb. by rewrite SFcompare_refl. Qed.

Lemma num_leb_total (x y : num) :
  Num.isNaN x = false -> Num.isNaN y = false ->
  num_leb x y = false -> num_leb y x = true.
Proof.
  intros Hx Hy. unfold num_leb, SFleb. rewrite (SFcompare_antisym x y).
  destruct (SFcompare_total x y Hx Hy) as [c ->]. by destruct c.
Qed.

Lemma max_cases (a b : num) :
  Num.isNaN a = false -> Num.isNaN b = false ->
  Num.isNaN (Num.max a b) = false
  /\ num_leb a (Num.max a b) = true /\ num_leb b (Num.max a b) = true.
Proof.
  intros Ha Hb. unfold Num.max, num_leb, SFleb.
  pose proof (SFcompare_antisym a b) as Hanti.
  destruct (SFcompare_total a b Ha Hb) as [c Hc]. rewrite Hc in *.
  destruct c; cbn in Hanti.
  - destruct a as [sa | | |], b as [sb | | |];
      rewrite ?Hc, ?Hanti, ?SFcompare_refl; try done.
  - rewrite Hc, SFcompare_refl; done.
  - rewrite Hanti, SFcompare_refl; done.
Qed.

Lemma min_cases (a b : num) :
  Num.isNaN a = false -> Num.isNaN b = false ->
  Num.isNaN (Num.min a b) = false
  /\ num_leb (Num.min a b) a = true /\ num_leb (Num.min a b) b = true
  /\ (forall c, num_leb c a = true -> num_leb c b = true ->
                num_leb c (Num.min a b) = true)
  /\ (num_leb a b = false -> Num.min a b = b).
Proof.
  intros Ha Hb. unfold Num.min, num_leb, SFleb.
  pose proof (SFcompare_antisym a b) as Hanti.
  destruct (SFcompare_total a b Ha Hb) as [c Hc]. rewrite Hc in *.
  destruct c; cbn in Hanti.
  - destruct a as [sa | | |], b as [sb | | |];
      rewrite ?Hc, ?Hanti, ?SFcompare_refl; try done.
  - rewrite Hc, SFcompare_refl; done.
  - rewrite Hanti, SFcompare_refl; done.
Qed.

Lemma clampValue_bound (value : num) (element : Element) :
  clampValue value element
  = let result :=
      match bound element "data-alphacalc-min" with
      | Some lo => Num.max value lo
      | None => value
      end in
    match bound element "data-alphacalc-max" with
    | Some hi => Num.min result hi
    | None => result
    end.
Proof.
  unfold clampValue, bound, hasAttribute, attribute.
  destruct (getAttribute element "data-alphacalc-min") as [smin|]; cbn;
    destruct (getAttribute element "data-alphacalc-max") as [smax|]; cbn;
    repeat match goal with |- context [Num.isNaN ?x] => destruct (Num.isNaN x) end;
    reflexivity.
Qed.

Lemma bound_not_NaN (element : Element) (name : string) (b : num) :
  bound element name = Some b -> Num.isNaN b = false.
Proof.
  unfold bound. destruct (getAttribute element name) as [s|]; [|done].
  destruct (Num.isNaN (parseFloat s)) eqn:Hn; [done|]. by intros [= <-].
Qed.

Lemma clampValue_not_NaN (value : num) (element : Element) :
  Num.isNaN value = false -> Num.isNaN (clampValue value element) = false.
Proof.
  intros Hv. rewrite clampValue_bound. cbv zeta.
  destruct (bound element "data-alphacalc-min") as [lo|] eqn:Hlo;
    destruct (bound element "data-alphacalc-max") as [hi|] eqn:Hhi;
    try pose proof (bound_not_NaN _ _ _ Hlo) as Hl;
    try pose proof (bound_not_NaN _ _ _ Hhi) as Hh.
  - apply min_cases; [|done]. by apply max_cases.
  - by apply max_cases.
  - by apply min_cases.
  - done.
Qed.

(** [clampValue] applied to a number keeps it a number, not above the
    maximum, not below the minimum when the minimum is not above the
    maximum, and at the maximum when the minimum is above it; without
    bounds the value is returned as it is. *)
Theorem clampValue_within (value : num) (element : Element) :
  Num.isNaN value = false ->
  Num.isNaN (clampValue value element) = false
  /\ (forall hi, bound element "data-alphacalc-max" = Some hi ->
        num_leb (clampValue value element) hi = true)
  /\ (forall lo, bound element "data-alphacalc-min" = Some lo ->
        (forall hi, bound element "data-alphacalc-max" = Some hi ->
                    num_leb lo hi = true) ->
        num_leb lo (clampValue value element) = true)
  /\ (forall lo hi,
        bound element "data-alphacalc-min" = Some lo ->
        bound element "data-alphacalc-max" = Some hi ->
        num_leb lo hi = false ->
        clampValue value element = hi)
  /\ (bound element "data-alphacalc-min" = None ->
      bound element "data-alphacalc-max" = None ->
      clampValue value element = value).
Proof.
  intros Hv. rewrite clampValue_bound. cbv zeta.
  destruct (bound element "data-alphacalc-min") as [lo|] eqn:Hlo;
    destruct (bound element "data-alphacalc-max") as [hi|] eqn:Hhi.
  - pose proof (bound_not_NaN _ _ _ Hlo) as Hl.
    pose proof (bound_not_NaN _ _ _ Hhi) as Hh.
    destruct (max_cases value lo Hv Hl) as (Hm & Hvm & Hlm).
    destruct (min_cases (Num.max value lo) hi Hm Hh) as (Hr & Hra & Hrb & Hglb & Hgt).
    repeat split; try done.
    + by intros ? [= <-].
    + intros ? [= <-] Hle. apply Hglb; [done|]. by apply Hle.
    + intros ? ? [= <-] [= <-] Hle. apply Hgt.
      destruct (num_leb (Num.max value lo) hi) eqn:Hc; [|done].
      by rewrite (num_leb_trans lo (Num.max value lo) hi Hm Hlm Hc) in Hle.
  - pose proof (bound_not_NaN _ _ _ Hlo) as Hl.
    destruct (max_cases value lo Hv Hl) as (Hm & Hvm & Hlm).
    repeat split; try done. by intros ? [= <-].
  - pose proof (bound_not_NaN _ _ _ Hhi) as Hh.
    destruct (min_cases value hi Hv Hh) as (Hr & Hra & Hrb & _).
    repeat split; try done. by intros ? [= <-].
  - repeat split; done.
Qed.

Lemma clampValue_within_witness :
  let qty := Page.number_input "qty" "5"
               [("data-alphacalc-min", "0"); ("data-alphacalc-max", "10")] in
  Num.isNaN (Num.of_Z 50) = false
  /\ num_leb (clampValue (Num.of_Z 50) qty) (Num.of_Z 10) = true
  /\ num_leb (Num.of_Z 0) (clampValue (Num.of_Z (-3)) qty) = true.
Proof.
  intros qty. split; [reflexivity|].
  pose proof (clampValue_within (Num.of_Z 50) qty eq_refl) as (_ & Hmax & _).
  pose proof (clampValue_within (Num.of_Z (-3)) qty eq_refl) as (_ & _ & Hmin & _).
  split.
  - apply Hmax. reflexivity.
  - apply Hmin; [reflexivity|]. intros hi [= <-]. reflexivity.
Defined.

(* ===================================================================== *)
(** * Reading numbers *)
(* ===================================================================== *)

Lemma keep_chars_idempotent (keep : ascii -> bool) (s : string) :
  keep_chars keep (keep_chars keep s) = keep_chars keep s.
Proof.
  induction s as [| c s IH]; [reflexivity|]. cbn.
  destruct (keep c) eqn:Hc; [|exact IH]. cbn. by rewrite Hc, IH.
Qed.

Lemma keep_chars_app (keep : ascii -> bool) (s1 s2 : string) :
  keep_chars keep (s1 +:+ s2) = keep_chars keep s1 +:+ keep_chars keep s2.
Proof.
  induction s1 as [| c s1 IH]; [reflexivity|].
  change (String c s1 +:+ s2) with (String c (s1 +:+ s2)). cbn [keep_chars].
  destruct (keep c); [|exact IH].
  change (String c ?a +:+ ?b) with (String c (a +:+ b)). by rewrite IH.
Qed.

Lemma parseNumeric_string (s : string) :
  parseNumeric (VStr s)
  = let num := parseFloat (keep_chars numeric_char s) in
    if Num.isFinite num then num else Num.zero.
Proof.
  cbn. destruct (String.eqb_spec s "") as [-> | _]; reflexivity.
Qed.

Lemma parseNumeric_isFinite (value : value) :
  Num.isFinite (parseNumeric value) = true.
Proof.
  destruct value as [| | [] | x | s]; try reflexivity.
  - cbn. unfold parseFloat_number.
    destruct x as [sx | sx | | sx m e]; reflexivity.
  - rewrite parseNumeric_string. cbv zeta.
    destruct (Num.isFinite (parseFloat _)) eqn:Hf; [exact Hf | reflexivity].
Qed.

(** [Util.parseNumeric] returns a finite number for every value: a
    finite number is returned as it is, with 0 for -0, and [NaN] and the
    infinities give 0.  Of a string
    it reads the digits, the points and the minus signs only: strings that
    agree on these characters are read alike, wherever the other
    characters stand, so that the letter of an exponent is dropped like a
    currency sign. *)
Theorem parseNumeric_reads :
  (forall value, Num.isFinite (parseNumeric value) = true)
  /\ (forall x,
        parseNumeric (VNum x)
        = if Num.isFinite x && negb (Num.isZero x) then x else Num.zero)
  /\ (forall s1 s2,
        keep_chars numeric_char s1 = keep_chars numeric_char s2 ->
        parseNumeric (VStr s1) = parseNumeric (VStr s2)).
Proof.
  split; [apply parseNumeric_isFinite|]. split.
  - intros x. cbn. unfold parseFloat_number.
    destruct x as [sx | sx | | sx m e]; reflexivity.
  - intros s1 s2 Heq. by rewrite !parseNumeric_string, Heq.
Qed.

Lemma parseNumeric_reads_witness :
  parseNumeric (VStr "$1,250.50") = parseNumeric (VStr "1250.50")
  /\ parseNumeric (VStr "1e3") = parseNumeric (VStr "13")
  /\ parseNumeric (VNum Num.Infinity) = Num.zero.
Proof.
  destruct parseNumeric_reads as (_ & Hnum & Hstr).
  split; [|split].
  - apply Hstr. reflexivity.
  - apply Hstr. reflexivity.
  - apply Hnum.
Defined.

Lemma finite_not_NaN (x : num) : Num.isFinite x = true -> Num.isNaN x = false.
Proof. by destruct x. Qed.

Lemma max_finite (a b : num) :
  Num.isFinite a = true -> Num.isFinite b = true ->
  Num.isFinite (Num.max a b) = true.
Proof.
  intros Ha Hb. unfold Num.max.
  destruct (SFcompare a b) as [[]|] eqn:Hc; try done.
  - destruct a, b; done.
  - exfalso. destruct a, b; done.
Qed.

Lemma min_finite (a b : num) :
  Num.isFinite a = true -> Num.isFinite b = true ->
  Num.isFinite (Num.min a b) = true.
Proof.
  intros Ha Hb. unfold Num.min.
  destruct (SFcompare a b) as [[]|] eqn:Hc; try done.
  - destruct a, b; done.
  - exfalso. destruct a, b; done.
Qed.

(** What [getElementValue] reads before it clamps. *)
Lemma getElementValue_clamped (element : Element) :
  exists value,
    Num.isFinite value = true
    /\ getElementValue element = clampValue value element.
Proof.
  unfold getElementValue. cbv zeta.
  destruct (getElementType element).
  - eexists. split; [|reflexivity]. apply parseNumeric_isFinite.
  - eexists. split; [|reflexivity]. unfold getSelectValue.
    repeat match goal with
           | |- context [if ?b then _ else _] => destruct b
           | |- context [match ?o with Some _ => _ | None => _ end] => destruct o
           end; try apply parseNumeric_isFinite; reflexivity.
  - eexists. split; [|reflexivity]. unfold getToggleValue.
    destruct (negb _); [reflexivity | apply parseNumeric_isFinite].
  - eexists. split; [|reflexivity]. unfold getToggleValue.
    destruct (negb _); [reflexivity | apply parseNumeric_isFinite].
Qed.

Lemma getElementValue_not_NaN (element : Element) :
  Num.isNaN (getElementValue element) = false.
Proof.
  destruct (getElementValue_clamped element) as (value & Hfin & ->).
  apply clampValue_not_NaN. by apply finite_not_NaN.
Qed.

(** [getElementValue] never reads [NaN] from an element, whatever its
    value and attributes are; and it reads a finite number unless a bound
    of the element is infinite, as with [data-alphacalc-min="Infinity"],
    where it reads [Infinity]. *)
Theorem getElementValue_number (element : Element) :
  Num.isNaN (getElementValue element) = false
  /\ ((forall lo, bound element "data-alphacalc-min" = Some lo ->
                  Num.isFinite lo = true) ->
      (forall hi, bound element "data-alphacalc-max" = Some hi ->
                  Num.isFinite hi = true) ->
      Num.isFinite (getElementValue element) = true)
  /\ getElementValue
       (Page.number_input "qty" "5" [("data-alphacalc-min", "Infinity")])
     = Num.Infinity.
Proof.
  split; [apply getElementValue_not_NaN|]. split; [|reflexivity].
  destruct (getElementValue_clamped element) as (value & Hfin & ->).
  intros Hlo Hhi. rewrite clampValue_bound. cbv zeta.
  destruct (bound element "data-alphacalc-min") as [lo|];
    destruct (bound element "data-alphacalc-max") as [hi|];
    auto using max_finite, min_finite.
Qed.

Lemma getElementValue_number_witness :
  let qty := Page.number_input "qty" "5"
               [("data-alphacalc-min", "0"); ("data-alphacalc-max", "10")] in
  Num.isFinite (getElementValue qty) = true.
Proof.
  intros qty. apply (getElementValue_number qty).
  - intros lo [= <-]. reflexivity.
  - intros hi [= <-]. reflexivity.
Defined.

(* ===================================================================== *)
(** * The evaluator's fallbacks *)
(* ===================================================================== *)



(* ===================================================================== *)
(** * Listeners *)
(* ===================================================================== *)

Lemma with_inputValues_id (st : Calc) : with_inputValues (inputValues st) st = st.
Proof. by destruct st. Qed.

(** What [handleRadioChange] does to the store: entries are kept or set
    to 0, and the entry of every other radio button of the name is 0. *)
Lemma handleRadioChange_store (i : nat) (element : Element) (st : Calc) :
  exists m,
    handleRadioChange i element st = with_inputValues m st
    /\ (forall k, m !! k = inputValues st !! k \/ m !! k = Some (VNum Num.zero))
    /\ (el_name element <> "" ->
        forall j radio c,
          container st !! j = Some radio -> j <> i ->
          is_radio_named (el_name element) radio = true ->
          truthy_string (getCellId (calc_config st) radio) = Some c ->
          m !! c = Some (VNum Num.zero)).
Proof.
  unfold handleRadioChange.
  destruct (String.eqb_spec (el_name element) "") as [Hn | Hn]; cbn [negb].
  { exists (inputValues st). rewrite with_inputValues_id. split; [done|].
    split; [by left | done]. }
  set (step := fun (st : Calc) '(j, radio) =>
                 if is_radio_named (el_name element) radio && negb (Nat.eqb j i)
                 then match truthy_string (getCellId (calc_config st) radio) with
                      | Some radioCellId => store_set radioCellId (VNum Num.zero) st
                      | None => st
                      end
                 else st).
  assert (Hfold : forall (l : list (nat * Element)) (s : Calc),
             calc_config s = calc_config st ->
             exists m,
               fold_left step l s = with_inputValues m s
               /\ (forall k, m !! k = inputValues s !! k \/ m !! k = Some (VNum Num.zero))
               /\ (forall j radio c,
                     (j, radio) ∈ l -> j <> i ->
                     is_radio_named (el_name element) radio = true ->
                     truthy_string (getCellId (calc_config st) radio) = Some c ->
                     m !! c = Some (VNum Num.zero))).
  { induction l as [| [j radio] l IH]; intros s Hcfg.
    - exists (inputValues s). rewrite with_inputValues_id.
      split; [done|]. split; [by left|]. intros j radio c Hin. by apply elem_of_nil in Hin.
    - cbn [fold_left].
      assert (Hstep : exists m1,
                 step s (j, radio) = with_inputValues m1 s
                 /\ (forall k, m1 !! k = inputValues s !! k \/ m1 !! k = Some (VNum Num.zero))
                 /\ (forall c, j <> i ->
                       is_radio_named (el_name element) radio = true ->
                       truthy_string (getCellId (calc_config st) radio) = Some c ->
                       m1 !! c = Some (VNum Num.zero))).
      { unfold step. rewrite Hcfg.
        destruct (is_radio_named (el_name element) radio) eqn:Hr; cbn [andb].
        - destruct (Nat.eqb_spec j i) as [-> | Hji]; cbn [negb].
          + exists (inputValues s). rewrite with_inputValues_id.
            split; [done|]. split; [by left | done].
          + destruct (truthy_string (getCellId (calc_config st) radio)) as [c0|].
            * exists (<[c0 := VNum Num.zero]> (inputValues s)).
              split; [reflexivity|]. split.
              -- intros k. destruct (decide (c0 = k)) as [<- | Hk].
                 ++ right. apply lookup_insert_eq.
                 ++ left. by apply lookup_insert_ne.
              -- intros c _ _ [= <-]. apply lookup_insert_eq.
            * exists (inputValues s). rewrite with_inputValues_id.
              split; [done|]. split; [by left | done].
        - exists (inputValues s). rewrite with_inputValues_id.
          split; [done|]. split; [by left | done]. }
      destruct Hstep as (m1 & -> & Hkeep1 & Hzero1).
      destruct (IH (with_inputValues m1 s) Hcfg) as (m & -> & Hkeep & Hzero).
      exists m. split; [reflexivity|]. split.
      + intros k. destruct (Hkeep k) as [-> | ->]; [apply Hkeep1 | by right].
      + intros j' radio' c Hin Hj' Hr' Hc.
        apply elem_of_cons in Hin as [[= -> ->] | Hin].
        * destruct (Hkeep c) as [-> | ->]; [by apply Hzero1 | done].
        * by eapply Hzero. }
  destruct (Hfold (imap (fun j radio => (j, radio)) (container st)) st eq_refl)
    as (m & -> & Hkeep & Hzero).
  exists m. split; [reflexivity|]. split; [done|].
  intros _ j radio c Hj Hji Hr Hc. apply (Hzero j radio c); try done.
  apply elem_of_lookup_imap. by exists j, radio.
Qed.

(** The listener of an element, on flat groups: it returns, the store
    then holds the element's reading under the listener's id, and the
    other ids that are not names of groups hold what they held or 0. *)
Lemma inputListener_flat (fuel : nat) (i : nat) (cellId : string) (element : Element)
    (st : Calc) :
  flat_groups st ->
  container st !! i = Some element ->
  exists st' m,
    inputListener (S (S fuel)) i cellId st = Some st'
    /\ group_step (store_set cellId (VNum (getElementValue element))
                     (with_inputValues m st)) st'
    /\ (forall k, m !! k = inputValues st !! k \/ m !! k = Some (VNum Num.zero))
    /\ (getElementType element = ETradio -> el_checked element = true ->
        el_name element <> "" ->
        forall j radio c,
          container st !! j = Some radio -> j <> i ->
          is_radio_named (el_name element) radio = true ->
          truthy_string (getCellId (calc_config st) radio) = Some c ->
          m !! c = Some (VNum Num.zero)).
Proof.
  intros Hflat Hel. unfold inputListener. rewrite Hel.
  destruct (handleRadioChange_store i element st) as (m & Hm & Hkeep & Hzero).
  set (cond := ElementType_eqb (getElementType element) ETradio
               && el_checked element && negb (String.eqb (el_name element) "")).
  set (m' := if cond then m else inputValues st).
  assert (Hst1 : (if cond then handleRadioChange i element st else st)
                 = with_inputValues m' st).
  { unfold m'. destruct cond; [done | by rewrite with_inputValues_id]. }
  rewrite Hst1.
  set (st2 := store_set cellId (VNum (getElementValue element)) (with_inputValues m' st)).
  assert (Hflat2 : flat_groups st2) by exact Hflat.
  destruct (emit_flat fuel cellId st2 Hflat2) as (st' & Hrun & Hstep).
  exists st', m'. split; [exact Hrun|]. split; [exact Hstep|]. split.
  - intros k. unfold m'. destruct cond; [apply Hkeep | by left].
  - intros Ht Hc Hn. unfold m', cond. rewrite Ht, Hc. cbn.
    destruct (String.eqb_spec (el_name element) ""); [done|]. cbn. by apply Hzero.
Qed.



(* ===================================================================== *)
(** * Steps of the calculator *)
(* ===================================================================== *)

Lemma event_step_refl (st : Calc) : event_step st st.
Proof. by split. Qed.

Lemma event_step_trans (st1 st2 st3 : Calc) :
  event_step st1 st2 -> event_step st2 st3 -> event_step st1 st3.
Proof.
  intros [] []. split; try congruence.
  intros k. etrans; eauto.
Qed.

Lemma group_step_event_step (st st' : Calc) : group_step st st' -> event_step st st'.
Proof.
  intros Hs. destruct Hs as [? Hc ? ? ? ? ? ? ?]. split; try done. by rewrite Hc.
Qed.

Lemma flat_groups_event_step (st st' : Calc) :
  event_step st st' -> flat_groups st -> flat_groups st'.
Proof.
  intros Hs Hflat c g Hin. rewrite (es_events _ _ Hs) in Hin.
  apply (es_groups _ _ Hs). by eapply Hflat.
Qed.

Lemma flat_groups_with_container (c : list Element) (st : Calc) :
  flat_groups st -> flat_groups (with_container c st).
Proof. intros Hflat. exact Hflat. Qed.

Lemma event_step_store (m : gmap string value) (st : Calc) :
  event_step st (with_inputValues m st).
Proof. by split. Qed.

Lemma shape_lookup (c c' : list Element) (i : nat) (e : Element) :
  shape <$> c' = shape <$> c -> c !! i = Some e ->
  exists e', c' !! i = Some e' /\ shape e' = shape e.
Proof.
  intros Hs Hi. apply (f_equal (fun l => l !! i)) in Hs.
  rewrite !list_lookup_fmap, Hi in Hs.
  destruct (c' !! i) as [e'|]; [|done]. exists e'. split; [done|].
  change (Some (shape e') = Some (shape e)) in Hs. congruence.
Qed.

Lemma shape_insert (l : list Element) (i : nat) (e e' : Element) :
  l !! i = Some e -> shape e' = shape e ->
  shape <$> <[i := e']> l = shape <$> l.
Proof.
  intros Hi Hs. rewrite list_fmap_insert. apply list_insert_id.
  by rewrite list_lookup_fmap, Hi, Hs.
Qed.

Lemma shape_write_checked (i : nat) (b : bool) (c : list Element) :
  shape <$> write_checked i b c = shape <$> c.
Proof.
  unfold write_checked. destruct (c !! i) as [el|] eqn:Hi; [|reflexivity].
  match goal with |- context [<[i := _]> ?c'] =>
    assert (Hc' : shape <$> c' = shape <$> c)
  end.
  { destruct (_ && _); [|reflexivity].
    change (map ?f c) with (f <$> c). rewrite <- list_fmap_compose.
    apply list_fmap_ext. intros j x _. cbn.
    destruct (is_radio_named _ x); reflexivity. }
  destruct (shape_lookup c _ i el Hc' Hi) as (e' & He' & Hse').
  rewrite (shape_insert _ i e'); [done | done |]. by rewrite Hse'.
Qed.

Lemma write_checked_lookup (i : nat) (b : bool) (c : list Element) (el : Element) :
  c !! i = Some el -> write_checked i b c !! i = Some (set_checked b el).
Proof.
  intros Hi. unfold write_checked. rewrite Hi.
  apply list_lookup_insert_eq.
  destruct (_ && _); [rewrite length_map|]; by eapply lookup_lt_Some.
Qed.

(** On flat groups the listener of an element returns. *)
Lemma dispatchEvent_flat (fuel : nat) (type : DomEvent) (i : nat) (st : Calc) :
  flat_groups st ->
  exists st', dispatchEvent (S (S fuel)) type i st = Some st' /\ event_step st st'.
Proof.
  intros Hflat. unfold dispatchEvent.
  destruct (listeners st !! i) as [[t c]|]; [|eauto using event_step_refl].
  destruct (DomEvent_eqb t type); [|eauto using event_step_refl].
  destruct (container st !! i) as [element|] eqn:Hel.
  - destruct (inputListener_flat fuel i c element st Hflat Hel)
      as (st' & m & Hrun & Hstep & _).
    exists st'. split; [done|].
    eapply event_step_trans; [|by apply group_step_event_step].
    by split.
  - unfold inputListener. rewrite Hel. eauto using event_step_refl.
Qed.

(** On flat groups [setValue] returns. *)
Lemma setValue_flat (H : Host) (fuel : nat) (cellId : string) (v : value) (st : Calc) :
  flat_groups st ->
  exists st', setValue (S (S fuel)) cellId v st = Some st' /\ event_step st st'.
Proof.
  intros Hflat. unfold setValue.
  set (st1 := store_set cellId v st).
  assert (Hst1 : event_step st st1) by (by split).
  match goal with |- context [match ?u with Some _ => _ | None => None end] =>
    assert (Hupd : exists st2, u = Some st2 /\ event_step st st2)
  end.
  { destruct (inputElements st1 !! cellId) as [i|]; [|eauto].
    destruct (container st1 !! i) as [element|] eqn:Hel; [|eauto].
    match goal with |- context [with_container ?c st1] =>
      assert (Hc : shape <$> c = shape <$> container st)
    end.
    { destruct (getElementType element).
      - by apply (shape_insert _ i element).
      - destruct (List.find _ _); [|done]. by apply (shape_insert _ i element).
      - apply shape_write_checked.
      - apply shape_write_checked. }
    match goal with |- context [with_container ?c st1] =>
      assert (Hst2 : event_step st (with_container c st1)) by (by split)
    end.
    edestruct (dispatchEvent_flat fuel EvChange i) as (st2 & Hrun & Hstep);
      [exact (flat_groups_event_step _ _ Hst2 Hflat)|].
    exists st2. split; [exact Hrun|]. by eapply event_step_trans. }
  destruct Hupd as (st2 & -> & Hstep2).
  destruct (emit_flat fuel cellId st2 (flat_groups_event_step _ _ Hstep2 Hflat))
    as (st' & -> & Hstep').
  exists st'. split; [done|].
  eapply event_step_trans; [done|]. by apply group_step_event_step.
Qed.

Lemma calculateInput_flat (H : Host) (fuel : nat) (i : nat) (st : Calc) :
  flat_groups st ->
  exists st', calculateInput (S (S fuel)) i st = Some st' /\ event_step st st'.
Proof.
  intros Hflat. rewrite calculateInput_formulaCell.
  destruct (formulaCell st i) as [[cellId formula]|]; [|eauto using event_step_refl].
  by apply setValue_flat.
Qed.

Lemma for_each_event_step {A : Type} (f : A -> Calc -> option Calc) (l : list A)
    (st : Calc) :
  flat_groups st ->
  (forall a s, a ∈ l -> flat_groups s ->
               exists s', f a s = Some s' /\ event_step s s') ->
  exists st', for_each f l st = Some st' /\ event_step st st'.
Proof.
  intros Hflat Hf.
  destruct (for_each_invariant (fun s => event_step st s) f l st)
    as (st' & Hrun & Hstep); [|apply event_step_refl|eauto].
  intros a s Ha Hs.
  destruct (Hf a s Ha (flat_groups_event_step _ _ Hs Hflat)) as (s' & Hs' & Hstep).
  exists s'. split; [done|]. by eapply event_step_trans.
Qed.

Lemma custom_calculations_step (l : list (gmap string value -> gmap string value))
    (st : Calc) :
  event_step st
    (fold_left (fun st fn => with_inputValues (fn (inputValues st)) st) l st).
Proof.
  revert st. induction l as [| fn l IH]; intros st; cbn [fold_left].
  - apply event_step_refl.
  - eapply event_step_trans; [|apply IH]. by split.
Qed.

(** A pass over the formula cells returns when the groups are flat: no
    chain of events it sets off is longer than two. *)
Lemma calculate_flat (H : Host) (fuel : nat) (st : Calc) :
  flat_groups st ->
  exists st', calculate (S (S fuel)) st = Some st' /\ event_step st st'.
Proof.
  intros Hflat. unfold calculate.
  destruct (for_each_event_step (calculateInput (S (S fuel))) (formulaInputs st) st Hflat)
    as (st1 & -> & Hstep1).
  { intros i s _ Hs. by apply calculateInput_flat. }
  eexists. split; [reflexivity|].
  eapply event_step_trans; [done|]. apply custom_calculations_step.
Qed.

(* ===================================================================== *)
(** * Emissions that return *)
(* ===================================================================== *)

Lemma for_each_rel {A S : Type} (R : S -> S -> Prop) (f : A -> S -> option S)
    (l : list A) (s s' : S) :
  (forall s, R s s) -> (forall s1 s2 s3, R s1 s2 -> R s2 s3 -> R s1 s3) ->
  (forall a s s', a ∈ l -> f a s = Some s' -> R s s') ->
  for_each f l s = Some s' -> R s s'.
Proof.
  intros Hrefl Htrans. revert s. induction l as [| a l IH]; intros s Hf; cbn.
  - intros [= <-]. apply Hrefl.
  - destruct (f a s) as [s1|] eqn:Ha; [|done]. intros Hrun.
    apply (Htrans s s1 s').
    + eapply Hf; [left | done].
    + apply IH; [|done]. intros b s2 s3 Hb. apply Hf. by right.
Qed.

(** Whatever the groups are, an emission that returns is a
    [group_step]. *)
Lemma emit_group_step (fuel : nat) (cellId : string) (st st' : Calc) :
  emit fuel cellId st = Some st' -> group_step st st'.
Proof.
  revert cellId st st'. induction fuel as [| fuel IH]; intros cellId st st'; [done|].
  rewrite emit_S. apply for_each_rel.
  - apply group_step_refl.
  - apply group_step_trans.
  - intros [c g] s s' _. destruct (String.eqb c cellId); [|intros [= <-]; apply group_step_refl].
    unfold updateGroupValue. destruct (groups s !! g) as [group|] eqn:Hg.
    + fold (groupUpdated g group s). intros Hrun.
      eapply group_step_trans; [by apply groupUpdated_step | by eapply IH].
    + intros [= <-]. apply group_step_refl.
Qed.

Lemma for_each_none {A S : Type} (P : S -> Prop) (f : A -> S -> option S)
    (l : list A) (a : A) (s : S) :
  a ∈ l -> P s ->
  (forall b s s', f b s = Some s' -> P s -> P s') ->
  (forall s, P s -> f a s = None) ->
  for_each f l s = None.
Proof.
  intros Ha Hs Hkeep Hnone. revert s Hs.
  induction l as [| b l IH]; intros s Hs; [by apply elem_of_nil in Ha|]. cbn.
  apply elem_of_cons in Ha as [<- | Ha].
  - by rewrite Hnone.
  - destruct (f b s) as [s1|] eqn:Hb; [|done]. apply IH; [done|]. by eapply Hkeep.
Qed.

Lemma emit_cyclic (g : string) (fuel : nat) (st : Calc) :
  GroupMember g g ∈ events st -> is_Some (groups st !! g) ->
  emit fuel g st = None.
Proof.
  revert st. induction fuel as [| fuel IH]; intros st Hin Hg; [done|].
  rewrite emit_S.
  apply (for_each_none
           (fun s => events s = events st /\ is_Some (groups s !! g))
           _ _ (GroupMember g g)); [done | done | |].
  - intros [c g'] s s' Hrun [Hev Hgs].
    assert (Hstep : group_step s s').
    { destruct (String.eqb c g); [|injection Hrun as <-; apply group_step_refl].
      unfold updateGroupValue in Hrun. destruct (groups s !! g') as [group|] eqn:Hg'.
      - fold (groupUpdated g' group s) in Hrun.
        eapply group_step_trans; [by apply groupUpdated_step | by eapply emit_group_step].
      - injection Hrun as <-. apply group_step_refl. }
    split; [by rewrite (gs_events _ _ Hstep)|].
    apply not_eq_None_Some. rewrite (gs_groups _ _ Hstep).
    by apply not_eq_None_Some.
  - intros s [Hev [group Hgs]]. rewrite String.eqb_refl.
    unfold updateGroupValue. rewrite Hgs. apply IH.
    + cbn. by rewrite Hev.
    + cbn. rewrite lookup_insert_eq. eauto.
Qed.

(** A group one of whose members has the group's name as its cell id
    updates itself without end: however deep the nesting allowed, the
    emission for that id does not return, and neither does the listener of
    the member. *)
Theorem emit_cyclic_group_never_returns (g : string) (st : Calc) :
  GroupMember g g ∈ events st -> is_Some (groups st !! g) ->
  forall fuel,
    emit fuel g st = None
    /\ forall i element, container st !! i = Some element ->
                         inputListener fuel i g st = None.
Proof.
  intros Hin Hg fuel. split; [by apply emit_cyclic|].
  intros i element Hel. unfold inputListener. rewrite Hel.
  destruct (handleRadioChange_store i element st) as (m & Hm & _).
  apply emit_cyclic.
  - destruct (_ && _); [by rewrite Hm | done].
  - destruct (_ && _); [by rewrite Hm | done].
Qed.

Lemma emit_cyclic_group_never_returns_witness :
  let st := started [Page.checkbox "total" "total" "5" true] in
  getValue st "total" = VNum (Num.of_Z 5)
  /\ userTicks 1000 0 st = None.
Proof.
  intros st. split; [reflexivity|].
  assert (Hin : GroupMember "total" "total" ∈ events st) by (vm_compute; left).
  assert (Hg : is_Some (groups st !! "total")) by (vm_compute; eauto).
  exact (proj2 (emit_cyclic_group_never_returns "total" st Hin Hg 1000) 0%nat
           (set_checked true (Page.checkbox "total" "total" "5" true)) eq_refl).
Defined.

(* ===================================================================== *)
(** * Selecting elements *)
(* ===================================================================== *)

Lemma selected_cons (p : Element -> bool) (k : nat) (x : Element) (c : list Element) :
  selected p k (x :: c) = (if p x then [k] else []) ++ selected p (S k) c.
Proof.
  unfold selected. rewrite imap_cons.
  replace (k + 0)%nat with k by lia.
  rewrite (imap_ext _ (fun j el => ((S k + j)%nat, el))).
  2:{ intros j el _. cbn. f_equal. lia. }
  cbn. destruct (p x); reflexivity.
Qed.

Lemma querySelectorAll_selected (p : Element -> bool) (st : Calc) :
  querySelectorAll p st = selected p 0 (container st).
Proof. reflexivity. Qed.

Lemma elem_of_selected (p : Element -> bool) (k : nat) (c : list Element) (j : nat) :
  j ∈ selected p k c <->
  (k <= j)%nat /\ exists el, c !! (j - k)%nat = Some el /\ p el = true.
Proof.
  revert k. induction c as [| x c IH]; intros k.
  - split; [intros Hin; by apply elem_of_nil in Hin | by intros (_ & el & ? & _)].
  - rewrite selected_cons, elem_of_app, IH. split.
    + intros [Hin | (Hle & el & Hel & Hp)].
      * destruct (p x) eqn:Hx; [|by apply elem_of_nil in Hin].
        apply list_elem_of_singleton in Hin as ->. split; [lia|].
        exists x. by rewrite Nat.sub_diag.
      * split; [lia|]. exists el. split; [|done].
        replace (j - k)%nat with (S (j - S k)) by lia. done.
    + intros (Hle & el & Hel & Hp).
      destruct (decide (j = k)) as [-> | Hne].
      * left. rewrite Nat.sub_diag in Hel. injection Hel as ->.
        rewrite Hp. by left.
      * right. split; [lia|]. exists el. split; [|done].
        replace (j - k)%nat with (S (j - S k)) in Hel by lia. done.
Qed.

Lemma selected_split (p : Element -> bool) (k : nat) (c : list Element)
    (i : nat) (el : Element) :
  c !! i = Some el -> p el = true ->
  exists l1 l2,
    selected p k c = l1 ++ (k + i)%nat :: l2
    /\ (forall j, j ∈ l1 -> (j < k + i)%nat)
    /\ (forall j, j ∈ l2 -> (k + i < j)%nat).
Proof.
  revert k i. induction c as [| x c IH]; intros k i Hi Hp; [done|].
  rewrite selected_cons. destruct i as [| i]; cbn in Hi.
  - injection Hi as ->. rewrite Hp. exists [], (selected p (S k) c).
    replace (k + 0)%nat with k by lia. split; [done|]. split.
    + intros j Hj. by apply elem_of_nil in Hj.
    + intros j Hj. apply elem_of_selected in Hj. lia.
  - destruct (IH (S k) i Hi Hp) as (l1 & l2 & -> & H1 & H2).
    exists ((if p x then [k] else []) ++ l1), l2.
    replace (S k + i)%nat with (k + S i)%nat by lia.
    split; [by rewrite <- app_assoc|]. split.
    + intros j Hj. apply elem_of_app in Hj as [Hj | Hj].
      * destruct (p x); [|by apply elem_of_nil in Hj].
        apply list_elem_of_singleton in Hj. lia.
      * specialize (H1 j Hj). lia.
    + intros j Hj. specialize (H2 j Hj). lia.
Qed.

Lemma NoDup_selected (p : Element -> bool) (k : nat) (c : list Element) :
  NoDup (selected p k c).
Proof.
  revert k. induction c as [| x c IH]; intros k; [constructor|].
  rewrite selected_cons. destruct (p x); cbn; [|apply IH].
  constructor; [|apply IH]. intros Hin. apply elem_of_selected in Hin. lia.
Qed.

(* ===================================================================== *)
(** * Registration *)
(* ===================================================================== *)

Lemma shape_registeredElement (H : Host) (input : Element) :
  shape (registeredElement input) = shape input.
Proof. unfold registeredElement. by destruct (_ && _). Qed.

(** One registration, spelled out. *)
Lemma registerInput_spec (H : Host) (i : nat) (input : Element) (st : Calc) :
  container st !! i = Some input ->
  registerInput i st
  = match cellOf (calc_config st) input with
    | None => st
    | Some cellId =>
        {| calc_config := calc_config st;
           container := <[i := registeredElement input]> (container st);
           inputValues := <[cellId := VNum (getElementValue input)]> (inputValues st);
           inputElements := <[cellId := i]> (inputElements st);
           formulaInputs :=
             if hasAttribute input "data-alphacalc-formula"
             then formulaInputs st ++ [i] else formulaInputs st;
           listeners :=
             if hasAttribute input "data-alphacalc-formula" then listeners st
             else <[i := (eventTypeOf input, cellId)]> (listeners st);
           groups := groups st; events := events st;
           calculations := calculations st |}
    end.
Proof.
  intros Hi. unfold registerInput, cellOf. rewrite Hi.
  destruct (truthy_string _) as [cellId|]; [|reflexivity].
  unfold registeredElement, eventTypeOf.
  destruct (ElementType_eqb (getElementType input) ETinput
            && hasAttribute input "data-alphacalc-value"
            && (String.eqb (el_type input) "text" || String.eqb (el_type input) "number"))
    eqn:Hc.
  - destruct (hasAttribute input "data-alphacalc-formula");
      destruct (getElementType input); reflexivity.
  - cbn [container store_set with_inputElements with_inputValues].
    rewrite (list_insert_id (container st) i input Hi).
    destruct (hasAttribute input "data-alphacalc-formula");
      destruct (getElementType input); destruct st; reflexivity.
Qed.

Lemma fold_left_ext_in {A B : Type} (f g : A -> B -> A) (l : list B) (a : A) :
  (forall a b, b ∈ l -> f a b = g a b) -> fold_left f l a = fold_left g l a.
Proof.
  revert a. induction l as [| b l IH]; intros a Hfg; [reflexivity|]. cbn.
  rewrite (Hfg a b) by left. apply IH. intros a' b' Hb'. apply Hfg. by right.
Qed.

(** All registrations of [InputManager.init], relative to the elements
    [c0] as they were before. *)
Lemma registerInputs_spec (H : Host) (c0 : list Element) (l : list nat) (st : Calc) :
  NoDup l ->
  (forall j, j ∈ l -> container st !! j = c0 !! j) ->
  let config := calc_config st in
  let st' := fold_left (fun st i => registerInput i st) l st in
  calc_config st' = config
  /\ groups st' = groups st /\ events st' = events st
  /\ calculations st' = calculations st
  /\ shape <$> container st' = shape <$> container st
  /\ (forall j, j ∉ l -> container st' !! j = container st !! j)
  /\ formulaInputs st'
     = formulaInputs st
       ++ List.filter (fun j => match c0 !! j with
                                | Some el => formulaRegistered config el
                                | None => false
                                end) l
  /\ listeners st'
     = fold_left (fun m j => match c0 !! j ≫= listenerOf config with
                             | Some x => <[j := x]> m
                             | None => m
                             end) l (listeners st)
  /\ inputElements st'
     = fold_left (fun m j => match c0 !! j ≫= cellOf config with
                             | Some c => <[c := j]> m
                             | None => m
                             end) l (inputElements st)
  /\ inputValues st'
     = fold_left (fun m j => match c0 !! j with
                             | Some el =>
                                 match cellOf config el with
                                 | Some c => <[c := VNum (getElementValue el)]> m
                                 | None => m
                                 end
                             | None => m
                             end) l (inputValues st).
Proof.
  intros Hnd. revert st. induction Hnd as [| i l Hi Hnd IH]; intros st Hc0.
  { cbn. rewrite app_nil_r. by repeat split. }
  cbn [fold_left List.filter]. cbv zeta.
  set (config := calc_config st).
  set (regF := fun j => match c0 !! j with
                        | Some el => formulaRegistered config el
                        | None => false
                        end).
  set (addL := fun (m : gmap nat (DomEvent * string)) j =>
                 match c0 !! j ≫= listenerOf config with
                 | Some x => <[j := x]> m
                 | None => m
                 end).
  set (addE := fun (m : gmap string nat) j =>
                 match c0 !! j ≫= cellOf config with
                 | Some c => <[c := j]> m
                 | None => m
                 end).
  set (addV := fun (m : gmap string value) j =>
                 match c0 !! j with
                 | Some el =>
                     match cellOf config el with
                     | Some c => <[c := VNum (getElementValue el)]> m
                     | None => m
                     end
                 | None => m
                 end).
  set (s1 := registerInput i st).
  assert (Hstep : calc_config s1 = config
                  /\ groups s1 = groups st /\ events s1 = events st
                  /\ calculations s1 = calculations st
                  /\ shape <$> container s1 = shape <$> container st
                  /\ (forall j, j <> i -> container s1 !! j = container st !! j)
                  /\ formulaInputs s1
                     = formulaInputs st ++ (if regF i then [i] else [])
                  /\ listeners s1 = addL (listeners st) i
                  /\ inputElements s1 = addE (inputElements st) i
                  /\ inputValues s1 = addV (inputValues st) i).
  { unfold s1, regF, addL, addE, addV. rewrite <- (Hc0 i) by left.
    destruct (container st !! i) as [input|] eqn:Hin.
    - rewrite (registerInput_spec H i input st Hin). cbn [mbind option_bind].
      unfold listenerOf, formulaRegistered. fold config.
      destruct (cellOf config input) as [cellId|] eqn:Hcell.
      + cbn. repeat split; try done.
        * rewrite (shape_insert _ i input); [done | done |].
          apply shape_registeredElement.
        * intros j Hj. by apply list_lookup_insert_ne.
        * destruct (hasAttribute input "data-alphacalc-formula");
            [done | by rewrite app_nil_r].
        * by destruct (hasAttribute input "data-alphacalc-formula").
      + cbn. rewrite app_nil_r. by repeat split.
    - unfold registerInput. rewrite Hin. cbn. rewrite app_nil_r. by repeat split. }
  destruct Hstep as (Hcfg1 & Hgr1 & Hev1 & Hcalc1 & Hsh1 & Hother & Hfi1 & Hli1 & Hie1 & Hiv1).
  destruct (IH s1) as (Hcfg & Hgr & Hev & Hcalc & Hsh & Hout & Hfi & Hli & Hie & Hiv).
  { intros j Hj. rewrite Hother; [by apply Hc0; right|]. intros ->. done. }
  cbv zeta in Hfi, Hli, Hie, Hiv. rewrite Hcfg1 in Hfi, Hli, Hie, Hiv.
  fold regF in Hfi. fold addL in Hli. fold addE in Hie. fold addV in Hiv.
  split; [congruence|]. split; [congruence|]. split; [congruence|].
  split; [congruence|]. split; [congruence|]. split; [|split; [|split; [|split]]].
  - intros j Hj. rewrite Hout by (intros Hjl; apply Hj; by right).
    apply Hother. intros ->. apply Hj. left.
  - rewrite Hfi, Hfi1. fold (regF i). destruct (regF i); cbn; by rewrite <- app_assoc.
  - by rewrite Hli, Hli1.
  - by rewrite Hie, Hie1.
  - by rewrite Hiv, Hiv1.
Qed.

Lemma InputManager_init_fold (H : Host) (st : Calc) :
  InputManager_init st
  = fold_left (fun st i => registerInput i st)
              (selected inputSelector 0 (container st)) st.
Proof. reflexivity. Qed.

Lemma lookup_fold_listeners (config : Config) (c0 : list Element) (l : list nat)
    (m : gmap nat (DomEvent * string)) (j : nat) :
  NoDup l ->
  fold_left (fun m j => match c0 !! j ≫= listenerOf config with
                        | Some x => <[j := x]> m
                        | None => m
                        end) l m !! j
  = if bool_decide (j ∈ l)
    then match c0 !! j ≫= listenerOf config with
         | Some x => Some x
         | None => m !! j
         end
    else m !! j.
Proof.
  intros Hnd. revert m. induction Hnd as [| i l Hi Hnd IH]; intros m; [done|].
  cbn [fold_left]. rewrite IH.
  destruct (decide (j = i)) as [-> | Hne].
  - rewrite (bool_decide_eq_false_2 (i ∈ l)) by done.
    rewrite (bool_decide_eq_true_2 (i ∈ i :: l)) by left.
    destruct (c0 !! i ≫= listenerOf config); [apply lookup_insert_eq | done].
  - assert (Hiff : bool_decide (j ∈ i :: l) = bool_decide (j ∈ l)).
    { apply bool_decide_ext. rewrite elem_of_cons.
      split; [intros [? | ?]; done | by right]. }
    rewrite Hiff.
    assert (Hm : match c0 !! i ≫= listenerOf config with
                 | Some x => <[i := x]> m
                 | None => m
                 end !! j = m !! j).
    { destruct (c0 !! i ≫= listenerOf config); [by apply lookup_insert_ne | done]. }
    by rewrite Hm.
Qed.

(** [InputManager.init] on a calculator just created: the formula inputs
    are the selected elements that have a cell id and carry
    [data-alphacalc-formula], in document order; every other selected
    element with a cell id gets one listener, for [change] on a select, a
    radio button or a checkbox and for [input] otherwise; so no formula
    input has a listener, and nothing else has one. *)
Theorem InputManager_init_registers (H : Host) (config : Config)
    (elements : list Element) :
  let st := InputManager_init (blank config elements) in
  formulaInputs st
  = List.filter (fun i => match elements !! i with
                          | Some el => formulaRegistered config el
                          | None => false
                          end)
                (selected inputSelector 0 elements)
  /\ (forall i,
        listeners st !! i
        = match elements !! i with
          | Some el => if inputSelector el then listenerOf config el else None
          | None => None
          end)
  /\ (forall i, i ∈ formulaInputs st -> listeners st !! i = None).
Proof.
  cbv zeta. rewrite InputManager_init_fold.
  destruct (registerInputs_spec H elements (selected inputSelector 0 elements)
              (blank config elements))
    as (_ & _ & _ & _ & _ & _ & Hfi & Hli & _);
    [apply NoDup_selected | done |].
  cbn [container blank] in *. cbv zeta in Hfi, Hli.
  cbn [formulaInputs listeners calc_config blank app] in Hfi, Hli.
  assert (Hlis : forall i,
             listeners (fold_left (fun st i => registerInput i st)
                          (selected inputSelector 0 elements)
                          (blank config elements)) !! i
             = match elements !! i with
               | Some el => if inputSelector el then listenerOf config el else None
               | None => None
               end).
  { intros i. rewrite Hli, lookup_fold_listeners by apply NoDup_selected.
    rewrite lookup_empty.
    destruct (elements !! i) as [el|] eqn:Hel.
    - cbn [mbind option_bind]. destruct (inputSelector el) eqn:Hsel.
      + rewrite bool_decide_eq_true_2; [by destruct (listenerOf config el)|].
        apply elem_of_selected. split; [lia|]. exists el.
        by rewrite Nat.sub_0_r.
      + rewrite bool_decide_eq_false_2; [done|].
        intros Hin. apply elem_of_selected in Hin as (_ & el' & Hel' & Hp).
        rewrite Nat.sub_0_r, Hel in Hel'. injection Hel' as <-. congruence.
    - by destruct (bool_decide _). }
  split; [exact Hfi|]. split; [exact Hlis|].
  intros i Hi. rewrite Hlis. rewrite Hfi in Hi.
  apply list_elem_of_In, filter_In in Hi as [_ Hi].
  destruct (elements !! i) as [el|]; [|done].
  unfold formulaRegistered in Hi. apply andb_true_iff in Hi as [_ Hf].
  destruct (inputSelector el); [|done].
  unfold listenerOf. destruct (cellOf config el); [|done]. by rewrite Hf.
Qed.

Lemma lookup_fold_keep {K V A : Type} `{Countable K} (f : gmap K V -> A -> gmap K V)
    (l : list A) (m : gmap K V) (k : K) :
  (forall m a, a ∈ l -> f m a !! k = m !! k) ->
  fold_left f l m !! k = m !! k.
Proof.
  revert m. induction l as [| a l IH]; intros m Hf; [done|]. cbn.
  rewrite IH; [apply Hf; left|]. intros m' a' Ha'. apply Hf. by right.
Qed.

(** [InputManager.init] on a calculator just created: every entry of the
    store is the reading of a selected element that carries the entry's
    id, so it is a number and not [NaN]; where several elements carry the
    same id, the last one in document order is the one registered and
    read. *)
Theorem InputManager_init_store (H : Host) (config : Config)
    (elements : list Element) :
  let st := InputManager_init (blank config elements) in
  (forall c v, inputValues st !! c = Some v ->
     exists i el, elements !! i = Some el /\ inputSelector el = true
                  /\ cellOf config el = Some c
                  /\ v = VNum (getElementValue el)
                  /\ Num.isNaN (getElementValue el) = false)
  /\ (forall i el c,
        elements !! i = Some el -> inputSelector el = true ->
        cellOf config el = Some c ->
        (forall j el', (i < j)%nat -> elements !! j = Some el' ->
                       inputSelector el' = true -> cellOf config el' <> Some c) ->
        inputElements st !! c = Some i
        /\ inputValues st !! c = Some (VNum (getElementValue el))).
Proof.
  cbv zeta. rewrite InputManager_init_fold.
  destruct (registerInputs_spec H elements (selected inputSelector 0 elements)
              (blank config elements))
    as (_ & _ & _ & _ & _ & _ & _ & _ & Hie & Hiv);
    [apply NoDup_selected | done |].
  cbn [container blank] in *. cbv zeta in Hie, Hiv.
  cbn [inputElements inputValues calc_config blank] in Hie, Hiv.
  rewrite Hie, Hiv. clear Hie Hiv. split.
  - intros c v.
    assert (Hgen : forall l (m : gmap string value),
               (forall j, j ∈ l -> j ∈ selected inputSelector 0 elements) ->
               fold_left (fun m j => match elements !! j with
                                     | Some el =>
                                         match cellOf config el with
                                         | Some c => <[c := VNum (getElementValue el)]> m
                                         | None => m
                                         end
                                     | None => m
                                     end) l m !! c = Some v ->
               m !! c = Some v
               \/ exists i el, elements !! i = Some el /\ inputSelector el = true
                                /\ cellOf config el = Some c
                                /\ v = VNum (getElementValue el)
                                /\ Num.isNaN (getElementValue el) = false).
    { induction l as [| j l IH]; intros m Hl; cbn [fold_left]; [by left|].
      intros Hv. destruct (IH _ (fun j' Hj' => Hl j' (list_elem_of_further _ _ _ Hj')) Hv)
        as [Hm | Hex]; [|by right].
      destruct (elements !! j) as [el|] eqn:Hel; [|by left].
      destruct (cellOf config el) as [c'|] eqn:Hc'; [|by left].
      destruct (decide (c' = c)) as [-> | Hne].
      - rewrite lookup_insert_eq in Hm. injection Hm as <-. right.
        exists j, el. repeat split; try done.
        + assert (Hj : j ∈ selected inputSelector 0 elements) by (apply Hl; left).
          apply elem_of_selected in Hj as (_ & el' & Hel' & Hp).
          rewrite Nat.sub_0_r, Hel in Hel'. by injection Hel' as <-.
        + apply getElementValue_not_NaN.
      - rewrite lookup_insert_ne in Hm by done. by left. }
    intros Hv. destruct (Hgen _ ∅ (fun j Hj => Hj) Hv) as [Hm | Hex]; [|done].
    by rewrite lookup_empty in Hm.
  - intros i el c Hel Hsel Hcell Hlast.
    destruct (selected_split inputSelector 0 elements i el Hel Hsel)
      as (l1 & l2 & Hsplit & _ & Hl2).
    cbn in Hsplit. rewrite Hsplit, !fold_left_app. cbn [fold_left].
    assert (Hl2' : forall j, j ∈ l2 ->
               forall el', elements !! j = Some el' -> cellOf config el' <> Some c).
    { intros j Hj el' Hel'. apply (Hlast j el'); [by apply Hl2 | done |].
      assert (Hin : j ∈ selected inputSelector 0 elements).
      { rewrite Hsplit. apply elem_of_app. right. by right. }
      apply elem_of_selected in Hin as (_ & el'' & Hel'' & Hp).
      rewrite Nat.sub_0_r, Hel' in Hel''. by injection Hel'' as <-. }
    split.
    + rewrite lookup_fold_keep.
      * rewrite Hel. cbn [mbind option_bind]. rewrite Hcell. apply lookup_insert_eq.
      * intros m j Hj. destruct (elements !! j) as [el'|] eqn:Hel'; [|done].
        cbn [mbind option_bind].
        destruct (cellOf config el') as [c'|] eqn:Hc'; [|done].
        apply lookup_insert_ne. intros ->. by apply (Hl2' j Hj el').
    + rewrite lookup_fold_keep.
      * rewrite Hel, Hcell. apply lookup_insert_eq.
      * intros m j Hj. destruct (elements !! j) as [el'|] eqn:Hel'; [|done].
        destruct (cellOf config el') as [c'|] eqn:Hc'; [|done].
        apply lookup_insert_ne. intros ->. by apply (Hl2' j Hj el').
Qed.

Lemma InputManager_init_store_witness :
  let st := @InputManager_init arith_host (blank DEFAULT_CONFIG (Page.chained "3")) in
  inputElements st !! "x" = Some 0%nat
  /\ inputValues st !! "x" = Some (VNum (Num.of_Z 3)).
Proof.
  pose proof (InputManager_init_store arith_host DEFAULT_CONFIG (Page.chained "3"))
    as [_ Hlast].
  apply (Hlast 0%nat (Page.number_input "x" "3" []) "x"); try reflexivity.
  intros j el' Hj Hel' _.
  destruct j as [| [| [| j]]]; [lia | | |]; cbn in Hel'; try discriminate;
    injection Hel' as <-; discriminate.
Defined.

(* ===================================================================== *)
(** * Setting a value on an element that listens to [change] *)
(* ===================================================================== *)

(** The element [setValue] leaves on the page. *)
Lemma setValue_element (H : Host) (v : value) (i : nat) (element : Element)
    (c : list Element) :
  c !! i = Some element ->
  exists element',
    match getElementType element with
    | ETselect =>
        match List.find (fun opt => strict_eq_num (parseNumeric (VStr opt)) v)
                        (el_options element) with
        | Some option => <[i := set_value option element]> c
        | None => c
        end
    | ETradio | ETcheckbox =>
        let elementRawValue :=
          if hasAttribute element "data-alphacalc-value"
          then attribute element "data-alphacalc-value"
          else el_value element in
        let elementValue := parseNumeric (VStr elementRawValue) in
        write_checked i
          (Num.ltb (Num.abs (Num.sub elementValue (toNumber v)))
                   (Num.of_decimal false 1 (-3))) c
    | ETinput => <[i := set_value (toDomString v) element]> c
    end !! i = Some element'
    /\ shape element' = shape element
    /\ (is_toggle (getElementType element) = true ->
        el_checked element'
        = Num.ltb (Num.abs (Num.sub
                     (parseNumeric
                        (VStr (if hasAttribute element "data-alphacalc-value"
                               then attribute element "data-alphacalc-value"
                               else el_value element)))
                     (toNumber v)))
                  (Num.of_decimal false 1 (-3))).
Proof.
  intros Hi. pose proof (lookup_lt_Some _ _ _ Hi) as Hlt.
  destruct (getElementType element); cbn [is_toggle].
  - eexists. split; [by apply list_lookup_insert_eq|]. by split.
  - destruct (List.find _ _).
    + eexists. split; [by apply list_lookup_insert_eq|]. by split.
    + exists element. by repeat split.
  - eexists. split; [by apply write_checked_lookup|]. by split.
  - eexists. split; [by apply write_checked_lookup|]. by split.
Qed.

(** [setValue] on a cell whose element listens to [change], as a select,
    a radio button and a checkbox do: the listener runs on the event that
    [setValue] dispatches and stores what it reads from the element, so
    the store ends with the element's reading, a number other than
    [NaN], and not with the value supplied.  A checkbox or
    radio button is checked exactly if its own value is within 0.001 of
    the value supplied. *)
Theorem setValue_reads_back (H : Host) (fuel : nat) (cellId : string) (v : value)
    (st : Calc) (i : nat) (element : Element) :
  flat_groups st ->
  groups st !! cellId = None ->
  inputElements st !! cellId = Some i ->
  container st !! i = Some element ->
  listeners st !! i = Some (EvChange, cellId) ->
  exists st' element',
    setValue (S (S fuel)) cellId v st = Some st'
    /\ container st' !! i = Some element'
    /\ shape element' = shape element
    /\ inputValues st' !! cellId = Some (VNum (getElementValue element'))
    /\ Num.isNaN (getElementValue element') = false
    /\ (is_toggle (getElementType element) = true ->
        el_checked element'
        = Num.ltb (Num.abs (Num.sub
                     (parseNumeric
                        (VStr (if hasAttribute element "data-alphacalc-value"
                               then attribute element "data-alphacalc-value"
                               else el_value element)))
                     (toNumber v)))
                  (Num.of_decimal false 1 (-3))).
Proof.
  intros Hflat Hg Hi Hel Hl. unfold setValue.
  set (st1 := store_set cellId v st).
  change (inputElements st1) with (inputElements st). rewrite Hi.
  change (container st1) with (container st). rewrite Hel.
  destruct (setValue_element H v i element (container st) Hel)
    as (element' & Hel' & Hshape & Hchecked).
  match goal with |- context [with_container ?c st1] => set (st1c := with_container c st1) end.
  unfold dispatchEvent. change (listeners st1c) with (listeners st). rewrite Hl.
  cbn [DomEvent_eqb].
  assert (Hflat1 : flat_groups st1c) by exact Hflat.
  destruct (inputListener_flat fuel i cellId element' st1c Hflat1 Hel')
    as (st2 & m & -> & Hstep2 & _).
  assert (Hflat2 : flat_groups st2).
  { eapply flat_groups_step; [exact Hstep2|]. exact Hflat. }
  destruct (emit_flat fuel cellId st2 Hflat2) as (st' & -> & Hstep').
  exists st', element'. split; [done|]. split; [|split; [done|split; [|split]]].
  - by rewrite (gs_container _ _ Hstep'), (gs_container _ _ Hstep2).
  - rewrite (gs_values _ _ Hstep').
    + rewrite (gs_values _ _ Hstep2) by exact Hg. cbn. apply lookup_insert_eq.
    + by apply (gs_groups _ _ Hstep2).
  - apply getElementValue_not_NaN.
  - exact Hchecked.
Qed.

Lemma setValue_reads_back_witness :
  exists st',
    @setValue arith_host 2 "express" (VNum (Num.of_Z 7)) (started Page.extras)
    = Some st'
    /\ inputValues st' !! "express" = Some (VNum (Num.of_Z 0)).
Proof.
  destruct (setValue_reads_back arith_host 0 "express" (VNum (Num.of_Z 7))
              (started Page.extras) 1 (Page.checkbox "express" "extras" "10" false))
    as (st' & element' & Hrun & Hel & _ & Hval & _ & Hchecked);
    [exact flat_groups_extras | reflexivity ..|].
  exists st'. split; [exact Hrun|]. rewrite Hval.
  assert (He : element' = Page.checkbox "express" "extras" "10" false).
  { vm_compute in Hrun. injection Hrun as <-. vm_compute in Hel. by injection Hel as <-. }
  rewrite He. reflexivity.
Defined.

(* ===================================================================== *)
(** * Radio buttons *)
(* ===================================================================== *)

(** When the listener of a checked radio button with a name runs, the
    store entries of the other radio buttons of that name are set to 0. *)
Theorem inputListener_radio_zeroes_others (fuel : nat) (i : nat) (cellId : string)
    (element : Element) (st : Calc) (j : nat) (radio : Element) (c : string) :
  flat_groups st ->
  container st !! i = Some element ->
  getElementType element = ETradio ->
  el_checked element = true ->
  el_name element <> "" ->
  container st !! j = Some radio ->
  j <> i ->
  is_radio_named (el_name element) radio = true ->
  cellOf (calc_config st) radio = Some c ->
  c <> cellId ->
  groups st !! c = None ->
  exists st',
    inputListener (S (S fuel)) i cellId st = Some st'
    /\ inputValues st' !! c = Some (VNum Num.zero).
Proof.
  intros Hflat Hel Ht Hc Hn Hj Hji Hr Hcell Hne Hg.
  destruct (inputListener_flat fuel i cellId element st Hflat Hel)
    as (st' & m & Hrun & Hstep & _ & Hzero).
  exists st'. split; [exact Hrun|].
  rewrite (gs_values _ _ Hstep) by exact Hg. cbn.
  rewrite lookup_insert_ne by done.
  by apply (Hzero Ht Hc Hn j radio c).
Qed.

Lemma flat_groups_shipping : flat_groups (started Forms.shipping).
Proof.
  intros c g Hin. vm_compute in Hin.
  apply elem_of_cons in Hin as [[= -> ->] | Hin]; [reflexivity|].
  apply elem_of_cons in Hin as [[= -> ->] | Hin]; [reflexivity|].
  by apply elem_of_nil in Hin.
Qed.

Lemma inputListener_radio_zeroes_others_witness :
  exists st',
    inputListener 2 0 "standard" (started Forms.shipping) = Some st'
    /\ inputValues st' !! "express" = Some (VNum Num.zero).
Proof.
  apply (inputListener_radio_zeroes_others 0 0 "standard"
           (Forms.radio "standard" "ship" "shipping" "5" true)
           (started Forms.shipping)
           1 (Forms.radio "express" "ship" "shipping" "9" false) "express").
  - exact flat_groups_shipping.
  - (vm_compute; reflexivity).
  - reflexivity.
  - reflexivity.
  - discriminate.
  - (vm_compute; reflexivity).
  - lia.
  - reflexivity.
  - reflexivity.
  - discriminate.
  - (vm_compute; reflexivity).
Defined.

(* ===================================================================== *)
(** * Groups follow their members *)
(* ===================================================================== *)

(** The value of a group depends on the page and on the members and the
    kind of the group only. *)
Lemma computeGroupValue_ext (st st' : Calc) (group group' : Group) :
  container st' = container st ->
  g_elements group' = g_elements group ->
  g_isRadioGroup group' = g_isRadioGroup group ->
  computeGroupValue st' group' = computeGroupValue st group.
Proof.
  intros Hc He Hr. unfold computeGroupValue, group_elements. by rewrite Hc, He, Hr.
Qed.


Lemma for_each_app {A S : Type} (f : A -> S -> option S) (l1 l2 : list A) (s : S) :
  for_each f (l1 ++ l2) s = for_each f l1 s ≫= for_each f l2.
Proof.
  revert s. induction l1 as [| a l1 IH]; intros s; [reflexivity|]. cbn.
  destruct (f a s) as [s1|]; [apply IH | reflexivity].
Qed.

(** On flat groups, an emission for a member's id leaves in every group
    subscribed for that id, and in the store under the group's name, the
    value computed from the page. *)
Lemma emit_updates (fuel : nat) (cellId groupName : string) (group : Group)
    (st : Calc) :
  flat_groups st ->
  GroupMember cellId groupName ∈ events st ->
  groups st !! groupName = Some group ->
  exists st',
    emit (S (S fuel)) cellId st = Some st'
    /\ group_step st st'
    /\ inputValues st' !! groupName = Some (VNum (computeGroupValue st group))
    /\ g_value <$> groups st' !! groupName = Some (computeGroupValue st group).
Proof.
  intros Hflat Hin Hg. rewrite emit_S.
  set (F := fun callback st =>
              match callback with
              | GroupMember c g =>
                  if String.eqb c cellId
                  then updateGroupValue (emit (S fuel)) g st
                  else Some st
              end).
  set (V := computeGroupValue st group).
  set (Inv := fun s : Calc =>
                group_step st s
                /\ forall k grp0, groups st !! k = Some grp0 ->
                      exists grp', groups s !! k = Some grp'
                                   /\ g_elements grp' = g_elements grp0
                                   /\ g_isRadioGroup grp' = g_isRadioGroup grp0).
  set (Done := fun s : Calc =>
                 inputValues s !! groupName = Some (VNum V)
                 /\ g_value <$> groups s !! groupName = Some V).
  assert (Hupd : forall g s, Inv s ->
             exists s', updateGroupValue (emit (S fuel)) g s = Some s' /\ Inv s'
                        /\ (g = groupName -> Done s')
                        /\ (Done s -> Done s')).
  { intros g s [Hstep Hmem].
    assert (Hflats : flat_groups s) by (by eapply flat_groups_step).
    destruct (groups s !! g) as [grp|] eqn:Hgs.
    - rewrite (updateGroupValue_flat fuel g grp s Hflats Hgs).
      eexists. split; [reflexivity|]. split; [split|split].
      + eapply group_step_trans; [done|]. by apply groupUpdated_step.
      + intros k grp0 Hk. destruct (Hmem k grp0 Hk) as (grp' & Hk' & He & Hr).
        cbn. destruct (decide (g = k)) as [<- | Hne].
        * rewrite lookup_insert_eq. eexists. split; [reflexivity|]. cbn.
          rewrite Hgs in Hk'. injection Hk' as ->. done.
        * rewrite lookup_insert_ne by done. eauto.
      + intros ->. destruct (Hmem groupName group Hg) as (grp' & Hk' & He & Hr).
        rewrite Hgs in Hk'. injection Hk' as <-.
        assert (HV : computeGroupValue s grp = V).
        { apply computeGroupValue_ext; [apply (gs_container _ _ Hstep) | done | done]. }
        split; cbn; rewrite lookup_insert_eq; cbn; by rewrite HV.
      + intros [Hd1 Hd2]. destruct (decide (g = groupName)) as [-> | Hne].
        * destruct (Hmem groupName group Hg) as (grp' & Hk' & He & Hr).
          rewrite Hgs in Hk'. injection Hk' as <-.
          assert (HV : computeGroupValue s grp = V).
          { apply computeGroupValue_ext; [apply (gs_container _ _ Hstep) | done | done]. }
          split; cbn; rewrite lookup_insert_eq; cbn; by rewrite HV.
        * split; cbn; by rewrite lookup_insert_ne.
    - unfold updateGroupValue. rewrite Hgs. exists s.
      split; [reflexivity|]. split; [by split|]. split; [|done].
      intros ->. destruct (Hmem groupName group Hg) as (grp' & Hk' & _).
      congruence. }
  assert (HF : forall cb s, Inv s ->
             exists s', F cb s = Some s' /\ Inv s' /\ (Done s -> Done s')).
  { intros [c g] s Hs. unfold F. destruct (String.eqb c cellId).
    - destruct (Hupd g s Hs) as (s' & Hrun & Hs' & _ & Hd). eauto.
    - eauto. }
  apply list_elem_of_split in Hin as (l1 & l2 & Hsplit).
  rewrite Hsplit, for_each_app.
  destruct (for_each_invariant Inv F l1 st) as (s1 & -> & Hs1).
  { intros cb s _ Hs. destruct (HF cb s Hs) as (s' & ? & ? & _). eauto. }
  { split; [apply group_step_refl|]. eauto. }
  cbn [mbind option_bind for_each]. unfold F at 1. rewrite String.eqb_refl.
  destruct (Hupd groupName s1 Hs1) as (s2 & -> & Hs2 & Hdone & _).
  destruct (for_each_invariant (fun s => Inv s /\ Done s) F l2 s2) as (s3 & -> & Hs3 & Hd3).
  { intros cb s _ [Hs Hd]. destruct (HF cb s Hs) as (s' & ? & ? & Hd'). eauto. }
  { split; [done | by apply Hdone]. }
  exists s3. split; [done|]. split; [apply Hs3|]. exact Hd3.
Qed.

(** When the listener of a member of a group runs, the group is brought
    up to date: the group and the store, under the group's name, hold the
    value computed from the members as they are on the page. *)
Lemma inputListener_updates (fuel : nat) (i : nat) (cellId : string)
    (element : Element) (st : Calc) (groupName : string) (group : Group) :
  flat_groups st ->
  container st !! i = Some element ->
  GroupMember cellId groupName ∈ events st ->
  groups st !! groupName = Some group ->
  exists st',
    inputListener (S (S fuel)) i cellId st = Some st'
    /\ event_step st st'
    /\ container st' = container st
    /\ inputValues st' !! groupName = Some (VNum (computeGroupValue st group))
    /\ getGroupValue st' groupName = computeGroupValue st group.
Proof.
  intros Hflat Hel Hin Hg. unfold inputListener. rewrite Hel.
  destruct (handleRadioChange_store i element st) as (m & Hm & _).
  match goal with |- context [emit _ _ (store_set _ ?v ?s)] =>
    set (st2 := store_set cellId v s)
  end.
  assert (Hst2 : exists m', st2 = with_inputValues m' st).
  { unfold st2. destruct (_ && _); [rewrite Hm|]; by eexists. }
  destruct Hst2 as [m' Hst2]. clearbody st2. subst st2.
  destruct (emit_updates fuel cellId groupName group (with_inputValues m' st))
    as (st' & Hrun & Hstep & Hval & Hgv); [done | done | done |].
  exists st'. split; [exact Hrun|]. split; [|split; [|split]].
  - eapply event_step_trans; [|by apply group_step_event_step]. by split.
  - apply (gs_container _ _ Hstep).
  - exact Hval.
  - unfold getGroupValue. destruct (groups st' !! groupName) as [g'|]; [|done].
    cbn in Hgv. by injection Hgv.
Qed.

(** Groups follow their members: when the listener of a member of a
    group runs, [getGroupValue] and the store entry under the group's
    name both give the value computed from the members as they then are
    on the page. *)
Theorem inputListener_updates_group (fuel : nat) (i : nat) (cellId : string)
    (element : Element) (st : Calc) (groupName : string) (group : Group) :
  flat_groups st ->
  container st !! i = Some element ->
  GroupMember cellId groupName ∈ events st ->
  groups st !! groupName = Some group ->
  exists st',
    inputListener (S (S fuel)) i cellId st = Some st'
    /\ inputValues st' !! groupName = Some (VNum (computeGroupValue st group))
    /\ getGroupValue st' groupName = computeGroupValue st group
    /\ container st' = container st.
Proof.
  intros Hflat Hel Hin Hg.
  destruct (inputListener_updates fuel i cellId element st groupName group)
    as (st' & Hrun & _ & Hc & Hval & Hgv); try done.
  by exists st'.
Qed.


Lemma inputListener_updates_group_witness :
  exists st',
    inputListener 2 1 "express"
      (with_container (write_checked 1 true Page.extras) (started Page.extras))
    = Some st'
    /\ getGroupValue st' "extras" = Num.of_Z 15.
Proof.
  assert (Hg : exists group, groups (started Page.extras) !! "extras" = Some group).
  { vm_compute; eauto. }
  destruct Hg as (group & Hg).
  assert (Hvalue : computeGroupValue
                  (with_container (write_checked 1 true Page.extras)
                                  (started Page.extras)) group
                = Num.of_Z 15).
  { vm_compute in Hg. injection Hg as <-. vm_compute; reflexivity. }
  assert (Hin : GroupMember "express" "extras" ∈ events (started Page.extras)).
  { vm_compute; right; left. }
  pose proof flat_groups_extras as Hflat.
  revert Hg Hvalue Hin Hflat. generalize (started Page.extras). intros st Hg Hvalue Hin Hflat.
  destruct (inputListener_updates_group 0 1 "express"
              (Page.checkbox "express" "extras" "10" true)
              (with_container (write_checked 1 true Page.extras) st)
              "extras" group)
    as (st' & Hrun & _ & Hgv & _);
    [exact Hflat | reflexivity | exact Hin | exact Hg |].
  exists st'. split; [exact Hrun|]. by rewrite Hgv.
Defined.

(* ===================================================================== *)
(** * Setters *)
(* ===================================================================== *)

(** What [setValue] leaves under the id it was given, on flat groups: the
    value supplied, or a number a listener has stored. *)
Lemma setValue_number (H : Host) (fuel : nat) (cellId : string) (v : value)
    (st : Calc) :
  flat_groups st ->
  groups st !! cellId = None ->
  exists st',
    setValue (S (S fuel)) cellId v st = Some st'
    /\ (inputValues st' !! cellId = Some v
        \/ exists x, inputValues st' !! cellId = Some (VNum x)
                     /\ Num.isNaN x = false).
Proof.
  intros Hflat Hg. unfold setValue.
  set (st1 := store_set cellId v st).
  match goal with |- context [match ?u with Some _ => _ | None => None end] =>
    assert (Hupd : exists st2,
               u = Some st2 /\ event_step st st2
               /\ (inputValues st2 !! cellId = Some v
                   \/ exists x, inputValues st2 !! cellId = Some (VNum x)
                                /\ Num.isNaN x = false))
  end.
  { assert (Hst1 : event_step st st1) by (by split).
    assert (Hv1 : inputValues st1 !! cellId = Some v) by apply lookup_insert_eq.
    destruct (inputElements st1 !! cellId) as [i|]; [|by eauto 6].
    destruct (container st1 !! i) as [element|] eqn:Hel; [|by eauto 6].
    destruct (setValue_element H v i element (container st) Hel)
      as (element' & Hel' & Hshape & _).
    match goal with |- context [with_container ?c st1] =>
      set (st1c := with_container c st1);
      assert (Hc : shape <$> c = shape <$> container st)
    end.
    { destruct (getElementType element).
      - by apply (shape_insert _ i element).
      - destruct (List.find _ _); [|done]. by apply (shape_insert _ i element).
      - apply shape_write_checked.
      - apply shape_write_checked. }
    assert (Hst1c : event_step st st1c) by (by split).
    unfold dispatchEvent.
    destruct (listeners st1c !! i) as [[t c']|]; [|by eauto 6].
    destruct (DomEvent_eqb t EvChange); [|by eauto 6].
    destruct (inputListener_flat fuel i c' element' st1c) as (st2 & m & Hrun & Hstep & Hm & _);
      [exact Hflat | exact Hel' |].
    exists st2. split; [exact Hrun|]. split.
    - eapply event_step_trans; [exact Hst1c|].
      eapply event_step_trans; [|by apply group_step_event_step]. by split.
    - rewrite (gs_values _ _ Hstep) by exact Hg. cbn.
      destruct (decide (c' = cellId)) as [-> | Hne].
      + rewrite lookup_insert_eq. right. eexists. split; [reflexivity|].
        apply getElementValue_not_NaN.
      + rewrite lookup_insert_ne by done.
        destruct (Hm cellId) as [-> | ->].
        * left. exact Hv1.
        * right. by exists Num.zero. }
  destruct Hupd as (st2 & -> & Hstep2 & Hv2).
  destruct (emit_flat fuel cellId st2 (flat_groups_event_step _ _ Hstep2 Hflat))
    as (st' & -> & Hstep').
  exists st'. split; [done|].
  rewrite (gs_values _ _ Hstep'); [done|]. by apply (es_groups _ _ Hstep2).
Qed.

(** A click on a setter aimed at a cell leaves a number in the cell, and
    never [NaN], whatever the text of the setter's value: the text goes
    through [parseNumeric], and a listener that reacts stores a reading.
    When no listener for [change] reacts, the cell holds the parsed
    value. *)
Theorem SetterManager_setValue_stores_number (H : Host) (fuel : nat)
    (targetId setValue' : string) (st : Calc) :
  flat_groups st ->
  groups st !! targetId = None ->
  exists st' x,
    SetterManager_setValue (S (S fuel)) targetId setValue' st = Some st'
    /\ inputValues st' !! targetId = Some (VNum x)
    /\ Num.isNaN x = false
    /\ ((forall i c, inputElements st !! targetId = Some i ->
                     listeners st !! i <> Some (EvChange, c)) ->
        x = parseNumeric (VStr setValue')).
Proof.
  intros Hflat Hg. unfold SetterManager_setValue.
  rewrite bool_decide_eq_false_2 by (rewrite Hg; by intros [? ?]).
  destruct (setValue_number H fuel targetId (VNum (parseNumeric (VStr setValue'))) st
              Hflat Hg) as (st' & Hrun & Hv).
  assert (Hx : exists x, inputValues st' !! targetId = Some (VNum x)
                         /\ Num.isNaN x = false).
  { destruct Hv as [Hv | Hv]; [|done]. eexists. split; [exact Hv|].
    apply finite_not_NaN, parseNumeric_isFinite. }
  destruct Hx as (x & Hx & Hnan).
  exists st', x. split; [exact Hrun|]. split; [exact Hx|]. split; [exact Hnan|].
  intros Hquiet.
  destruct (setValue_stores H fuel targetId (VNum (parseNumeric (VStr setValue'))) st
              Hflat Hg Hquiet) as (st'' & Hrun' & Hv' & _).
  rewrite Hrun in Hrun'. injection Hrun' as <-. rewrite Hx in Hv'. by injection Hv'.
Qed.

Lemma SetterManager_setValue_stores_number_witness :
  exists st' x,
    @SetterManager_setValue arith_host 2 "qty" "NaN" (started Page.bounded_quantity)
    = Some st'
    /\ inputValues st' !! "qty" = Some (VNum x)
    /\ Num.isNaN x = false.
Proof.
  destruct (SetterManager_setValue_stores_number arith_host 0 "qty" "NaN"
              (started Page.bounded_quantity))
    as (st' & x & Hrun & Hx & Hnan & _).
  - apply flat_groups_no_events. reflexivity.
  - reflexivity.
  - by exists st', x.
Defined.

Lemma setGroupValue_spec (fuel : nat) (groupName setValue' : string) (st : Calc) :
  setGroupValue fuel groupName setValue' st
  = match groups st !! groupName with
    | None => Some st
    | Some group =>
        if g_isRadioGroup group then
          match List.find (setterMatches st setValue') (g_elements group) with
          | Some targetRadio =>
              dispatchEvent fuel EvChange targetRadio
                (with_container (write_checked targetRadio true (container st)) st)
          | None => Some st
          end
        else Some st
    end.
Proof. reflexivity. Qed.

(** A setter aimed at a group never hands its value to [setValue]: when
    the group is not a radio group, or when no radio button of the group
    has the setter's value, the click changes nothing at all. *)
Theorem SetterManager_setValue_group_unchanged (H : Host) (fuel : nat)
    (groupName setValue' : string) (st : Calc) (group : Group) :
  groups st !! groupName = Some group ->
  g_isRadioGroup group = false
  \/ List.find (setterMatches st setValue') (g_elements group) = None ->
  SetterManager_setValue fuel groupName setValue' st = Some st.
Proof.
  intros Hg Hcase. unfold SetterManager_setValue.
  rewrite bool_decide_eq_true_2 by (rewrite Hg; eauto).
  rewrite setGroupValue_spec, Hg.
  destruct (g_isRadioGroup group); [|done].
  destruct Hcase as [? | ->]; done.
Qed.

Lemma SetterManager_setValue_group_unchanged_witness :
  @SetterManager_setValue arith_host 2 "extras" "99" (started Page.extras)
  = Some (started Page.extras).
Proof.
  assert (Hg : exists group,
             groups (started Page.extras) !! "extras" = Some group
             /\ g_isRadioGroup group = false).
  { vm_compute. eauto. }
  destruct Hg as (group & Hg & Hr).
  exact (SetterManager_setValue_group_unchanged arith_host 2 "extras" "99"
           (started Page.extras) group Hg (or_introl Hr)).
Defined.





(* ===================================================================== *)
(** * The table of groups *)
(* ===================================================================== *)

Lemma groupMap_add_keys (g : string) (i : nat) (gm : list (string * list nat)) :
  (groupMap_add g i gm).*1 = if decide (g ∈ gm.*1) then gm.*1 else gm.*1 ++ [g].
Proof.
  induction gm as [| [g' ms] gm IH]; cbn.
  - rewrite decide_False; [done|]. intros Hin. by apply elem_of_nil in Hin.
  - destruct (String.eqb_spec g' g) as [-> | Hne]; cbn.
    + rewrite decide_True; [done | left].
    + rewrite IH. destruct (decide (g ∈ gm.*1)) as [Hin | Hnin].
      * rewrite decide_True; [done | by right].
      * rewrite decide_False; [done|]. intros Hin.
        apply elem_of_cons in Hin as [-> | Hin]; done.
Qed.

Lemma groupMap_add_NoDup (g : string) (i : nat) (gm : list (string * list nat)) :
  NoDup gm.*1 -> NoDup (groupMap_add g i gm).*1.
Proof.
  intros Hnd. rewrite groupMap_add_keys. destruct (decide _) as [Hin | Hnin]; [done|].
  apply NoDup_app. split; [done|]. split; [|apply NoDup_singleton].
  intros x Hx Hx'. apply list_elem_of_singleton in Hx' as ->. done.
Qed.

Lemma groupMap_add_lookup (g : string) (i : nat) (gm : list (string * list nat)) :
  (list_to_map (groupMap_add g i gm) : gmap string (list nat))
  = <[g := default [] ((list_to_map gm : gmap string (list nat)) !! g) ++ [i]]>
      (list_to_map gm).
Proof.
  induction gm as [| [g' ms] gm IH]; cbn.
  - by rewrite lookup_empty.
  - destruct (String.eqb_spec g' g) as [-> | Hne]; cbn.
    + rewrite lookup_insert_eq. cbn. by rewrite insert_insert_eq.
    + rewrite IH, lookup_insert_ne by done. by apply insert_insert_ne.
Qed.

Lemma groupMap_add_nonempty (g : string) (i : nat) (gm : list (string * list nat)) :
  (forall k ms, (k, ms) ∈ gm -> ms <> []) ->
  forall k ms, (k, ms) ∈ groupMap_add g i gm -> ms <> [].
Proof.
  induction gm as [| [g' ms'] gm IH]; cbn; intros Hne k ms Hin.
  - apply list_elem_of_singleton in Hin. injection Hin as -> ->. done.
  - destruct (String.eqb_spec g' g) as [-> | Hg].
    + apply elem_of_cons in Hin as [[= -> ->] | Hin].
      * by destruct ms'.
      * apply (Hne k ms). by right.
    + apply elem_of_cons in Hin as [[= -> ->] | Hin].
      * apply (Hne g' ms'). left.
      * eapply IH; [|exact Hin]. intros k' ms'' Hk'. apply (Hne k' ms''). by right.
Qed.

(** The table of groups: every group is listed once, with the members
    that join it, in document order, and no group is listed without
    members. *)
Lemma groupMapOf_spec (config : Config) (elements : list Element) :
  NoDup (groupMapOf config elements).*1
  /\ (forall g ms, (g, ms) ∈ groupMapOf config elements ->
        ms <> [] /\ ms = membersOf config g elements)
  /\ (forall g, membersOf config g elements <> [] ->
        (g, membersOf config g elements) ∈ groupMapOf config elements).
Proof.
  unfold groupMapOf.
  set (step := fun (groupMap : list (string * list nat)) i =>
                 match elements !! i with
                 | None => groupMap
                 | Some element =>
                     match truthy_string (getAttribute element "data-alphacalc-group"),
                           truthy_string (getCellId config element) with
                     | Some groupName, Some _ => groupMap_add groupName i groupMap
                     | _, _ => groupMap
                     end
                 end).
  set (member := fun g i => match elements !! i with
                            | Some el => joins config g el
                            | None => false
                            end).
  assert (Hfold : forall l gm,
             NoDup gm.*1 -> (forall k ms, (k, ms) ∈ gm -> ms <> []) ->
             NoDup (fold_left step l gm).*1
             /\ (forall k ms, (k, ms) ∈ fold_left step l gm -> ms <> [])
             /\ forall g,
                  default [] ((list_to_map (fold_left step l gm)
                               : gmap string (list nat)) !! g)
                  = default [] ((list_to_map gm : gmap string (list nat)) !! g)
                    ++ List.filter (member g) l).
  { induction l as [| i l IH]; intros gm Hnd Hne; cbn [fold_left List.filter].
    - split; [done|]. split; [done|]. intros g. by rewrite app_nil_r.
    - assert (Hstep : NoDup (step gm i).*1
                      /\ (forall k ms, (k, ms) ∈ step gm i -> ms <> [])
                      /\ forall g,
                           default [] ((list_to_map (step gm i)
                                        : gmap string (list nat)) !! g)
                           = default [] ((list_to_map gm : gmap string (list nat)) !! g)
                             ++ (if member g i then [i] else [])).
      { unfold step, member, joins, membership.
        destruct (elements !! i) as [el|];
          [|split; [done|]; split; [done|]; intros g; by rewrite app_nil_r].
        destruct (truthy_string (getAttribute el "data-alphacalc-group")) as [g0|];
          [|split; [done|]; split; [done|]; intros g; by rewrite app_nil_r].
        destruct (truthy_string (getCellId config el)) as [c0|];
          [|split; [done|]; split; [done|]; intros g; by rewrite app_nil_r].
        split; [by apply groupMap_add_NoDup|].
        split; [by apply groupMap_add_nonempty|].
        intros g. rewrite groupMap_add_lookup.
        destruct (String.eqb_spec g0 g) as [-> | Hg].
        - by rewrite lookup_insert_eq.
        - rewrite lookup_insert_ne by done. by rewrite app_nil_r. }
      destruct Hstep as (Hnd1 & Hne1 & Hl1).
      destruct (IH (step gm i) Hnd1 Hne1) as (Hnd2 & Hne2 & Hl2).
      split; [done|]. split; [done|]. intros g. rewrite Hl2, Hl1, <- app_assoc.
      f_equal. by destruct (member g i). }
  destruct (Hfold (selected (fun el => hasAttribute el "data-alphacalc-group") 0 elements) [])
    as (Hnd & Hne & Hl); [constructor | by intros k ms Hin; apply elem_of_nil in Hin |].
  assert (Hmem : forall g,
             List.filter (member g)
               (selected (fun el => hasAttribute el "data-alphacalc-group") 0 elements)
             = membersOf config g elements).
  { intros g. unfold membersOf, member.
    assert (Hgen : forall (c : list Element) (k : nat),
               List.filter (fun i => match c !! (i - k)%nat with
                                     | Some el => joins config g el
                                     | None => false
                                     end)
                 (selected (fun el => hasAttribute el "data-alphacalc-group") k c)
               = selected (joins config g) k c).
    { induction c as [| x c IHc]; intros k; [reflexivity|].
      rewrite !selected_cons, List.filter_app.
      assert (Htail : List.filter
                        (fun i => match (x :: c) !! (i - k)%nat with
                                  | Some el => joins config g el
                                  | None => false
                                  end)
                        (selected (fun el => hasAttribute el "data-alphacalc-group") (S k) c)
                      = selected (joins config g) (S k) c).
      { rewrite <- IHc. apply List.filter_ext_in. intros i Hi.
        apply list_elem_of_In, elem_of_selected in Hi as [Hle _].
        replace (i - k)%nat with (S (i - S k)) by lia. done. }
      rewrite Htail. f_equal.
      destruct (hasAttribute x "data-alphacalc-group") eqn:Hx; cbn.
      - rewrite Nat.sub_diag. cbn. by destruct (joins config g x).
      - unfold joins, membership, hasAttribute in *.
        destruct (getAttribute x "data-alphacalc-group"); [|done].
        apply bool_decide_eq_false in Hx. destruct Hx. eauto. }
    rewrite <- (Hgen elements 0%nat).
    apply List.filter_ext. intros i. by rewrite Nat.sub_0_r. }
  split; [exact Hnd|]. split.
  - intros g ms Hin. split; [by apply (Hne g ms)|].
    apply (elem_of_list_to_map (M := gmap string)) in Hin; [|exact Hnd].
    specialize (Hl g). rewrite Hin in Hl. cbn in Hl.
    by rewrite Hl, Hmem.
  - intros g Hg. apply (elem_of_list_to_map (M := gmap string)); [exact Hnd|].
    specialize (Hl g). cbn in Hl. rewrite Hmem in Hl.
    destruct (list_to_map _ !! g) as [ms|]; cbn in Hl; [by rewrite Hl | done].
Qed.

(* ===================================================================== *)
(** * Creating the groups *)
(* ===================================================================== *)

Lemma GroupManager_init_fold (fuel : nat) (st : Calc) :
  GroupManager_init fuel st
  = for_each (fun '(groupName, elements) st => createGroup fuel groupName elements st)
             (groupMapOf (calc_config st) (container st)) st.
Proof. reflexivity. Qed.

Lemma with_events_id (st : Calc) : with_events (events st) st = st.
Proof. by destruct st. Qed.

Lemma fold_subscribers (config : Config) (g : string) (els : list Element) (st : Calc) :
  calc_config st = config ->
  fold_left
    (fun st el =>
       with_events
         (events st ++ [GroupMember (default "" (getCellId (calc_config st) el)) g]) st)
    els st
  = with_events
      (events st
       ++ map (fun el => GroupMember (default "" (getCellId config el)) g) els) st.
Proof.
  revert st. induction els as [| el els IH]; intros st Hcfg; cbn [fold_left map].
  - by rewrite app_nil_r, with_events_id.
  - rewrite IH by done. cbn. rewrite Hcfg, <- app_assoc. reflexivity.
Qed.

(** [createGroup] where no subscriber listens to the id [groupName]. *)
Lemma createGroup_flat (fuel : nat) (groupName : string)
    (members : list nat) (st : Calc) :
  flat_groups st ->
  (forall c g, GroupMember c g ∈ events st -> c <> groupName) ->
  exists st' v,
    createGroup (S fuel) groupName members st = Some st'
    /\ v = computeGroupValue st
             {| g_name := groupName; g_elements := members;
                g_isRadioGroup := radioOnly (container st) members;
                g_value := Num.zero |}
    /\ calc_config st' = calc_config st
    /\ container st' = container st
    /\ inputElements st' = inputElements st
    /\ formulaInputs st' = formulaInputs st
    /\ listeners st' = listeners st
    /\ calculations st' = calculations st
    /\ events st'
       = events st ++ subscribersOf (calc_config st) (container st) groupName members
    /\ groups st'
       = <[groupName := {| g_name := groupName; g_elements := members;
                           g_isRadioGroup := radioOnly (container st) members;
                           g_value := v |}]> (groups st)
    /\ inputValues st' = <[groupName := VNum v]> (inputValues st).
Proof.
  intros Hflat Hno. unfold createGroup.
  fold (radioOnly (container st) members).
  set (group0 := {| g_name := groupName; g_elements := members;
                    g_isRadioGroup := radioOnly (container st) members;
                    g_value := Num.zero |}).
  set (st1 := with_groups (<[groupName := group0]> (groups st)) st).
  assert (Hflat1 : flat_groups st1).
  { intros c g Hin. cbn. rewrite lookup_insert_ne; [by eapply Hflat|].
    intros ->. by eapply Hno. }
  rewrite (updateGroupValue_flat fuel groupName group0 st1 Hflat1)
    by apply lookup_insert_eq.
  rewrite (fold_subscribers (calc_config st)) by done.
  eexists. exists (computeGroupValue st group0).
  split; [reflexivity|]. split; [reflexivity|].
  repeat split; cbn.
  by rewrite insert_insert_eq.
Qed.

Lemma tame_flat (config : Config) (elements : list Element) (st : Calc) :
  flat_page config elements -> tame config elements st -> flat_groups st.
Proof.
  intros Hpage [Hev Hgr] c g Hin.
  destruct (groups st !! c) as [grp|] eqn:Hc; [|done].
  destruct (Hpage c); [by eapply Hev | apply Hgr; eauto].
Qed.

Lemma elem_of_membersOf (config : Config) (g : string) (elements : list Element)
    (i : nat) :
  i ∈ membersOf config g elements <->
  exists el c, elements !! i = Some el /\ membership config el = Some (g, c).
Proof.
  unfold membersOf. rewrite elem_of_selected, Nat.sub_0_r. unfold joins. split.
  - intros (_ & el & Hel & Hj). exists el.
    destruct (membership config el) as [[g' c]|]; [|done].
    apply String.eqb_eq in Hj as ->. eauto.
  - intros (el & c & Hel & Hm). split; [lia|]. exists el. split; [done|].
    rewrite Hm. apply String.eqb_refl.
Qed.

Lemma membership_cell (config : Config) (el : Element) (g c : string) :
  membership config el = Some (g, c) -> getCellId config el = Some c.
Proof.
  unfold membership.
  destruct (truthy_string (getAttribute el "data-alphacalc-group")); [|done].
  unfold truthy_string. destruct (getCellId config el) as [c'|]; [|done].
  destruct (String.eqb c' ""); [done|]. by intros [= _ ->].
Qed.

(** The part of [GroupManager.init] that creates the groups of a table:
    on a flat page every call returns, and the groups, the store and the
    subscribers afterwards are as described. *)
Lemma createGroups_spec (fuel : nat) (config : Config) (c : list Element)
    (l : list (string * list nat)) (st : Calc) :
  flat_page config c ->
  NoDup l.*1 ->
  (forall g ms, (g, ms) ∈ l -> ms <> [] /\ ms = membersOf config g c) ->
  calc_config st = config ->
  container st = c ->
  tame config c st ->
  exists st',
    for_each (fun '(groupName, elements) st => createGroup (S fuel) groupName elements st)
             l st = Some st'
    /\ calc_config st' = config
    /\ container st' = c
    /\ inputElements st' = inputElements st
    /\ formulaInputs st' = formulaInputs st
    /\ listeners st' = listeners st
    /\ calculations st' = calculations st
    /\ tame config c st'
    /\ events st' = events st ++ flat_map (fun '(g, ms) => subscribersOf config c g ms) l
    /\ (forall g ms, (g, ms) ∈ l ->
          exists grp,
            groups st' !! g = Some grp
            /\ g_elements grp = ms
            /\ g_isRadioGroup grp = radioOnly c ms
            /\ g_value grp = computeGroupValue st' grp
            /\ inputValues st' !! g = Some (VNum (g_value grp)))
    /\ (forall g, g ∉ l.*1 ->
          groups st' !! g = groups st !! g
          /\ inputValues st' !! g = inputValues st !! g).
Proof.
  intros Hpage. revert st. induction l as [| [g ms] l IH]; intros st Hnd Hl Hcfg Hc Htame.
  { exists st. cbn. rewrite app_nil_r.
    split; [done|]. split; [done|]. split; [done|]. split; [done|].
    split; [done|]. split; [done|]. split; [done|]. split; [done|].
    split; [done|]. split; [|done].
    intros g ms Hin. by apply elem_of_nil in Hin. }
  cbn [for_each].
  apply NoDup_cons in Hnd as [Hg Hnd]. cbn [fmap list_fmap fst] in Hg.
  destruct (Hl g ms) as [Hne Hms]; [left|].
  assert (Hname : groupNameOf config c g).
  { destruct ms as [| i ms']; [done|].
    assert (Hi : i ∈ membersOf config g c) by (rewrite <- Hms; left).
    apply elem_of_membersOf in Hi as (el & ci & Hel & Hm).
    exists el, ci. split; [by eapply list_elem_of_lookup_2 | done]. }
  destruct (createGroup_flat fuel g ms st) as
    (st1 & v & -> & Hv & Hcfg1 & Hc1 & Hie1 & Hfi1 & Hli1 & Hca1 & Hev1 & Hgr1 & Hiv1).
  { by eapply tame_flat. }
  { intros c' g' Hin ->. destruct Htame as [Hev _].
    by destruct (Hpage g (Hev _ _ Hin)). }
  rewrite Hcfg, Hc in Hev1. rewrite Hc in Hgr1.
  assert (Htame1 : tame config c st1).
  { destruct Htame as [Hev Hgr]. split.
    - intros c' g' Hin. rewrite Hev1 in Hin.
      apply elem_of_app in Hin as [Hin | Hin]; [by eapply Hev|].
      unfold subscribersOf in Hin.
      apply list_elem_of_In, in_map_iff in Hin as (el & Heq & Hin).
      apply list_elem_of_In, list_elem_of_omap in Hin as (i & Hi & Hel).
      rewrite Hms in Hi. apply elem_of_membersOf in Hi as (el' & ci & Hel' & Hm).
      rewrite Hel' in Hel. injection Hel as ->.
      rewrite (membership_cell _ _ _ _ Hm) in Heq. cbn in Heq. injection Heq as <- <-.
      exists el, g. split; [by eapply list_elem_of_lookup_2 | done].
    - intros k Hk. rewrite Hgr1 in Hk.
      destruct (decide (g = k)) as [<- | Hne']; [done|].
      rewrite lookup_insert_ne in Hk by done. by apply Hgr. }
  destruct (IH st1) as
    (st' & Hrun & Hcfg' & Hc' & Hie' & Hfi' & Hli' & Hca' & Htame' & Hev' & Hgr' & Hout');
    [done | by intros g' ms' Hin; apply Hl; right | congruence | congruence | done |].
  exists st'. split; [exact Hrun|].
  split; [done|]. split; [done|]. split; [congruence|]. split; [congruence|].
  split; [congruence|]. split; [congruence|]. split; [done|].
  split; [|split].
  - rewrite Hev', Hev1. cbn [flat_map]. by rewrite <- app_assoc.
  - intros g' ms' Hin. apply elem_of_cons in Hin as [[= -> ->] | Hin]; [|by apply Hgr'].
    destruct (Hout' g Hg) as [Hgg Hgv]. rewrite Hgg, Hgv, Hgr1, Hiv1, !lookup_insert_eq.
    eexists. split; [reflexivity|]. cbn. repeat split; try done.
    rewrite Hv. apply computeGroupValue_ext; [congruence | done | by rewrite Hc].
  - intros g' Hg'. cbn [fmap list_fmap fst] in Hg'.
    apply not_elem_of_cons in Hg' as [Hne' Hg'].
    destruct (Hout' g' Hg') as [-> ->]. rewrite Hgr1, Hiv1.
    by rewrite !lookup_insert_ne.
Qed.

(* ===================================================================== *)
(** * What depends on the shape of the page only *)
(* ===================================================================== *)

Lemma shape_attributes (e e' : Element) :
  shape e = shape e' -> el_attributes e = el_attributes e'.
Proof. unfold shape. congruence. Qed.

Lemma shape_tagName (e e' : Element) :
  shape e = shape e' -> el_tagName e = el_tagName e'.
Proof. unfold shape. congruence. Qed.

Lemma getAttribute_shape (e e' : Element) (name : string) :
  shape e = shape e' -> getAttribute e name = getAttribute e' name.
Proof. intros Hs. unfold getAttribute. by rewrite (shape_attributes _ _ Hs). Qed.

Lemma membership_shape (config : Config) (e e' : Element) :
  shape e = shape e' -> membership config e = membership config e'.
Proof.
  intros Hs. unfold membership.
  by rewrite (getAttribute_shape _ _ _ Hs),
             (getCellId_attributes config e e' (shape_attributes _ _ Hs)).
Qed.

Lemma getElementType_shape (e e' : Element) :
  shape e = shape e' -> getElementType e = getElementType e'.
Proof.
  intros Hs. unfold getElementType.
  by rewrite !(getAttribute_shape _ _ _ Hs), (shape_tagName _ _ Hs).
Qed.

Lemma shape_cons_inv (x : Element) (c c' : list Element) :
  shape <$> c' = shape <$> (x :: c) ->
  exists x' c'', c' = x' :: c'' /\ shape x' = shape x
                 /\ shape <$> c'' = shape <$> c.
Proof.
  destruct c' as [| x' c'']; [done|]. cbn. intros Heq.
  exists x', c''. split; [done|].
  change (shape x' :: (shape <$> c'') = shape x :: (shape <$> c)) in Heq.
  split; congruence.
Qed.

Lemma selected_shape (p : Element -> bool) (k : nat) (c c' : list Element) :
  (forall e e', shape e = shape e' -> p e = p e') ->
  shape <$> c' = shape <$> c ->
  selected p k c' = selected p k c.
Proof.
  intros Hp. revert k c'. induction c as [| x c IH]; intros k c' Hs.
  - by destruct c'.
  - apply shape_cons_inv in Hs as (x' & c'' & -> & Hx & Hs).
    rewrite !selected_cons, (Hp x' x Hx). f_equal. by apply IH.
Qed.

Lemma membersOf_shape (config : Config) (g : string) (c c' : list Element) :
  shape <$> c' = shape <$> c -> membersOf config g c' = membersOf config g c.
Proof.
  apply selected_shape. intros e e' Hs. unfold joins.
  by rewrite (membership_shape _ _ _ Hs).
Qed.

Lemma memberId_shape (config : Config) (c c' : list Element) (k : string) :
  shape <$> c' = shape <$> c -> memberId config c k -> memberId config c' k.
Proof.
  intros Hs (el & g & Hin & Hm).
  apply list_elem_of_lookup in Hin as [i Hi].
  destruct (shape_lookup c c' i el Hs Hi) as (el' & Hi' & Hs').
  exists el', g. split; [by eapply list_elem_of_lookup_2|].
  by rewrite (membership_shape _ _ _ Hs').
Qed.

Lemma groupNameOf_shape (config : Config) (c c' : list Element) (g : string) :
  shape <$> c' = shape <$> c -> groupNameOf config c g -> groupNameOf config c' g.
Proof.
  intros Hs (el & k & Hin & Hm).
  apply list_elem_of_lookup in Hin as [i Hi].
  destruct (shape_lookup c c' i el Hs Hi) as (el' & Hi' & Hs').
  exists el', k. split; [by eapply list_elem_of_lookup_2|].
  by rewrite (membership_shape _ _ _ Hs').
Qed.

Lemma flat_page_shape (config : Config) (c c' : list Element) :
  shape <$> c' = shape <$> c -> flat_page config c -> flat_page config c'.
Proof.
  intros Hs Hflat k Hk Hg.
  apply (Hflat k); [by eapply memberId_shape | by eapply groupNameOf_shape].
Qed.

Lemma tame_shape (config : Config) (c c' : list Element) (st : Calc) :
  shape <$> c' = shape <$> c -> tame config c st -> tame config c' st.
Proof.
  intros Hs [Hev Hgr]. split.
  - intros k g Hin. eapply memberId_shape; [done | by eapply Hev].
  - intros k Hk. eapply groupNameOf_shape; [done | by apply Hgr].
Qed.

(** [InputManager.init] leaves the groups, the subscribers and the shape
    of the page as they are. *)
Lemma InputManager_init_frame (H : Host) (st : Calc) :
  calc_config (InputManager_init st) = calc_config st
  /\ groups (InputManager_init st) = groups st
  /\ events (InputManager_init st) = events st
  /\ calculations (InputManager_init st) = calculations st
  /\ shape <$> container (InputManager_init st) = shape <$> container st.
Proof.
  rewrite InputManager_init_fold.
  destruct (registerInputs_spec H (container st)
              (selected inputSelector 0 (container st)) st)
    as (Hcfg & Hgr & Hev & Hca & Hsh & _); [apply NoDup_selected | done |].
  done.
Qed.

Lemma groupMapOf_members (config : Config) (c : list Element) (g : string) :
  g ∈ (groupMapOf config c).*1 <-> membersOf config g c <> [].
Proof.
  destruct (groupMapOf_spec config c) as (_ & Hin & Hall). split.
  - intros Hg. apply list_elem_of_fmap in Hg as ([g' ms] & -> & Hg).
    destruct (Hin g' ms Hg) as [Hne ->]. done.
  - intros Hne. apply list_elem_of_fmap. exists (g, membersOf config g c).
    split; [done | by apply Hall].
Qed.

Lemma omap_lookup_shape (c c' : list Element) (ms : list nat) :
  shape <$> c' = shape <$> c ->
  shape <$> omap (fun i => c' !! i) ms = shape <$> omap (fun i => c !! i) ms.
Proof.
  intros Hs. induction ms as [| i ms IH]; [done|]. cbn [omap list_omap].
  destruct (c !! i) as [e|] eqn:Hi.
  - destruct (shape_lookup c c' i e Hs Hi) as (e' & -> & He).
    cbn. by rewrite He, IH.
  - assert (Hnone : c' !! i = None).
    { apply lookup_ge_None. apply lookup_ge_None in Hi.
      pose proof (f_equal length Hs) as Hl. rewrite !length_fmap in Hl. lia. }
    by rewrite Hnone.
Qed.

Lemma forallb_shape (p : Element -> bool) (l l' : list Element) :
  (forall e e', shape e = shape e' -> p e = p e') ->
  shape <$> l' = shape <$> l -> forallb p l' = forallb p l.
Proof.
  intros Hp. revert l'. induction l as [| x l IH]; intros l' Hs.
  - by destruct l'.
  - apply shape_cons_inv in Hs as (x' & l'' & -> & Hx & Hs).
    cbn. by rewrite (Hp x' x Hx), (IH l'' Hs).
Qed.

Lemma el_name_shape (e e' : Element) : shape e = shape e' -> el_name e = el_name e'.
Proof.
  intros Hs. unfold el_name, attribute. by rewrite (getAttribute_shape _ _ _ Hs).
Qed.

Lemma radioOnly_shape (c c' : list Element) (ms : list nat) :
  shape <$> c' = shape <$> c -> radioOnly c' ms = radioOnly c ms.
Proof.
  intros Hs. unfold radioOnly. cbv zeta.
  pose proof (omap_lookup_shape c c' ms Hs) as Hels.
  assert (Hhead : default "" (el_name <$> head (omap (fun i => c' !! i) ms))
                  = default "" (el_name <$> head (omap (fun i => c !! i) ms))).
  { destruct (omap (fun i => c !! i) ms) as [| x l].
    - by destruct (omap (fun i => c' !! i) ms).
    - apply shape_cons_inv in Hels as (x' & l' & -> & Hx & _). cbn.
      by apply el_name_shape. }
  rewrite Hhead.
  rewrite (forallb_shape _ _ _ (fun e e' Hs' =>
             f_equal (fun t => ElementType_eqb t ETradio) (getElementType_shape e e' Hs'))
             Hels).
  rewrite (forallb_shape
             (fun el => String.eqb (el_name el)
                          (default "" (el_name <$> head (omap (fun i => c !! i) ms))))
             _ _ (fun e e' Hs' => f_equal (fun n => String.eqb n _) (el_name_shape e e' Hs'))
             Hels).
  reflexivity.
Qed.

(* ===================================================================== *)
(** * The groups of a page *)
(* ===================================================================== *)

(** [GroupManager.init] on a page where no member's cell id is the name
    of a group: it returns; every element with a group attribute and a
    cell id is a member of the group it names, the members in document
    order, and elements without a cell id are left out; a group is a radio
    group exactly if all its members are radio buttons of one name; and
    the group and the store, under the group's name, hold the value
    computed from the members. *)
Theorem GroupManager_init_groups (H : Host) (fuel : nat) (config : Config)
    (elements : list Element) :
  flat_page config elements ->
  exists st,
    GroupManager_init (S fuel) (InputManager_init (blank config elements)) = Some st
    /\ forall g,
         (membersOf config g elements = [] -> groups st !! g = None)
         /\ (membersOf config g elements <> [] ->
             exists group,
               groups st !! g = Some group
               /\ getGroupElements st g = membersOf config g elements
               /\ isRadioGroup st g = radioOnly elements (membersOf config g elements)
               /\ getGroupValue st g = computeGroupValue st group
               /\ inputValues st !! g = Some (VNum (getGroupValue st g))).
Proof.
  intros Hpage.
  set (st1 := InputManager_init (blank config elements)).
  assert (Hst1 : calc_config st1 = config /\ groups st1 = ∅ /\ events st1 = []
                 /\ shape <$> container st1 = shape <$> elements).
  { destruct (InputManager_init_frame H (blank config elements))
      as (Hcfg & Hgr & Hev & _ & Hsh). done. }
  destruct Hst1 as (Hcfg & Hgr & Hev & Hsh).
  rewrite GroupManager_init_fold, Hcfg.
  destruct (groupMapOf_spec config (container st1)) as (Hnd & Hin & _).
  destruct (createGroups_spec fuel config (container st1)
              (groupMapOf config (container st1)) st1)
    as (st & Hrun & _ & Hc & _ & _ & _ & _ & _ & _ & Hgroups & Hout);
    [by eapply flat_page_shape | done | done | done | done | |].
  { split; [intros c g Hg; rewrite Hev in Hg; by apply elem_of_nil in Hg|].
    intros k Hk. rewrite Hgr, lookup_empty in Hk. by destruct Hk. }
  exists st. split; [exact Hrun|]. intros g.
  rewrite <- (membersOf_shape config g elements (container st1) Hsh). split.
  - intros Hnone. destruct (Hout g) as [-> _]; [|by rewrite Hgr].
    rewrite groupMapOf_members. by intros Hne.
  - intros Hne. apply groupMapOf_members in Hne as Hg.
    apply list_elem_of_fmap in Hg as ([g' ms] & Heq & Hg). cbn in Heq. subst g'.
    destruct (Hin g ms Hg) as [_ Hms].
    destruct (Hgroups g ms Hg) as (group & Hgg & Hel & Hr & Hv & Hiv).
    exists group. unfold getGroupElements, isRadioGroup, getGroupValue.
    rewrite Hgg. split; [done|]. split; [congruence|]. split; [|split; done].
    rewrite Hr, Hms. by apply radioOnly_shape.
Qed.

Lemma flat_page_extras : flat_page DEFAULT_CONFIG Page.extras.
Proof.
  intros k (el & g & Hel & Hm) (el' & c & Hel' & Hm').
  repeat (apply elem_of_cons in Hel as [-> | Hel]); [| |by apply elem_of_nil in Hel];
    vm_compute in Hm; injection Hm as <- <-;
    repeat (apply elem_of_cons in Hel' as [-> | Hel']);
    try (by apply elem_of_nil in Hel'); vm_compute in Hm'; discriminate.
Qed.

Lemma GroupManager_init_groups_witness :
  exists st group,
    GroupManager_init 1 (@InputManager_init arith_host (blank DEFAULT_CONFIG Page.extras))
    = Some st
    /\ groups st !! "extras" = Some group
    /\ getGroupElements st "extras" = [0; 1]%nat
    /\ isRadioGroup st "extras" = false.
Proof.
  destruct (GroupManager_init_groups arith_host 0 DEFAULT_CONFIG Page.extras
              flat_page_extras) as (st & Hrun & Hg).
  destruct (Hg "extras") as [_ Hsome].
  destruct Hsome as (group & Hgroup & Hel & Hr & _); [discriminate|].
  exists st, group. split; [exact Hrun|]. split; [exact Hgroup|].
  split; [by rewrite Hel | by rewrite Hr].
Defined.

(* ===================================================================== *)
(** * Construction *)
(* ===================================================================== *)



(* ===================================================================== *)
(** * Destroying and initializing again *)
(* ===================================================================== *)

Lemma step_shape (config : Config) (c c' : list Element)
    (gm : list (string * list nat)) (i : nat) :
  shape <$> c' = shape <$> c ->
  match c' !! i with
  | None => gm
  | Some element =>
      match truthy_string (getAttribute element "data-alphacalc-group"),
            truthy_string (getCellId config element) with
      | Some groupName, Some _ => groupMap_add groupName i gm
      | _, _ => gm
      end
  end
  = match c !! i with
    | None => gm
    | Some element =>
        match truthy_string (getAttribute element "data-alphacalc-group"),
              truthy_string (getCellId config element) with
        | Some groupName, Some _ => groupMap_add groupName i gm
        | _, _ => gm
        end
    end.
Proof.
  intros Hs. destruct (c !! i) as [e|] eqn:Hi.
  - destruct (shape_lookup c c' i e Hs Hi) as (e' & -> & He).
    by rewrite (getAttribute_shape _ _ _ He),
               (getCellId_attributes config e' e (shape_attributes _ _ He)).
  - assert (Hnone : c' !! i = None).
    { apply lookup_ge_None. apply lookup_ge_None in Hi.
      pose proof (f_equal length Hs) as Hl. rewrite !length_fmap in Hl. lia. }
    by rewrite Hnone.
Qed.

Lemma groupMapOf_shape (config : Config) (c c' : list Element) :
  shape <$> c' = shape <$> c -> groupMapOf config c' = groupMapOf config c.
Proof.
  intros Hs. unfold groupMapOf.
  rewrite (selected_shape _ 0 c c'); [|intros e e' He|done].
  - apply fold_left_ext_in. intros gm i _. by apply step_shape.
  - unfold hasAttribute. by rewrite (getAttribute_shape _ _ _ He).
Qed.

Lemma map_shape {B : Type} (f : Element -> B) (l l' : list Element) :
  (forall e e', shape e = shape e' -> f e = f e') ->
  shape <$> l' = shape <$> l -> map f l' = map f l.
Proof.
  intros Hf. revert l'. induction l as [| x l IH]; intros l' Hs.
  - by destruct l'.
  - apply shape_cons_inv in Hs as (x' & l'' & -> & Hx & Hs).
    cbn. by rewrite (Hf x' x Hx), (IH l'' Hs).
Qed.

Lemma subscribersOf_shape (config : Config) (c c' : list Element) (g : string)
    (ms : list nat) :
  shape <$> c' = shape <$> c ->
  subscribersOf config c' g ms = subscribersOf config c g ms.
Proof.
  intros Hs. unfold subscribersOf. apply map_shape.
  - intros e e' He. by rewrite (getCellId_attributes config e e' (shape_attributes _ _ He)).
  - by apply omap_lookup_shape.
Qed.

Lemma flat_map_subscribers_shape (config : Config) (c c' : list Element)
    (l : list (string * list nat)) :
  shape <$> c' = shape <$> c ->
  flat_map (fun '(g, ms) => subscribersOf config c' g ms) l
  = flat_map (fun '(g, ms) => subscribersOf config c g ms) l.
Proof.
  intros Hs. induction l as [| [g ms] l IH]; [done|]. cbn.
  by rewrite IH, (subscribersOf_shape config c c' g ms Hs).
Qed.

(** [initialize] on a calculator whose page is flat and whose groups and
    subscribers are those of the page: it returns, and it adds the
    subscribers of the page to those there are. *)
Lemma initialize_spec (H : Host) (fuel : nat) (st0 : Calc) :
  flat_page (calc_config st0) (container st0) ->
  tame (calc_config st0) (container st0) st0 ->
  exists st,
    initialize (S (S fuel)) st0 = Some st
    /\ calc_config st = calc_config st0
    /\ shape <$> container st = shape <$> container st0
    /\ tame (calc_config st0) (container st0) st
    /\ flat_groups st
    /\ events st
       = events st0
         ++ flat_map (fun '(g, ms) => subscribersOf (calc_config st0) (container st0) g ms)
                     (groupMapOf (calc_config st0) (container st0))
    /\ calculations st = calculations st0.
Proof.
  intros Hpage Htame0. unfold initialize.
  set (config := calc_config st0). set (c := container st0).
  set (st1 := InputManager_init st0).
  destruct (InputManager_init_frame H st0) as (Hcfg & Hgr & Hev & Hca & Hsh).
  fold st1 config c in Hcfg, Hgr, Hev, Hca, Hsh.
  assert (Htame1 : tame config (container st1) st1).
  { apply (tame_shape config c); [done|]. destruct Htame0 as [Ht1 Ht2].
    split; [intros k g; rewrite Hev; apply Ht1 | intros k; rewrite Hgr; apply Ht2]. }
  rewrite GroupManager_init_fold, Hcfg.
  destruct (groupMapOf_spec config (container st1)) as (Hnd & Hin & _).
  destruct (createGroups_spec (S fuel) config (container st1)
              (groupMapOf config (container st1)) st1)
    as (st2 & -> & Hcfg2 & Hc2 & _ & _ & _ & Hca2 & Htame2 & Hev2 & _);
    [by eapply flat_page_shape | done | done | done | done | done |].
  assert (Hflat2 : flat_groups st2).
  { eapply tame_flat; [|exact Htame2]. by eapply flat_page_shape. }
  destruct (calculate_flat H fuel st2 Hflat2) as (st3 & -> & Hstep).
  exists st3. split; [done|]. split; [|split; [|split; [|split; [|split]]]].
  - by rewrite (es_config _ _ Hstep).
  - by rewrite (es_shape _ _ Hstep), Hc2.
  - apply (tame_shape config (container st1)).
    { symmetry. exact Hsh. }
    destruct Htame2 as [Ht1 Ht2]. split.
    + intros k g. rewrite (es_events _ _ Hstep). apply Ht1.
    + intros k Hk. apply Ht2. apply not_eq_None_Some.
      rewrite <- (es_groups _ _ Hstep). by apply not_eq_None_Some.
  - by eapply flat_groups_event_step.
  - rewrite (es_events _ _ Hstep), Hev2, Hev.
    by rewrite (groupMapOf_shape config c (container st1) Hsh),
               (flat_map_subscribers_shape config c (container st1) _ Hsh).
  - by rewrite (es_calculations _ _ Hstep), Hca2.
Qed.

Lemma AlphaCalc_new_initialize (H : Host) (fuel : nat) (config : Config)
    (elements : list Element) :
  AlphaCalc_new fuel config elements = initialize fuel (blank config elements).
Proof. reflexivity. Qed.

(** [destroy] detaches the inputs and forgets the values and the custom
    calculations: afterwards every cell reads 0, an event on an element
    changes nothing and a pass changes nothing.  The groups and the
    subscribers of the event bus are left as they are. *)
Theorem AlphaCalc_destroy_detaches (H : Host) (st : Calc) :
  (forall cellId, getValue (AlphaCalc_destroy st) cellId = VNum Num.zero)
  /\ (forall fuel type i,
        dispatchEvent fuel type i (AlphaCalc_destroy st) = Some (AlphaCalc_destroy st))
  /\ (forall fuel, calculate fuel (AlphaCalc_destroy st) = Some (AlphaCalc_destroy st))
  /\ events (AlphaCalc_destroy st) = events st
  /\ groups (AlphaCalc_destroy st) = groups st
  /\ container (AlphaCalc_destroy st) = container st.
Proof.
  split; [|split; [|split]].
  - intros cellId. unfold getValue. cbn. by rewrite lookup_empty.
  - intros fuel type i. unfold dispatchEvent. cbn. by rewrite lookup_empty.
  - intros fuel. reflexivity.
  - by repeat split.
Qed.

(** [reinit] on the calculator of a flat page returns, and it registers
    the subscribers of the groups once more without removing those of the
    construction: afterwards every subscriber is on the event bus twice.
    The custom calculations are gone. *)
Theorem reinit_doubles_subscribers (H : Host) (fuel : nat) (config : Config)
    (elements : list Element) (st : Calc) :
  flat_page config elements ->
  AlphaCalc_new (S (S fuel)) config elements = Some st ->
  forall fns,
  exists st',
    reinit (S (S fuel)) (fold_right addCalculation st fns) = Some st'
    /\ events st' = events st ++ events st
    /\ flat_groups st'
    /\ calculations st' = [].
Proof.
  intros Hpage Hnew fns. rewrite AlphaCalc_new_initialize in Hnew.
  destruct (initialize_spec H fuel (blank config elements) Hpage)
    as (st0 & Hrun & Hcfg & Hsh & Htame & _ & Hev & _).
  { split; [intros c g Hg; by apply elem_of_nil in Hg|].
    intros k Hk. cbn in Hk. rewrite lookup_empty in Hk. by destruct Hk. }
  rewrite Hnew in Hrun. injection Hrun as <-.
  cbn [calc_config container events blank app] in Hcfg, Hsh, Htame, Hev.
  set (st1 := fold_right addCalculation st fns).
  assert (Hst1 : calc_config st1 = calc_config st /\ container st1 = container st
                 /\ events st1 = events st /\ groups st1 = groups st).
  { unfold st1. induction fns as [| fn fns IH]; [done|]. cbn. exact IH. }
  destruct Hst1 as (Hc1 & Hk1 & He1 & Hg1).
  unfold reinit.
  destruct (initialize_spec H fuel (AlphaCalc_destroy st1))
    as (st' & Hrun' & _ & _ & _ & Hflat' & Hev' & Hca').
  { cbn [AlphaCalc_destroy InputManager_destroy calc_config container
         with_calculations with_formulaInputs with_inputElements with_inputValues
         with_listeners].
    rewrite Hc1, Hk1, Hcfg. by eapply flat_page_shape. }
  { cbn [AlphaCalc_destroy InputManager_destroy calc_config container
         with_calculations with_formulaInputs with_inputElements with_inputValues
         with_listeners].
    rewrite Hc1, Hk1, Hcfg. apply (tame_shape config elements); [done|].
    destruct Htame as [Ht1 Ht2]. split.
    - intros c g Hin. apply (Ht1 c g). by rewrite <- He1.
    - intros k Hk. apply Ht2. by rewrite <- Hg1. }
  exists st'. split; [exact Hrun'|]. split; [|split; [exact Hflat' | exact Hca']].
  rewrite Hev'.
  cbn [AlphaCalc_destroy InputManager_destroy calc_config container events
       with_calculations with_formulaInputs with_inputElements with_inputValues
       with_listeners].
  rewrite He1, Hc1, Hk1, Hcfg. f_equal.
  rewrite (groupMapOf_shape config elements (container st) Hsh),
          (flat_map_subscribers_shape config elements (container st) _ Hsh).
  by rewrite Hev.
Qed.

Lemma reinit_doubles_subscribers_witness :
  exists st st',
    @AlphaCalc_new arith_host 2 DEFAULT_CONFIG Page.extras = Some st
    /\ @reinit arith_host 2 st = Some st'
    /\ events st = [GroupMember "gift" "extras"; GroupMember "express" "extras"]
    /\ events st'
       = [GroupMember "gift" "extras"; GroupMember "express" "extras";
          GroupMember "gift" "extras"; GroupMember "express" "extras"].
Proof.
  assert (Hnew : exists st,
             @AlphaCalc_new arith_host 2 DEFAULT_CONFIG Page.extras = Some st
             /\ events st
                = [GroupMember "gift" "extras"; GroupMember "express" "extras"]).
  { eexists. split; vm_compute; reflexivity. }
  destruct Hnew as (st & Hnew & Hev).
  destruct (reinit_doubles_subscribers arith_host 0 DEFAULT_CONFIG Page.extras st
              flat_page_extras Hnew []) as (st' & Hre & Hev' & _).
  exists st, st'. split; [exact Hnew|]. split; [exact Hre|]. split; [exact Hev|].
  by rewrite Hev', Hev.
Defined.

(* ===================================================================== *)
(** * Custom calculations *)
(* ===================================================================== *)

Lemma for_each_commute {A S : Type} (T : S -> S) (f : A -> S -> option S)
    (l : list A) (s : S) :
  (forall a s, a ∈ l -> f a (T s) = T <$> f a s) ->
  for_each f l (T s) = T <$> for_each f l s.
Proof.
  revert s. induction l as [| a l IH]; intros s Hf; [done|]. cbn.
  rewrite Hf by left. destruct (f a s) as [s1|]; [|done]. cbn.
  apply IH. intros b s2 Hb. apply Hf. by right.
Qed.

Section Calculations.
Context (k : list (gmap string value -> gmap string value)).

(** No manager looks at the custom calculations before the end of a
    pass: what it does commutes with replacing them. *)
Lemma emit_calculations (fuel : nat) (cellId : string) (st : Calc) :
  emit fuel cellId (with_calculations k st) = with_calculations k <$> emit fuel cellId st.
Proof.
  revert cellId st. induction fuel as [| fuel IH]; intros cellId st; [done|].
  rewrite !emit_S. change (events (with_calculations k st)) with (events st).
  apply for_each_commute. intros [c g] s _.
  destruct (String.eqb c cellId); [|done].
  unfold updateGroupValue. change (groups (with_calculations k s)) with (groups s).
  destruct (groups s !! g) as [group|]; [|done].
  exact (IH g (groupUpdated g group s)).
Qed.

Lemma handleRadioChange_calculations (i : nat) (element : Element) (st : Calc) :
  handleRadioChange i element (with_calculations k st)
  = with_calculations k (handleRadioChange i element st).
Proof.
  unfold handleRadioChange. destruct (negb _); [|done].
  change (container (with_calculations k st)) with (container st).
  generalize (imap (fun j radio => (j, radio)) (container st)). intros l.
  revert st. induction l as [| [j radio] l IH]; intros st; [done|]. cbn [fold_left].
  rewrite <- IH. f_equal.
  destruct (_ && _); [|done].
  change (calc_config (with_calculations k st)) with (calc_config st).
  by destruct (truthy_string _).
Qed.

Lemma inputListener_calculations (fuel : nat) (i : nat) (cellId : string) (st : Calc) :
  inputListener fuel i cellId (with_calculations k st)
  = with_calculations k <$> inputListener fuel i cellId st.
Proof.
  unfold inputListener. change (container (with_calculations k st)) with (container st).
  destruct (container st !! i) as [element|]; [|done].
  destruct (_ && _ && _).
  - rewrite handleRadioChange_calculations.
    exact (emit_calculations fuel cellId
             (store_set cellId (VNum (getElementValue element))
                (handleRadioChange i element st))).
  - exact (emit_calculations fuel cellId
             (store_set cellId (VNum (getElementValue element)) st)).
Qed.

Lemma dispatchEvent_calculations (fuel : nat) (type : DomEvent) (i : nat) (st : Calc) :
  dispatchEvent fuel type i (with_calculations k st)
  = with_calculations k <$> dispatchEvent fuel type i st.
Proof.
  unfold dispatchEvent. change (listeners (with_calculations k st)) with (listeners st).
  destruct (listeners st !! i) as [[t c]|]; [|done].
  destruct (DomEvent_eqb t type); [|done]. apply inputListener_calculations.
Qed.

Lemma setValue_calculations (H : Host) (fuel : nat) (cellId : string) (v : value)
    (st : Calc) :
  setValue fuel cellId v (with_calculations k st)
  = with_calculations k <$> setValue fuel cellId v st.
Proof.
  unfold setValue.
  change (inputElements (store_set cellId v (with_calculations k st)))
    with (inputElements (store_set cellId v st)).
  change (container (store_set cellId v (with_calculations k st)))
    with (container (store_set cellId v st)).
  destruct (inputElements (store_set cellId v st) !! cellId) as [i|].
  - destruct (container (store_set cellId v st) !! i) as [element|].
    + match goal with
      | |- context [dispatchEvent fuel EvChange i
                      (with_container ?c (store_set cellId v (with_calculations k st)))] =>
          change (with_container c (store_set cellId v (with_calculations k st)))
            with (with_calculations k (with_container c (store_set cellId v st)))
      end.
      rewrite dispatchEvent_calculations.
      destruct (dispatchEvent fuel EvChange i _) as [s1|]; [|done].
      exact (emit_calculations fuel cellId s1).
    + exact (emit_calculations fuel cellId (store_set cellId v st)).
  - exact (emit_calculations fuel cellId (store_set cellId v st)).
Qed.

Lemma calculateInput_calculations (H : Host) (fuel : nat) (i : nat) (st : Calc) :
  calculateInput fuel i (with_calculations k st)
  = with_calculations k <$> calculateInput fuel i st.
Proof.
  rewrite !calculateInput_formulaCell.
  change (formulaCell (with_calculations k st) i) with (formulaCell st i).
  destruct (formulaCell st i) as [[cellId formula]|]; [|done].
  exact (setValue_calculations H fuel cellId _ st).
Qed.

End Calculations.

Lemma with_calculations_id (st : Calc) : with_calculations (calculations st) st = st.
Proof. by destruct st. Qed.

Lemma fold_calculations_app (l : list (gmap string value -> gmap string value))
    (fn : gmap string value -> gmap string value) (s : Calc) :
  fold_left (fun st fn => with_inputValues (fn (inputValues st)) st) (l ++ [fn]) s
  = (fun s => with_inputValues (fn (inputValues s)) s)
      (fold_left (fun st fn => with_inputValues (fn (inputValues st)) st) l s).
Proof. by rewrite fold_left_app. Qed.

Lemma fold_calculations_commute (k l : list (gmap string value -> gmap string value))
    (s : Calc) :
  fold_left (fun st fn => with_inputValues (fn (inputValues st)) st) l
    (with_calculations k s)
  = with_calculations k
      (fold_left (fun st fn => with_inputValues (fn (inputValues st)) st) l s).
Proof.
  revert s. induction l as [| fn l IH]; intros s; [done|]. cbn [fold_left].
  by rewrite <- IH.
Qed.

(** A pass with one more custom calculation is the pass without it,
    followed by that calculation applied to the store: custom
    calculations run after all the formula cells have been written, in
    the order in which they were added, and the store is left as the last
    one returns it. *)
Theorem calculate_addCalculation (H : Host) (fuel : nat)
    (fn : gmap string value -> gmap string value) (st : Calc) :
  calculate fuel (addCalculation fn st)
  = (fun s => addCalculation fn (with_inputValues (fn (inputValues s)) s))
      <$> calculate fuel st.
Proof.
  unfold calculate, addCalculation.
  change (formulaInputs (with_calculations (calculations st ++ [fn]) st))
    with (formulaInputs st).
  rewrite (for_each_commute (with_calculations (calculations st ++ [fn])))
    by (intros i s _; apply calculateInput_calculations).
  assert (Hkeep : for_each (calculateInput fuel) (formulaInputs st) st
                  = with_calculations (calculations st)
                      <$> for_each (calculateInput fuel) (formulaInputs st) st).
  { rewrite <- (for_each_commute (with_calculations (calculations st)))
      by (intros i s _; apply calculateInput_calculations).
    by rewrite with_calculations_id. }
  destruct (for_each (calculateInput fuel) (formulaInputs st) st) as [s1|]; [|done].
  cbn in Hkeep. injection Hkeep as Hs1.
  assert (Hc : calculations s1 = calculations st) by (by rewrite Hs1).
  cbn [fmap option_fmap option_map]. f_equal.
  change (calculations (with_calculations (calculations st ++ [fn]) s1))
    with (calculations st ++ [fn]).
  rewrite fold_calculations_commute, fold_calculations_app, Hc.
  set (s2 := fold_left _ (calculations st) s1).
  assert (Hc2 : calculations s2 = calculations st).
  { unfold s2. rewrite <- Hc at 2. clear.
    generalize (calculations st). intros l. revert s1.
    induction l as [| f l IH]; intros s1; [done|]. cbn [fold_left]. by rewrite IH. }
  cbn. by rewrite Hc2.
Qed.

(* ===================================================================== *)
(** * What a pass leaves in the store *)
(* ===================================================================== *)




(* ===================================================================== *)
(** * The event bus *)
(* ===================================================================== *)

Section BusProperties.
Context {C : Type} `{EqDecision C}.

Lemma emit_calls (event : string) (bus : gmap string (list C)) :
  Bus.inherited event = false ->
  Bus.emit event bus = Return (default [] (bus !! event)).
Proof.
  intros Hn. unfold Bus.emit. rewrite Hn.
  by destruct (bus !! event).
Qed.

(** Subscribing adds the callback at the end of the calls of its event,
    once per subscription and also when it is subscribed already, and
    leaves the calls of the other events as they are; subscribing to a
    name inherited from [Object.prototype] throws. *)
Theorem Bus_on_emit (event : string) (callback : C) (bus : gmap string (list C)) :
  (Bus.inherited event = false ->
   exists bus' calls,
     Bus.on event callback bus = Return bus'
     /\ Bus.emit event bus = Return calls
     /\ Bus.emit event bus' = Return (calls ++ [callback])
     /\ forall other, other <> event -> Bus.emit other bus' = Bus.emit other bus)
  /\ (Bus.inherited event = true -> Bus.on event callback bus = Throw).
Proof.
  split; intros Hn; unfold Bus.on; rewrite Hn; cbv zeta; [|done].
  eexists. eexists. split; [reflexivity|]. split; [by apply emit_calls|]. split.
  - rewrite emit_calls by done. by rewrite lookup_insert_eq.
  - intros other Hne. unfold Bus.emit. by rewrite lookup_insert_ne.
Qed.

(** Unsubscribing a callback removes every subscription of it to the
    event and keeps the other callbacks in their order; unsubscribing
    without a callback removes all the callbacks of the event; either way
    the other events keep theirs, and unsubscribing from an event nobody
    subscribed to changes nothing. *)
Theorem Bus_off_emit (event : string) (callback : option C)
    (bus : gmap string (list C)) :
  Bus.inherited event = false ->
  exists bus' calls,
    Bus.off event callback bus = Return bus'
    /\ Bus.emit event bus = Return calls
    /\ Bus.emit event bus'
       = Return match callback with
                | Some callback =>
                    List.filter (fun cb => negb (bool_decide (cb = callback))) calls
                | None => []
                end
    /\ (forall cb, callback = Some cb ->
          forall calls', Bus.emit event bus' = Return calls' -> cb ∉ calls')
    /\ (forall other, other <> event -> Bus.emit other bus' = Bus.emit other bus)
    /\ (bus !! event = None -> bus' = bus).
Proof.
  intros Hn. unfold Bus.off. rewrite Hn.
  assert (Hfilter : forall cb (l : list C),
             cb ∉ List.filter (fun c => negb (bool_decide (c = cb))) l).
  { intros cb l Hin. apply list_elem_of_In, filter_In in Hin as [_ Hin].
    by rewrite bool_decide_eq_true_2 in Hin. }
  destruct (bus !! event) as [callbacks|] eqn:Hev.
  - destruct callback as [cb|].
    + eexists. exists callbacks. split; [reflexivity|].
      split; [by rewrite emit_calls, Hev|].
      split; [by rewrite emit_calls, lookup_insert_eq|].
      split; [|split; [|done]].
      * intros cb' [= <-] calls'. rewrite emit_calls, lookup_insert_eq by done.
        intros [= <-]. apply Hfilter.
      * intros other Hne. unfold Bus.emit. by rewrite lookup_insert_ne.
    + eexists. exists callbacks. split; [reflexivity|].
      split; [by rewrite emit_calls, Hev|].
      split; [by rewrite emit_calls, lookup_delete_eq|].
      split; [done|]. split; [|done].
      intros other Hne. unfold Bus.emit. by rewrite lookup_delete_ne.
  - exists bus, []. split; [reflexivity|].
    split; [by rewrite emit_calls, Hev|].
    split; [rewrite emit_calls, Hev by done; by destruct callback|].
    split; [|by split].
    intros cb _ calls'. rewrite emit_calls, Hev by done. intros [= <-].
    intros Hin. by apply elem_of_nil in Hin.
Qed.

End BusProperties.

Lemma Bus_off_emit_witness :
  exists bus1 bus2 bus3,
    Bus.on "value:changed" 7%nat Bus.empty = Return bus1
    /\ Bus.on "value:changed" 7%nat bus1 = Return bus2
    /\ Bus.emit "value:changed" bus2 = Return [7; 7]%nat
    /\ Bus.off "value:changed" (Some 7%nat) bus2 = Return bus3
    /\ Bus.emit "value:changed" bus3 = Return [].
Proof.
  eexists. eexists.
  destruct (Bus_off_emit "value:changed" (Some 7%nat)
              (<["value:changed" := [7; 7]%nat]> Bus.empty) eq_refl)
    as (bus3 & calls & Hoff & Hemit & Hemit' & _).
  exists bus3. split; [reflexivity|]. split; [reflexivity|].
  split; [reflexivity|]. split.
  - rewrite <- Hoff. reflexivity.
  - rewrite Hemit'. injection Hemit as <-. reflexivity.
Defined.

Lemma Bus_on_emit_witness :
  exists bus',
    Bus.on "value:changed" 1%nat (<["value:changed" := [0%nat]]> Bus.empty)
    = Return bus'
    /\ Bus.emit "value:changed" bus' = Return [0; 1]%nat
    /\ Bus.on "toString" 1%nat (Bus.empty (C := nat)) = Throw.
Proof.
  destruct (Bus_on_emit "value:changed" 1%nat (<["value:changed" := [0%nat]]> Bus.empty))
    as [Hon _].
  destruct (Hon eq_refl) as (bus' & calls & Hrun & Hemit & Hemit' & _).
  exists bus'. split; [exact Hrun|]. split.
  - rewrite Hemit'. injection Hemit as <-. reflexivity.
  - apply (Bus_on_emit "toString" 1%nat Bus.empty). reflexivity.
Defined.
